(** * Quahog: a shallow embedding of [quahog.py]

    Quahog is a Mercurial extension that manages a Quilt-style patch set
    ([<root>/patches/series] plus one diff file per patch) by turning each
    patch into a changeset ([qu-pop]) and back ([qu-fold]).

    This development embeds the Python source in Gallina:
    - [bytes] objects are [list byte], with the [bytes] methods the source
      uses ([splitlines], [strip], [startswith], [join], ...);
    - the three regular expressions of the source run on a small
      backtracking matcher with Python's priorities (module [Re]);
    - the Mercurial API is an interface ([Backend]) over an explicit
      repository state, and commands run in a state-and-exception monad in
      which a raised exception keeps the state reached so far, as a Python
      exception does. *)

From Stdlib Require Import List Bool Arith Lia ZArith.
From Stdlib Require Import Strings.Byte.
Import ListNotations.

Set Implicit Arguments.
Set Warnings "-via-type-mismatch,-via-type-remapping".

(** ** Byte strings *)

Definition bytes := list byte.

Inductive bytes_literal := BNil | BCons (b : byte) (t : bytes_literal).

Fixpoint bytes_literal_of (l : list byte) : bytes_literal :=
  match l with
  | [] => BNil
  | b :: t => BCons b (bytes_literal_of t)
  end.

Fixpoint of_bytes_literal (l : bytes_literal) : list byte :=
  match l with
  | BNil => []
  | BCons b t => b :: of_bytes_literal t
  end.

Declare Scope bytes_scope.
Delimit Scope bytes_scope with bytes.
String Notation bytes bytes_literal_of of_bytes_literal
  (via bytes_literal mapping [[nil] => BNil, [cons] => BCons]) : bytes_scope.
Open Scope bytes_scope.
Open Scope list_scope.

(** The bytes that cannot be typed inside a literal. *)
Abbreviation LF := x0a (only parsing).
Abbreviation CR := x0d (only parsing).
Abbreviation TAB := x09 (only parsing).
Abbreviation VT := x0b (only parsing).
Abbreviation FF := x0c (only parsing).
Abbreviation SP := x20 (only parsing).
Abbreviation DQUOTE := x22 (only parsing).

Module Py.

(** [b' \t\n\r\x0b\f']: the default argument of [bytes.strip] and the
    class [\s] of a bytes pattern. *)
Definition isspace (b : byte) : bool :=
  Byte.eqb b SP || Byte.eqb b TAB || Byte.eqb b LF
  || Byte.eqb b CR || Byte.eqb b VT || Byte.eqb b FF.

Fixpoint bytes_eqb (a b : bytes) : bool :=
  match a, b with
  | [], [] => true
  | x :: a', y :: b' => Byte.eqb x y && bytes_eqb a' b'
  | _, _ => false
  end.

(** [s.startswith(p)] *)
Fixpoint startswith (p s : bytes) : bool :=
  match p, s with
  | [], _ => true
  | x :: p', y :: s' => Byte.eqb x y && startswith p' s'
  | _ :: _, [] => false
  end.

(** [s.startswith((p1, p2, ...))] *)
Definition startswith_any (ps : list bytes) (s : bytes) : bool :=
  existsb (fun p => startswith p s) ps.

(** [s.removeprefix(p)] *)
Definition removeprefix (p s : bytes) : bytes :=
  if startswith p s then skipn (length p) s else s.

(** [s.lstrip()] *)
Fixpoint lstrip (s : bytes) : bytes :=
  match s with
  | [] => []
  | c :: t => if isspace c then lstrip t else s
  end.

(** [s.rstrip()] *)
Fixpoint rstrip (s : bytes) : bytes :=
  match s with
  | [] => []
  | c :: t =>
      match rstrip t with
      | [] => if isspace c then [] else [c]
      | t' => c :: t'
      end
  end.

(** [s.strip()] *)
Definition strip (s : bytes) : bytes := lstrip (rstrip s).

(** [s.rstrip(chars)] *)
Fixpoint rstrip_chars (chars : bytes) (s : bytes) : bytes :=
  match s with
  | [] => []
  | c :: t =>
      match rstrip_chars chars t with
      | [] => if existsb (Byte.eqb c) chars then [] else [c]
      | t' => c :: t'
      end
  end.

(** [sep.join(parts)] *)
Fixpoint join (sep : bytes) (parts : list bytes) : bytes :=
  match parts with
  | [] => []
  | [p] => p
  | p :: rest => p ++ sep ++ join sep rest
  end.

(** [s.splitlines(keepends)]: a line ends at [\n], [\r] or [\r\n]; no
    empty last line is produced after a final terminator. *)
Fixpoint splitlines (keepends : bool) (s : bytes) : list bytes :=
  match s with
  | [] => []
  | c :: t =>
      if Byte.eqb c LF then
        (if keepends then [LF] else []) :: splitlines keepends t
      else if Byte.eqb c CR then
        match t with
        | c' :: t' =>
            if Byte.eqb c' LF then
              (if keepends then [CR; LF] else []) :: splitlines keepends t'
            else (if keepends then [CR] else []) :: splitlines keepends t
        | [] => [if keepends then [CR] else []]
        end
      else
        match splitlines keepends t with
        | [] => [[c]]
        | l :: ls => (c :: l) :: ls
        end
  end.

(** ASCII case mapping, as [bytes.upper] and [re.IGNORECASE] on a bytes
    pattern use it. *)
Definition upper_byte (b : byte) : byte :=
  let n := Byte.to_N b in
  if (97 <=? n)%N && (n <=? 122)%N then
    match Byte.of_N (n - 32) with Some b' => b' | None => b end
  else b.

Definition lower_byte (b : byte) : byte :=
  let n := Byte.to_N b in
  if (65 <=? n)%N && (n <=? 90)%N then
    match Byte.of_N (n + 32) with Some b' => b' | None => b end
  else b.

Definition upper (s : bytes) : bytes := map upper_byte s.

(** [sub in s] *)
Fixpoint contains (sub s : bytes) : bool :=
  startswith sub s
  || match s with
     | [] => false
     | _ :: t => contains sub t
     end.

(** [s[-n:]] for [n > 0] *)
Definition last_n (n : nat) (s : bytes) : bytes :=
  skipn (length s - n) s.

(** [s[:-n]] for [n > 0], on any list *)
Definition drop_last_n {A} (n : nat) (l : list A) : list A :=
  firstn (length l - n) l.

(** [posixpath.join(a, *p)], which [vfs.reljoin] resolves to. *)
Definition path_join2 (path b : bytes) : bytes :=
  if startswith "/" b then b
  else if match path with [] => true | _ => false end then b
  else if Byte.eqb (last path SP) "/" then path ++ b
  else path ++ "/" ++ b.

Definition reljoin (a : bytes) (ps : list bytes) : bytes :=
  fold_left path_join2 ps a.

End Py.

(** ** Regular expressions

    The fragment of Python's [re] that the source uses, on bytes patterns:
    literals, one-byte classes, [^], sequence, alternation, greedy [?],
    greedy [*] on a one-byte class, and capturing groups.  Matching is the
    backtracking search of [re]: alternatives in order, greedy repetition
    from the longest run down, the first success wins. *)

Module Re.

Inductive regex :=
| Lit (s : bytes)                       (* literal text *)
| Class (p : byte -> bool)              (* one byte of a class *)
| Bol                                   (* ^ without re.MULTILINE *)
| Seq (r1 r2 : regex)
| Alt (r1 r2 : regex)
| Opt (r : regex)                       (* r? *)
| Star (p : byte -> bool)               (* c* on a one-byte class c *)
| Group (n : nat) (r : regex).          (* the n-th capturing group *)

(** [c+] *)
Definition Plus (p : byte -> bool) : regex := Seq (Class p) (Star p).

(** Captured groups, most recent first. *)
Definition caps := list (nat * bytes).

(** [m.group(n)]; [None] when the group did not take part. *)
Fixpoint group (n : nat) (g : caps) : option bytes :=
  match g with
  | [] => None
  | (m, s) :: g' => if Nat.eqb m n then Some s else group n g'
  end.

(** A match in progress: absolute position, remaining input, groups. *)
Definition cont (R : Type) := nat -> bytes -> caps -> option R.

(** Literal comparison, folding ASCII case under [re.IGNORECASE]. *)
Definition byte_eq (ic : bool) (a b : byte) : bool :=
  if ic then Byte.eqb (Py.lower_byte a) (Py.lower_byte b) else Byte.eqb a b.

Fixpoint lit_rest (ic : bool) (lit s : bytes) : option bytes :=
  match lit, s with
  | [], _ => Some s
  | x :: lit', y :: s' => if byte_eq ic x y then lit_rest ic lit' s' else None
  | _ :: _, [] => None
  end.

(** Length of the longest prefix of [s] inside the class. *)
Fixpoint run (p : byte -> bool) (s : bytes) : nat :=
  match s with
  | c :: t => if p c then S (run p t) else 0
  | [] => 0
  end.

(** Greedy backtracking: try [f j], then [f (j-1)], ... then [f 0]. *)
Fixpoint try_down {R} (j : nat) (f : nat -> option R) : option R :=
  match f j with
  | Some r => Some r
  | None =>
      match j with
      | O => None
      | S j' => try_down j' f
      end
  end.

Section Matcher.
Variable ic : bool.      (* re.IGNORECASE *)
Variable R : Type.

Fixpoint rmatch (r : regex) (pos : nat) (s : bytes) (g : caps)
    (k : cont R) {struct r} : option R :=
  match r with
  | Lit l =>
      match lit_rest ic l s with
      | Some s' => k (pos + length l) s' g
      | None => None
      end
  | Class p =>
      match s with
      | c :: t => if p c then k (S pos) t g else None
      | [] => None
      end
  | Bol => if Nat.eqb pos 0 then k pos s g else None
  | Seq r1 r2 =>
      rmatch r1 pos s g (fun pos' s' g' => rmatch r2 pos' s' g' k)
  | Alt r1 r2 =>
      match rmatch r1 pos s g k with
      | Some x => Some x
      | None => rmatch r2 pos s g k
      end
  | Opt r1 =>
      match rmatch r1 pos s g k with
      | Some x => Some x
      | None => k pos s g
      end
  | Star p =>
      try_down (run p s) (fun j => k (pos + j) (skipn j s) g)
  | Group n r1 =>
      rmatch r1 pos s g
        (fun pos' s' g' => k pos' s' ((n, firstn (pos' - pos) s) :: g'))
  end.
End Matcher.

(** The match object: where the match ends, what is left, the groups. *)
Record match_obj := MatchObj { m_end : nat; m_rest : bytes; m_caps : caps }.

(** [pattern.match(s, pos)] on the suffix [s] that starts at [pos]. *)
Definition match_at (ic : bool) (r : regex) (pos : nat) (s : bytes)
    : option match_obj :=
  rmatch ic r pos s [] (fun e s' g => Some (MatchObj e s' g)).

(** [pattern.fullmatch(s)] *)
Definition fullmatch (ic : bool) (r : regex) (s : bytes) : option caps :=
  rmatch ic r 0 s []
    (fun _ s' g => match s' with [] => Some g | _ :: _ => None end).

(** A replacement template: literal text and group references. *)
Inductive repl_item := RText (s : bytes) | RRef (n : nat).

(** A group that did not take part expands to the empty string. *)
Definition expand (tpl : list repl_item) (g : caps) : bytes :=
  flat_map
    (fun it =>
       match it with
       | RText s => s
       | RRef n => match group n g with Some s => s | None => [] end
       end) tpl.

(** [re.sub(pattern, repl, s)]: scan left to right; where the pattern
    matches, emit the expanded template and resume after the match,
    elsewhere copy one byte.  [skip] counts the bytes of the current
    match that are still to be passed over.  Both patterns the source
    substitutes with consume at least one byte; a match of length zero is
    treated as no match at that position. *)
Fixpoint sub_from (ic : bool) (r : regex) (tpl : list repl_item)
    (pos : nat) (s : bytes) (skip : nat) : bytes :=
  match s with
  | [] => []
  | c :: t =>
      match skip with
      | S n => sub_from ic r tpl (S pos) t n
      | O =>
          match match_at ic r pos s with
          | Some m =>
              if Nat.ltb pos (m_end m) then
                expand tpl (m_caps m)
                ++ sub_from ic r tpl (S pos) t (m_end m - pos - 1)
              else c :: sub_from ic r tpl (S pos) t 0
          | None => c :: sub_from ic r tpl (S pos) t 0
          end
      end
  end.

Definition sub (ic : bool) (r : regex) (tpl : list repl_item) (s : bytes)
    : bytes :=
  sub_from ic r tpl 0 s 0.

End Re.

(** ** PatchCodec and ChangesetClassifier: the pure functions *)

(** The class [[^\r\n]]. *)
Definition not_crlf (b : byte) : bool :=
  negb (Byte.eqb b CR || Byte.eqb b LF).

(** [PATCHDESC_RE], compiled with [re.IGNORECASE].  Token by token the
    pattern is: an optional group 1 made of the text [do not submit] and
    [\s*]; the text [\[patch\]]; group 2, [[^\r\n]+]. *)
Definition PATCHDESC_RE : Re.regex :=
  Re.Seq (Re.Opt (Re.Group 1 (Re.Seq (Re.Lit "do not submit")
                                     (Re.Star Py.isspace))))
    (Re.Seq (Re.Lit "[patch]") (Re.Group 2 (Re.Plus not_crlf))).

Definition PATCHDESC_fullmatch (line : bytes) : option Re.caps :=
  Re.fullmatch true PATCHDESC_RE line.

(** The markers that end the description of a patch file. *)
Definition diff_markers : list bytes := ["--- "; "diff --git"; "rename from"].

(** The [for] loop of [_separatepatchdescription] over
    [enumerate(patchlines)] from index [i]: the index at which the loop
    leaves and the lines appended to [desclines].  When the loop runs to
    the end, [i] is the index of the last element. *)
Fixpoint separate_loop (i : nat) (patchlines : list bytes)
    : nat * list bytes :=
  match patchlines with
  | [] => (i - 1, [])
  | line :: rest =>
      if Py.startswith_any diff_markers line then (i, [])
      else if Py.startswith "Index: " line then (i + 2, [])
      else
        let '(j, desclines) := separate_loop (S i) rest in
        (j, Py.rstrip line :: desclines)
  end.

Definition _separatepatchdescription (patchcontent : bytes) : bytes * bytes :=
  let patchlines := Py.splitlines true patchcontent ++ [[]] in
  let '(i, desclines) := separate_loop 0 patchlines in
  (Py.lstrip (concat (skipn i patchlines)),
   Py.rstrip (Py.join [LF] desclines)).

(** [abspathpattern = br'(^|\n)(---|\+\+\+)(\s)(\S*/)?(' + rootpath + br')']
    The source splices [rootpath] into the pattern text unescaped; the
    compiled pattern below is the one [re] builds when [rootpath] has no
    regular-expression metacharacter ([re_plain] below), so that it stands
    for itself.  For any other root path the pattern is not this one, and
    [re.compile] may reject it: [pop] goes through [canonicalize] of the
    command section, which keeps this pattern to the plain root paths. *)
Definition abspathpattern (rootpath : bytes) : Re.regex :=
  Re.Seq (Re.Group 1 (Re.Alt Re.Bol (Re.Lit [LF])))
    (Re.Seq (Re.Group 2 (Re.Alt (Re.Lit "---") (Re.Lit "+++")))
       (Re.Seq (Re.Group 3 (Re.Class Py.isspace))
          (Re.Seq (Re.Opt (Re.Group 4
                     (Re.Seq (Re.Star (fun b => negb (Py.isspace b)))
                             (Re.Lit "/"))))
             (Re.Group 5 (Re.Lit rootpath))))).

(** The bytes with a meaning in a pattern. *)
Definition re_special (b : byte) : bool :=
  existsb (Byte.eqb b) ".^$*+?{}[]\|()".

Definition re_plain (s : bytes) : bool := forallb (fun b => negb (re_special b)) s.

(** [re.sub(abspathpattern, br'\1\2\3\4', patchcontent)] *)
Definition _canonicalizepatchcontent (patchcontent rootpath : bytes) : bytes :=
  Re.sub false (abspathpattern rootpath)
    [Re.RRef 1; Re.RRef 2; Re.RRef 3; Re.RRef 4] patchcontent.

(** A [str] object, by the bytes of its text. *)
Inductive str := Str (text : bytes).

(** [b == s] for a [bytes] object and a [str] object: never equal in
    Python 3.  [line[-2:] == '\r\n'] in [_hgdifftopatch] has a [str]
    literal on the right. *)
Definition bytes_eq_str (b : bytes) (s : str) : bool := false.

(** The body of the [for] loop of [_hgdifftopatch]: [None] for [continue],
    otherwise the line appended to [lines]. *)
Definition hgdiff_line (rootbasepath line : bytes) : option bytes :=
  if Py.startswith "diff --git" line then None
  else if Py.startswith ("--- " ++ rootbasepath) line then
    Some ("--- a" ++ Py.removeprefix ("--- " ++ rootbasepath) line)
  else if Py.startswith ("+++ " ++ rootbasepath) line then
    Some ("+++ b" ++ Py.removeprefix ("+++ " ++ rootbasepath) line)
  else if Py.startswith "@@ " line then
    let ending :=
      if bytes_eq_str (Py.last_n 2 line) (Str [CR; LF])
      then Py.last_n 2 line else Py.last_n 1 line in
    Some (Py.rstrip line ++ ending)
  else Some line.

Definition _hgdifftopatch (diff root : bytes) : bytes :=
  let rootbasepath := Py.rstrip_chars "/" root in
  concat
    (flat_map
       (fun line =>
          match hgdiff_line rootbasepath line with
          | Some out => [out]
          | None => []
          end)
       (Py.splitlines true diff)).

(** [_isquahogchange(node)], on [node.description()] *)
Definition _isquahogchange (description : bytes) : bool :=
  Py.contains "#QUAHOG" (Py.upper description).

(** [description.splitlines()[0]]; [None] is the [IndexError] of an empty
    description. *)
Definition first_line (description : bytes) : option bytes :=
  match Py.splitlines false description with
  | [] => None
  | l :: _ => Some l
  end.

(** [_isquahogpatch(node)], on [node.description()] *)
Definition _isquahogpatch (description : bytes) : option bool :=
  match first_line description with
  | None => None
  | Some l =>
      Some (match PATCHDESC_fullmatch l with Some _ => true | None => false end)
  end.

(** ** Repository state and the command monad *)

Inductive Phase := Public | Draft | Secret.

Definition phase_eqb (a b : Phase) : bool :=
  match a, b with
  | Public, Public | Draft, Draft | Secret, Secret => true
  | _, _ => false
  end.

(** A changeset.  Nodes are identified with their hexadecimal form. *)
Record Commit := mkCommit {
  c_description : bytes;
  c_p1 : option nat;
  c_p2 : option nat;
  c_phase : Phase;
  c_hex : bytes;
  c_hidden : bool          (* obsolete, filtered out of the repository view *)
}.

(** A changectx: a revision number, or the null revision. *)
Definition ctx := option nat.

Inductive UiMsg := Warn (text : bytes) | Status (text : bytes).

Inductive exn :=
| Abort (msg : bytes)                               (* error.Abort *)
| AssertionError
| IndexError
| ValueError
| UnboundLocalError
| FileNotFoundError (path : bytes)
| RepoLookupError (what : bytes)
| CalledProcessError (cmd : list bytes) (stderr : bytes)
| BackendError (tag : bytes).  (* any other exception, of Mercurial or [re] *)

Section Commands.

(** Everything the backend keeps besides what the commands read: the
    dirstate, the obsolescence store, the narrowspec, ... *)
Variable Store : Type.

Record Repo := mkRepo {
  changelog : list Commit;              (* indexed by revision number *)
  dot : ctx;                            (* the working directory parent *)
  wfiles : list (bytes * bytes);        (* repo.wvfs: path -> content *)
  ui_out : list UiMsg;                  (* ui.warn / ui.status, in order *)
  store : Store
}.

(** A command step: it may change the repository and either returns a
    value or raises; the state reached when it raises is kept. *)
Definition M (A : Type) : Type := Repo -> Repo * (exn + A).

Definition ret {A} (a : A) : M A := fun r => (r, inr a).

Definition bind {A B} (m : M A) (f : A -> M B) : M B :=
  fun r =>
    match m r with
    | (r', inr a) => f a r'
    | (r', inl e) => (r', inl e)
    end.

Definition raise {A} (e : exn) : M A := fun r => (r, inl e).

(** [try: body / except: handler; raise] *)
Definition try_finally_reraise {A} (body : M A) (handler : M unit) : M A :=
  fun r =>
    match body r with
    | (r', inr a) => (r', inr a)
    | (r', inl e) =>
        match handler r' with
        | (r'', inr _) => (r'', inl e)
        | (r'', inl e') => (r'', inl e')
        end
    end.

(** [try: body / except CalledProcessError as e: handler(e)] *)
Definition try_called_process_error {A} (body : M A)
    (handler : list bytes -> bytes -> M A) : M A :=
  fun r =>
    match body r with
    | (r', inl (CalledProcessError cmd err)) => handler cmd err r'
    | other => other
    end.

Definition gets {A} (f : Repo -> A) : M A := fun r => (r, inr (f r)).

(** A read-only call that may raise. *)
Definition query {A} (f : Repo -> exn + A) : M A := fun r => (r, f r).

Definition check (f : Repo -> option exn) : M unit :=
  fun r => match f r with Some e => (r, inl e) | None => (r, inr tt) end.

End Commands.

Arguments ret {Store A} a.
Arguments raise {Store A} e.
Arguments mkRepo {Store}.

Declare Scope cmd_scope.
Delimit Scope cmd_scope with cmd.
Notation "x <- m ;; k" := (bind m (fun x => k))
  (at level 61, m at next level, right associativity) : cmd_scope.
Notation "' p <- m ;; k" := (bind m (fun p => k))
  (at level 61, p pattern, m at next level, right associativity) : cmd_scope.
Notation "m ;; k" := (bind m (fun _ => k))
  (at level 61, right associativity) : cmd_scope.
Open Scope cmd_scope.

(** [for x in xs: body(x)] *)
Fixpoint for_each {Store A} (xs : list A) (body : A -> M Store unit)
    : M Store unit :=
  match xs with
  | [] => ret tt
  | x :: xs' => body x ;; for_each xs' body
  end.

(** [[f(x) for x in xs]] when [f] may raise *)
Fixpoint map_m {Store A B} (f : A -> M Store B) (xs : list A)
    : M Store (list B) :=
  match xs with
  | [] => ret []
  | x :: xs' => y <- f x ;; ys <- map_m f xs' ;; ret (y :: ys)
  end.

(** A loop that threads an accumulator. *)
Fixpoint fold_m {Store A S} (f : S -> A -> M Store S) (xs : list A) (s : S)
    : M Store S :=
  match xs with
  | [] => ret s
  | x :: xs' => s' <- f s x ;; fold_m f xs' s'
  end.

(** *** Reading the changelog *)

Section Graph.
Variable Store : Type.
Implicit Type r : Repo Store.

Definition commit_at r (n : nat) : option Commit := nth_error (changelog r) n.

(** [repo[rev]]; hidden revisions are filtered out of the view. *)
Definition visible r (n : nat) : bool :=
  match commit_at r n with
  | Some c => negb (c_hidden c)
  | None => false
  end.

(** [ctx.description()]; the null revision has an empty description. *)
Definition description r (c : ctx) : bytes :=
  match c with
  | Some n => match commit_at r n with Some k => c_description k | None => [] end
  | None => []
  end.

(** [ctx.phase()]; the null revision is public. *)
Definition phase r (c : ctx) : Phase :=
  match c with
  | Some n => match commit_at r n with Some k => c_phase k | None => Public end
  | None => Public
  end.

(** [ctx.hex()] *)
Definition hex r (c : ctx) : bytes :=
  match c with
  | Some n =>
      match commit_at r n with
      | Some k => c_hex k
      | None => "ffffffffffffffffffffffffffffffffffffffff"
      end
  | None => "0000000000000000000000000000000000000000"
  end.

(** [ctx.p1()] *)
Definition p1 r (c : ctx) : ctx :=
  match c with
  | Some n => match commit_at r n with Some k => c_p1 k | None => None end
  | None => None
  end.

Definition p2 r (c : ctx) : ctx :=
  match c with
  | Some n => match commit_at r n with Some k => c_p2 k | None => None end
  | None => None
  end.

(** [ctx.parents()]: [[p1]] when there is no second parent. *)
Definition parents r (c : ctx) : list ctx :=
  match p2 r c with
  | None => [p1 r c]
  | Some q => [p1 r c; Some q]
  end.

Definition ctx_eqb (a b : ctx) : bool :=
  match a, b with
  | None, None => true
  | Some x, Some y => Nat.eqb x y
  | _, _ => false
  end.

(** Is [c] a parent of revision [n]?  A revision without parents is a
    child of the null revision. *)
Definition is_child_of r (c : ctx) (n : nat) : bool :=
  match commit_at r n with
  | None => false
  | Some k =>
      match c with
      | Some p =>
          match c_p1 k with Some q => Nat.eqb q p | None => false end
          || match c_p2 k with Some q => Nat.eqb q p | None => false end
      | None =>
          match c_p1 k, c_p2 k with None, None => true | _, _ => false end
      end
  end.

(** [ctx.children()]: the visible revisions after [c] that have [c] as a
    parent, in revision order ([revlog.children] scans the revisions that
    follow [c]). *)
Definition children r (c : ctx) : list nat :=
  let start := match c with Some p => S p | None => 0 end in
  filter (fun n => visible r n && is_child_of r c n)
         (seq start (length (changelog r) - start)).

(** [repo[node]], for a node given by its hexadecimal form. *)
Fixpoint find_hex (h : bytes) (cs : list Commit) (n : nat) : option nat :=
  match cs with
  | [] => None
  | k :: cs' =>
      if Py.bytes_eqb (c_hex k) h && negb (c_hidden k) then Some n
      else find_hex h cs' (S n)
  end.

Definition ctx_of_node r (h : bytes) : exn + nat :=
  match find_hex h (changelog r) 0 with
  | Some n => inr n
  | None => inl (RepoLookupError h)
  end.

(** [rev in repo] *)
Definition ctx_in_repo r (c : ctx) : bool :=
  match c with
  | Some n => visible r n
  | None => true
  end.

End Graph.

(** [_reverr(node, message)] *)
Definition _reverr {Store} (r : Repo Store) (node : ctx) (message : bytes)
    : bytes :=
  let h := hex r node in
  let maybex :=
    match h with
    | c :: _ => if existsb (Byte.eqb c) "0123456789" then "x" else []
    | [] => []
    end in
  "rev " ++ maybex ++ firstn 8 h ++ ": " ++ message.

(** *** The working directory files ([repo.wvfs]) *)

Module Vfs.

Definition files := list (bytes * bytes).

Fixpoint lookup (fs : files) (path : bytes) : option bytes :=
  match fs with
  | [] => None
  | (p, c) :: fs' => if Py.bytes_eqb p path then Some c else lookup fs' path
  end.

Definition isfile (fs : files) (path : bytes) : bool :=
  match lookup fs path with Some _ => true | None => false end.

(** Opening with mode [wb] and writing: the file now holds [content]. *)
Fixpoint write (fs : files) (path content : bytes) : files :=
  match fs with
  | [] => [(path, content)]
  | (p, c) :: fs' =>
      if Py.bytes_eqb p path then (p, content) :: fs'
      else (p, c) :: write fs' path content
  end.

(** Opening with mode [ab] and writing. *)
Definition append (fs : files) (path content : bytes) : files :=
  match lookup fs path with
  | Some old => write fs path (old ++ content)
  | None => write fs path content
  end.

Fixpoint unlink (fs : files) (path : bytes) : files :=
  match fs with
  | [] => []
  | (p, c) :: fs' =>
      if Py.bytes_eqb p path then fs' else (p, c) :: unlink fs' path
  end.

End Vfs.

(** *** Revsets

    The revset expressions the commands build.  A revset typed by the user
    is evaluated by Mercurial; so are [sort(_, topo)] and [ancestor((_)^)].
    The other operators are evaluated here, on the visible revisions, with
    results in revision order. *)

Inductive revset :=
| RsUser (text : bytes)
| RsNone                                  (* none() *)
| RsDot                                   (* . *)
| RsNotPublic                             (* not public() *)
| RsHex (h : bytes)                       (* a node in hexadecimal *)
| RsAnd (a b : revset)                    (* a & b *)
| RsOr (a b : revset)                     (* a + b *)
| RsChildren (a : revset)                 (* children(a) *)
| RsSortTopo (a : revset)                 (* sort(a, topo) *)
| RsAncestorOfParents (a : revset).       (* ancestor((a)^) *)

(** The Mercurial API the commands call.  Queries read the repository;
    the others run in the command monad and may change anything. *)
Class Backend (Store : Type) := {
  (* pathutil.canonpath(repo.root, repo.dirstate.getcwd(), root) *)
  canonpath : Repo Store -> bytes -> exn + bytes;
  wvfs_isdir : Repo Store -> bytes -> bool;
  (* the dirpath of each entry of repo.wvfs.walk(rootpath) *)
  wvfs_walk : Repo Store -> bytes -> list bytes;
  narrowpats : Repo Store -> list bytes * list bytes;
  setnarrowpats : list bytes -> list bytes -> M Store unit;
  narrowspec_updateworkingcopy : M Store unit;
  narrowspec_copytoworkingcopy : M Store unit;
  (* safehasattr(ui, 'reporting_record_meta') and the method itself *)
  has_reporting_record_meta : bool;
  reporting_record_meta : bytes -> bytes -> M Store unit;
  (* repo.wlock(), repo.lock(), repo.transaction(name): entering the block,
     leaving it normally, leaving it by an exception *)
  transaction_enter : bytes -> M Store unit;
  transaction_close : M Store unit;
  transaction_abort : M Store unit;
  cmdutil_bailifchanged : Repo Store -> option exn;
  cmdutil_checkunfinished : Repo Store -> option exn;
  (* repo.revs on a revset given by the user *)
  user_revs : Repo Store -> bytes -> exn + list nat;
  topo_sort : Repo Store -> list nat -> list nat;
  ancestor_of_parents : Repo Store -> list nat -> exn + list nat;
  (* b''.join(patch.diff(repo, node1, node2, match=path:root, opts=git,noprefix)) *)
  patch_diff : Repo Store -> ctx -> ctx -> bytes -> exn + bytes;
  obsutil_successorssets : Repo Store -> bytes -> list (list bytes);
  (* repo.status(unknown=True): the deleted and the unknown files *)
  repo_status : Repo Store -> list bytes * list bytes;
  rewriteutil_precheck : Repo Store -> list nat -> bytes -> option exn;
  merge_update : ctx -> M Store unit;
  (* cmdutil.commit(ui, repo, _basiccommitfunc, [], opts + message), with
     ui.allowemptycommit overridden or not; None when nothing was committed *)
  cmdutil_commit : bool -> bytes -> M Store (option bytes);
  cmdutil_amend : ctx -> M Store bytes;
  rebase_rebase : list bytes -> bytes -> M Store unit;
  wctx_forget : list bytes -> M Store unit;
  wctx_add : list bytes -> M Store unit;
  repo_invalidatecaches : M Store unit;
  (* subprocess.run(cmd, input=..., check=True, cwd=repo.root,
     capture_output=True) *)
  subprocess_run : list bytes -> bytes -> M Store unit;
  (* evolve: rewriteutil.foldcheck gives (root, head, p2) *)
  evolve_foldcheck : Repo Store -> list nat -> exn + (ctx * ctx * ctx);
  evolve_rewrite : ctx -> ctx -> list bytes -> bytes -> M Store bytes;
  phases_retractboundary : list bytes -> M Store unit;
  scmutil_cleanupnodes : list (list bytes * list bytes) -> M Store unit;
  (* the %r conversion of a bytes object and of a list of them *)
  py_repr : bytes -> bytes;
  py_repr_list : list bytes -> bytes;
  (* re.sub(abspathpattern, br'\1\2\3\4', patchcontent) for a rootpath
     with a regular-expression metacharacter, given as rootpath and
     patchcontent: what the interpreter makes of the pattern with rootpath
     spliced in, the re.error of a pattern it rejects included *)
  re_sub_abspath : bytes -> bytes -> exn + bytes
}.

Section Revsets.
Context {Store : Type} {backend : Backend Store}.
Implicit Type r : Repo Store.

Definition all_revs r : list nat :=
  filter (visible r) (seq 0 (length (changelog r))).

Definition mem (n : nat) (l : list nat) : bool := existsb (Nat.eqb n) l.

(** [children(parentset)]: the revisions after the smallest member that
    have a parent in the set. *)
Definition revset_children r (parentset : list nat) : list nat :=
  match parentset with
  | [] => []
  | p0 :: _ =>
      let minrev := fold_right Nat.min p0 parentset in
      filter
        (fun n =>
           Nat.ltb minrev n
           && existsb (fun p => is_child_of r (Some p) n) parentset)
        (all_revs r)
  end.

(** [repo.revs(revset)] *)
Fixpoint revs r (e : revset) : exn + list nat :=
  match e with
  | RsUser text => user_revs r text
  | RsNone => inr []
  | RsDot => inr (match dot r with Some n => [n] | None => [] end)
  | RsNotPublic =>
      inr (filter (fun n => negb (phase_eqb (phase r (Some n)) Public))
                  (all_revs r))
  | RsHex h =>
      match ctx_of_node r h with inr n => inr [n] | inl x => inl x end
  | RsAnd a b =>
      match revs r a, revs r b with
      | inr xs, inr ys => inr (filter (fun n => mem n ys) xs)
      | inl x, _ => inl x
      | _, inl x => inl x
      end
  | RsOr a b =>
      match revs r a, revs r b with
      | inr xs, inr ys =>
          inr (filter (fun n => mem n xs || mem n ys) (all_revs r))
      | inl x, _ => inl x
      | _, inl x => inl x
      end
  | RsChildren a =>
      match revs r a with
      | inr xs => inr (revset_children r xs)
      | inl x => inl x
      end
  | RsSortTopo a =>
      match revs r a with
      | inr xs => inr (topo_sort r xs)
      | inl x => inl x
      end
  | RsAncestorOfParents a =>
      match revs r a with
      | inr xs => ancestor_of_parents r xs
      | inl x => inl x
      end
  end.

(** [_getone(repo, revspec, message)] *)
Definition _getone r (revspec : revset) (revspec_text : bytes)
    (message : option bytes) : exn + nat :=
  match revs r revspec with
  | inl x => inl x
  | inr [] =>
      match message with
      | Some m => inl (Abort m)
      | None =>
          inl (Abort ("internal error: empty revset for " ++ [DQUOTE]
                      ++ revspec_text ++ [DQUOTE]))
      end
  | inr [n] => inr n
  | inr (_ :: _ :: _) =>
      match message with
      | Some m => inl (Abort m)
      | None =>
          inl (Abort ("internal error: multiple results in revset for "
                      ++ [DQUOTE] ++ revspec_text ++ [DQUOTE]))
      end
  end.

End Revsets.

(** ** The commands *)

Section Quahog.
Context {Store : Type} {backend : Backend Store}.

Definition ui_warn (text : bytes) : M Store unit :=
  fun r => (mkRepo (changelog r) (dot r) (wfiles r)
                   (ui_out r ++ [Warn text]) (store r), inr tt).

Definition ui_status (text : bytes) : M Store unit :=
  fun r => (mkRepo (changelog r) (dot r) (wfiles r)
                   (ui_out r ++ [Status text]) (store r), inr tt).

Definition set_wfiles (fs : Vfs.files) : M Store unit :=
  fun r => (mkRepo (changelog r) (dot r) fs (ui_out r) (store r), inr tt).

(** [with repo.wvfs(path) as f: f.read()] *)
Definition wvfs_read (path : bytes) : M Store bytes :=
  fun r =>
    match Vfs.lookup (wfiles r) path with
    | Some c => (r, inr c)
    | None => (r, inl (FileNotFoundError path))
    end.

(** [with repo.wvfs(path, b'wb') as f: f.write(content)].  Writing has no
    failure of its own in this model. *)
Definition wvfs_write (path content : bytes) : M Store unit :=
  fun r => set_wfiles (Vfs.write (wfiles r) path content) r.

(** [with repo.wvfs(path, b'ab') as f: f.write(content)] *)
Definition wvfs_append (path content : bytes) : M Store unit :=
  fun r => set_wfiles (Vfs.append (wfiles r) path content) r.

(** [repo.wvfs.unlinkpath(path)] *)
Definition wvfs_unlinkpath (path : bytes) : M Store unit :=
  fun r =>
    if Vfs.isfile (wfiles r) path
    then set_wfiles (Vfs.unlink (wfiles r) path) r
    else (r, inl (FileNotFoundError path)).

(** [with repo.wlock(), repo.lock(), repo.transaction(name): body] *)
Definition with_transaction {A} (name : bytes) (body : M Store A) : M Store A :=
  transaction_enter name ;;
  fun r =>
    match body r with
    | (r', inr a) =>
        match transaction_close r' with
        | (r'', inr _) => (r'', inr a)
        | (r'', inl e) => (r'', inl e)
        end
    | (r', inl e) =>
        match transaction_abort r' with
        | (r'', inr _) => (r'', inl e)
        | (r'', inl e') => (r'', inl e')
        end
    end.

(** [assert x] for an optional node *)
Definition assert_some {A} (x : option A) : M Store A :=
  match x with
  | Some a => ret a
  | None => raise AssertionError
  end.

(** Decimal digits, for [%d]. *)
Fixpoint digits (d : Decimal.uint) : bytes :=
  match d with
  | Decimal.Nil => []
  | Decimal.D0 d' => "0" ++ digits d'
  | Decimal.D1 d' => "1" ++ digits d'
  | Decimal.D2 d' => "2" ++ digits d'
  | Decimal.D3 d' => "3" ++ digits d'
  | Decimal.D4 d' => "4" ++ digits d'
  | Decimal.D5 d' => "5" ++ digits d'
  | Decimal.D6 d' => "6" ++ digits d'
  | Decimal.D7 d' => "7" ++ digits d'
  | Decimal.D8 d' => "8" ++ digits d'
  | Decimal.D9 d' => "9" ++ digits d'
  end.

Definition decimal (n : nat) : bytes := digits (Nat.to_uint n).

(** [a <= b] on sets, with lists used as sets. *)
Definition subset_b (a b : list bytes) : bool :=
  forallb (fun x => existsb (Py.bytes_eqb x) b) a.

(** [a < b] on sets *)
Definition proper_subset_b (a b : list bytes) : bool :=
  subset_b a b && negb (subset_b b a).

(** [_ensurenarrowspec(ui, repo, rootpath)] *)
Definition _ensurenarrowspec (rootpath : bytes) : M Store unit :=
  with_transaction "expandnarrowspec"
    (r <- gets (fun r => r) ;;
     let '(includes, excludes) := narrowpats r in
     let adds := map (fun d => "rootfilesin:" ++ d) (wvfs_walk r rootpath) in
     if proper_subset_b adds includes then ret tt
     else
       ui_status ("tracking paths for " ++ [DQUOTE] ++ rootpath
                  ++ [DQUOTE] ++ [LF]) ;;
       setnarrowpats (includes ++ adds) excludes ;;
       narrowspec_updateworkingcopy ;;
       narrowspec_copytoworkingcopy).

(** [_trackedroot(ui, repo, root)] *)
Definition _trackedroot (root : bytes) : M Store bytes :=
  rootpath <- query (fun r =>
                canonpath r (match root with [] => "." | _ => root end)) ;;
  (match root with
   | [] => ui_status ("inferring --root as " ++ [DQUOTE] ++ rootpath
                      ++ [DQUOTE] ++ [LF])
   | _ => ret tt
   end) ;;
  isdir <- gets (fun r => wvfs_isdir r rootpath) ;;
  if negb isdir then raise (Abort (rootpath ++ ": directory not found"))
  else
    haspatches <- gets (fun r =>
                    wvfs_isdir r (Py.reljoin rootpath ["patches"])) ;;
    if negb haspatches then
      raise (Abort (rootpath ++ ": does not contain patches/ subdirectory"))
    else
      _ensurenarrowspec rootpath ;;
      (if has_reporting_record_meta
       then reporting_record_meta "quahog.root" rootpath
       else ret tt) ;;
      ret rootpath.

(** [rootpath[rootpath.index(b'/') + 1:]]; [ValueError] without a [/]. *)
Fixpoint after_first_slash (s : bytes) : option bytes :=
  match s with
  | [] => None
  | c :: t => if Byte.eqb c "/" then Some t else after_first_slash t
  end.

Definition quahog_message (rootpath : bytes) : M Store bytes :=
  match after_first_slash rootpath with
  | Some g3relpath => ret ("#QUAHOG Modify patches for " ++ g3relpath ++ ".")
  | None => raise ValueError
  end.

(** [repo.invalidatecaches(); status = repo.status(unknown=True);
    repo[None].forget(status.deleted); repo[None].add(status.unknown)] *)
Definition refresh_tracking : M Store unit :=
  repo_invalidatecaches ;;
  st <- gets repo_status ;;
  wctx_forget (fst st) ;;
  wctx_add (snd st).

(** [if origctx.rev() not in repo: ...; merge.update(origctx)] *)
Definition restore_checkout (origctx : ctx) : M Store unit :=
  present <- gets (fun r => ctx_in_repo r origctx) ;;
  origctx' <-
    (if present then ret origctx
     else
       successors <- gets (fun r =>
                       obsutil_successorssets r (hex r origctx)) ;;
       match successors with
       | (n :: _) :: _ => c <- query (fun r => ctx_of_node r n) ;; ret (Some c)
       | _ => raise IndexError
       end) ;;
  merge_update origctx'.

(** *** [qu-pop] *)

Record PopOpts := mkPopOpts {
  pop_root : bytes;
  pop_from : bytes;
  pop_count : Z;
  pop_all : bool;
  pop_rebase : bytes
}.

(** The series entries in use: [[p for p in patches if p and not
    p.startswith(b'#')]] *)
Definition active_line (p : bytes) : bool :=
  match p with [] => false | _ :: _ => negb (Py.startswith "#" p) end.

Definition series_patches (origseries : bytes) : list bytes :=
  filter active_line (Py.splitlines false origseries).

(** [b'\n'.join(patches[:-i-1]) + b'\n'] *)
Definition series_without_last (patches : list bytes) (i : nat) : bytes :=
  Py.join [LF] (Py.drop_last_n (i + 1) patches) ++ [LF].

(** The walk from the checkout to the base:
    [while fromctx.phase() != phases.public and not
     _isquahogchange(fromctx): fromctx = fromctx.p1()].
    A parent precedes its child in the changelog, so the walk needs no
    more steps than there are revisions. *)
Fixpoint pop_walk_up (fuel : nat) (r : Repo Store) (fromctx : ctx) : ctx :=
  match fuel with
  | O => fromctx
  | S fuel' =>
      if negb (phase_eqb (phase r fromctx) Public)
         && negb (_isquahogchange (description r fromctx))
      then pop_walk_up fuel' r (p1 r fromctx)
      else fromctx
  end.

(** Lines 531-546: the base and [createnew]. *)
Definition pop_base (from : bytes) : M Store (ctx * bool) :=
  match from with
  | _ :: _ =>
      fromrev <- query (fun r =>
                   _getone r (RsUser from) from
                     (Some "--from must specify exactly one rev")) ;;
      r <- gets (fun r => r) ;;
      if negb (_isquahogchange (description r (Some fromrev)))
      then raise (Abort (_reverr r (Some fromrev) "not a quahog changset"))
      else ret (Some fromrev, false)
  | [] =>
      r <- gets (fun r => r) ;;
      let fromctx := pop_walk_up (S (length (changelog r))) r (dot r) in
      if negb (_isquahogchange (description r fromctx)) then
        ui_warn ("no quahog changeset found in ancestors; creating one"
                 ++ [LF]) ;;
        ret (dot r, true)
      else ret (fromctx, false)
  end.

(** Lines 548-552: the argument of [repo.revs]. *)
Definition pop_rebase_revset (rebase : bytes) (createnew : bool) : revset :=
  match rebase with
  | _ :: _ => RsUser rebase
  | [] =>
      if createnew then RsNone
      else RsChildren (RsAnd RsDot RsNotPublic)
  end.

Definition pop_rebaserevs (r : Repo Store) (rebase : bytes)
    (createnew : bool) : exn + list nat :=
  revs r (pop_rebase_revset rebase createnew).

Definition git_apply_reverse (rootpath : bytes) : list bytes :=
  ["git"; "apply"; "--reverse"; "--directory"; rootpath; "-"].

Definition git_apply (rootpath : bytes) : list bytes :=
  ["git"; "apply"; "--directory"; rootpath; "-"].

(** [_canonicalizepatchcontent(patchcontent, rootpath)] as a call of the
    command: the function above when [rootpath] stands for itself in the
    pattern; for a root path with a metacharacter the answer of [re], or
    its error, comes from the backend. *)
Definition canonicalize (patchcontent rootpath : bytes) : M Store bytes :=
  if re_plain rootpath then ret (_canonicalizepatchcontent patchcontent rootpath)
  else query (fun _ => re_sub_abspath rootpath patchcontent).

(** Lines 569-590: one turn of the first loop of [pop]; returns the entry
    appended to [patchinfos]. *)
Definition pop_unapply (rootpath seriespath : bytes) (patches : list bytes)
    (i : nat) (patchtopop : bytes) : M Store (bytes * bytes * bytes) :=
  wvfs_write seriespath (series_without_last patches i) ;;
  let patchpath := Py.reljoin rootpath ["patches"; patchtopop] in
  patchcontent <- wvfs_read patchpath ;;
  let '(patchcontent, patchdesc) := _separatepatchdescription patchcontent in
  patchcontent <- canonicalize patchcontent rootpath ;;
  wctx_forget [patchpath] ;;
  wvfs_unlinkpath patchpath ;;
  try_called_process_error
    (subprocess_run (git_apply_reverse rootpath) patchcontent)
    (fun cmd stderr =>
       ui_warn ("command failed for " ++ py_repr patchpath ++ ": "
                ++ py_repr_list cmd ++ [LF]) ;;
       ui_warn stderr ;;
       raise (Abort "failed to reverse patch")) ;;
  ret (patchtopop, patchcontent, patchdesc).

(** [b'DO %s SUBMIT [PATCH] %s' % (b'NOT', patchtopop)], then the
    description after a blank line when there is one. *)
Definition pop_patchmessage (patchtopop patchdesc : bytes) : bytes :=
  let patchmessage := "DO " ++ "NOT" ++ " SUBMIT [PATCH] " ++ patchtopop in
  match patchdesc with
  | [] => patchmessage
  | _ :: _ => patchmessage ++ [LF; LF] ++ patchdesc
  end.

(** Lines 610-633: one turn of the second loop of [pop]; returns [leaf]. *)
Definition pop_reapply (rootpath : bytes) (info : bytes * bytes * bytes)
    : M Store bytes :=
  let '(patchtopop, patchcontent, patchdesc) := info in
  ui_status ("popping patch " ++ [DQUOTE] ++ patchtopop ++ [DQUOTE]
             ++ [LF]) ;;
  try_called_process_error
    (subprocess_run (git_apply rootpath) patchcontent)
    (fun cmd stderr =>
       ui_warn ("command failed: " ++ py_repr_list cmd ++ [LF]) ;;
       ui_warn stderr ;;
       raise (Abort (patchtopop ++ ": failed to apply patch"))) ;;
  refresh_tracking ;;
  leaf <- cmdutil_commit false (pop_patchmessage patchtopop patchdesc) ;;
  assert_some leaf.

(** Lines 567-643: the body of the [try]. *)
Definition pop_try (rootpath seriespath : bytes) (patches : list bytes)
    (patchestopop : nat) (createnew : bool) (fromctx origctx : ctx)
    (rebaserevs : list nat) : M Store unit :=
  patchinfos <-
    fold_m (fun patchinfos '(i, patchtopop) =>
              info <- pop_unapply rootpath seriespath patches i patchtopop ;;
              ret (patchinfos ++ [info]))
           (combine (seq 0 patchestopop) (rev patches)) [] ;;
  refresh_tracking ;;
  (if createnew then
     message <- quahog_message rootpath ;;
     newbase <- cmdutil_commit false message ;;
     assert_some newbase ;; ret tt
   else
     check (fun r => rewriteutil_precheck r
                       match fromctx with Some n => [n] | None => [] end
                       "amend") ;;
     cmdutil_amend fromctx ;; ret tt) ;;
  leaf <-
    fold_m (fun _ info => l <- pop_reapply rootpath info ;; ret (Some l))
           (rev patchinfos) None ;;
  (match rebaserevs with
   | [] => ret tt
   | _ :: _ =>
       match leaf with
       | None => raise UnboundLocalError
       | Some leaf =>
           r <- gets (fun r => r) ;;
           dest <- query (fun r =>
                     match ctx_of_node r leaf with
                     | inr n => inr (hex r (Some n))
                     | inl x => inl x
                     end) ;;
           rebase_rebase (map (fun c => hex r (Some c)) rebaserevs) dest
       end
   end) ;;
  restore_checkout origctx.

(** What lines 528-565 establish before the [try] block. *)
Record PopPlan := mkPopPlan {
  plan_seriespath : bytes;
  plan_origseries : bytes;
  plan_patches : list bytes;
  plan_patchestopop : nat;
  plan_createnew : bool;
  plan_fromctx : ctx;
  plan_origctx : ctx;
  plan_rebaserevs : list nat
}.

(** Lines 528-565: up to the [try] block; [None] is the early [return]
    after the warning [no patches to pop]. *)
Definition pop_setup (opts : PopOpts) (rootpath : bytes)
    : M Store (option PopPlan) :=
  check cmdutil_bailifchanged ;;
  check cmdutil_checkunfinished ;;
  origctx <- gets (fun r => dot r) ;;
  '(fromctx, createnew) <- pop_base (pop_from opts) ;;
  merge_update fromctx ;;
  rebaserevs <- query (fun r => pop_rebaserevs r (pop_rebase opts) createnew) ;;
  let seriespath := Py.reljoin rootpath ["patches"; "series"] in
  isfile <- gets (fun r => Vfs.isfile (wfiles r) seriespath) ;;
  if negb isfile then raise (Abort (seriespath ++ ": no such file"))
  else
    origseries <- wvfs_read seriespath ;;
    let patches := series_patches origseries in
    let patchestopop :=
      if pop_all opts then length patches else Z.to_nat (pop_count opts) in
    if pop_all opts && Nat.ltb patchestopop 1 then
      ui_warn ("no patches to pop" ++ [LF]) ;; ret None
    else
      ui_status ("popping " ++ decimal patchestopop ++ " patch"
                 ++ (if Nat.ltb 1 patchestopop then "es" else [])
                 ++ " from " ++ [DQUOTE] ++ rootpath ++ [DQUOTE] ++ [LF]) ;;
      ret (Some (mkPopPlan seriespath origseries patches patchestopop
                           createnew fromctx origctx rebaserevs)).

(** Lines 566-647: the [try] block and its handler,
    [except: write origseries to the series file; raise]. *)
Definition pop_guarded (rootpath : bytes) (p : PopPlan) : M Store unit :=
  try_finally_reraise
    (pop_try rootpath (plan_seriespath p) (plan_patches p)
             (plan_patchestopop p) (plan_createnew p) (plan_fromctx p)
             (plan_origctx p) (plan_rebaserevs p))
    (wvfs_write (plan_seriespath p) (plan_origseries p)).

(** Lines 528-647: the body of the [with] block of [pop]. *)
Definition pop_locked (opts : PopOpts) (rootpath : bytes) : M Store unit :=
  plan <- pop_setup opts rootpath ;;
  match plan with
  | None => ret tt
  | Some p => pop_guarded rootpath p
  end.

(** [pop(ui, repo, **opts)] *)
Definition pop (opts : PopOpts) : M Store unit :=
  rootpath <- _trackedroot (pop_root opts) ;;
  if (pop_count opts <? 1)%Z then ui_warn ("no pops requested" ++ [LF])
  else with_transaction "qu-pop" (pop_locked opts rootpath).

(** *** [qu-fold] *)

Record FoldOpts := mkFoldOpts {
  fold_root : bytes;
  fold_to : bytes;
  fold_count : Z;
  fold_all : bool;
  fold_rev : bytes
}.

Definition nonempty (b : bytes) : bool :=
  match b with [] => false | _ :: _ => true end.

(** The loop of [_islinear] over [reversed(list(revs))]. *)
Fixpoint islinear_loop (r : Repo Store) (lastctx : option ctx)
    (revs : list nat) : bool :=
  match revs with
  | [] => true
  | rev :: rest =>
      let c := Some rev in
      match lastctx with
      | Some l =>
          if negb (existsb (ctx_eqb l) (parents r c)) then false
          else islinear_loop r (Some c) rest
      | None => islinear_loop r (Some c) rest
      end
  end.

(** [_islinear(repo, revspec)] *)
Definition _islinear (r : Repo Store) (revspec : bytes) : exn + bool :=
  match revs r (RsSortTopo (RsUser revspec)) with
  | inl x => inl x
  | inr l => inr (islinear_loop r None (rev l))
  end.

(** [_isquahogpatch(ctx)] as a step that raises [IndexError]. *)
Definition isquahogpatch_ctx (r : Repo Store) (c : ctx) : exn + bool :=
  match _isquahogpatch (description r c) with
  | Some b => inr b
  | None => inl IndexError
  end.

(** Lines 343-348: the walk from the checkout to the target. *)
Fixpoint fold_walk_up (fuel : nat) (r : Repo Store) (toctx : ctx)
    : exn + ctx :=
  match fuel with
  | O => inr toctx
  | S fuel' =>
      match isquahogpatch_ctx r toctx with
      | inl x => inl x
      | inr ispatch =>
          if ispatch
             && negb (phase_eqb (phase r toctx) Public
                      || _isquahogchange (description r toctx))
          then
            if Nat.ltb 1 (length (parents r toctx))
            then inl (Abort (_reverr r toctx "multiple parents"))
            else fold_walk_up fuel' r (p1 r toctx)
          else inr toctx
      end
  end.

(** Lines 336-341 and 349-354: reuse the changeset found or plan a new
    one. *)
Definition fold_createnew (toctx : ctx) : M Store bool :=
  r <- gets (fun r => r) ;;
  if negb (_isquahogchange (description r toctx)) then
    ui_warn ("no quahog changeset found in ancestors; creating one"
             ++ [LF]) ;;
    ret true
  else if phase_eqb (phase r toctx) Public then
    ui_warn ("immutable quahog changeset found; creating new one"
             ++ [LF]) ;;
    ret true
  else ret false.

(** Lines 319-354: the target changeset and [createnew]. *)
Definition fold_target (torevset foldrevset : bytes) : M Store (ctx * bool) :=
  r <- gets (fun r => r) ;;
  if nonempty torevset then
    torev <- query (fun r =>
               _getone r (RsUser torevset) torevset
                 (Some "--to must specify exactly one rev")) ;;
    let toctx := Some torev in
    if negb (_isquahogchange (description r toctx)) then
      raise (Abort (_reverr r toctx "not a quahog changeset"))
    else if phase_eqb (phase r toctx) Public then
      raise (Abort (_reverr r toctx "immutable quahog changeset"))
    else if nonempty foldrevset then
      ancestorrev <- query (fun r =>
                       _getone r (RsAncestorOfParents (RsUser foldrevset))
                         ("ancestor((" ++ foldrevset ++ ")^)") None) ;;
      if negb (Nat.eqb ancestorrev torev) then
        raise (Abort (_reverr r toctx "--to must be parent of --rev"))
      else ret (toctx, false)
    else ret (toctx, false)
  else if nonempty foldrevset then
    torev <- query (fun r =>
               _getone r (RsAncestorOfParents (RsUser foldrevset))
                 ("ancestor((" ++ foldrevset ++ ")^)") None) ;;
    let toctx := Some torev in
    ispatch <- query (fun r => isquahogpatch_ctx r toctx) ;;
    if ispatch then
      raise (Abort (_reverr r toctx "--rev parent cannot be a patch"))
    else
      createnew <- fold_createnew toctx ;;
      ret (toctx, createnew)
  else
    toctx <- query (fun r =>
               fold_walk_up (S (length (changelog r))) r (dot r)) ;;
    createnew <- fold_createnew toctx ;;
    ret (toctx, createnew).

(** [[ctx for ctx in patchctx.children() if _isquahogpatch(ctx)]] *)
Fixpoint filter_patches (r : Repo Store) (cs : list nat) : exn + list nat :=
  match cs with
  | [] => inr []
  | n :: rest =>
      match isquahogpatch_ctx r (Some n) with
      | inl x => inl x
      | inr b =>
          match filter_patches r rest with
          | inl x => inl x
          | inr l => inr (if b then n :: l else l)
          end
      end
  end.

Definition patch_children (r : Repo Store) (c : ctx) : exn + list nat :=
  filter_patches r (children r c).

(** Lines 364-375: the walk down the chain.
    [while foldall or len(patchrevs) != foldcount: ...].
    [None] only when [fuel] runs out; every step moves to a later
    revision, so [S (length changelog)] turns are enough. *)
Fixpoint fold_walk (fuel : nat) (r : Repo Store) (foldall : bool)
    (foldcount : Z) (patchctx : ctx) (patchrevs : list nat)
    : option (exn + list nat) :=
  match fuel with
  | O => None
  | S fuel' =>
      if foldall || negb (Z.of_nat (length patchrevs) =? foldcount)%Z then
        match patch_children r patchctx with
        | inl x => Some (inl x)
        | inr patches =>
            if Nat.ltb 1 (length patches) then
              Some (inl (Abort (_reverr r patchctx
                           "ambiguous chain: multiple patch children")))
            else
              match patches with
              | [] => Some (inr patchrevs)
              | p :: _ =>
                  fold_walk fuel' r foldall foldcount (Some p)
                            (patchrevs ++ [p])
              end
        end
      else Some (inr patchrevs)
  end.

Definition fold_chain (r : Repo Store) (foldall : bool) (foldcount : Z)
    (toctx : ctx) : option (exn + list nat) :=
  fold_walk (S (length (changelog r))) r foldall foldcount toctx [].

(** Lines 357-362: the checks on the revisions given with [--rev]. *)
Fixpoint fold_check_revs (r : Repo Store) (patchrevs : list nat)
    : option exn :=
  match patchrevs with
  | [] => None
  | patchrev :: rest =>
      let patchctx := Some patchrev in
      match isquahogpatch_ctx r patchctx with
      | inl x => Some x
      | inr false =>
          Some (Abort (_reverr r patchctx "must be quahog patch to fold"))
      | inr true =>
          if phase_eqb (phase r patchctx) Public then
            Some (Abort (_reverr r patchctx "cannot fold immutable patch"))
          else fold_check_revs r rest
      end
  end.

(** Lines 355-375: [patchrevs]. *)
Definition fold_patchrevs (r : Repo Store) (foldrevset : bytes)
    (foldall : bool) (foldcount : Z) (toctx : ctx) : exn + list nat :=
  if nonempty foldrevset then
    match revs r (RsUser foldrevset) with
    | inl x => inl x
    | inr patchrevs =>
        match fold_check_revs r patchrevs with
        | Some x => inl x
        | None => inr patchrevs
        end
    end
  else
    match fold_chain r foldall foldcount toctx with
    | Some res => res
    | None => inl (BackendError "changelog")
    end.

(** Lines 383-390 on the first line of the description: the name as
    captured and the name of the patch file. *)
Definition fold_patchname (line : bytes) : option (bytes * bytes) :=
  match PATCHDESC_fullmatch line with
  | None => None
  | Some m =>
      let patchname :=
        Py.strip (match Re.group 2 m with Some g => g | None => [] end) in
      let origpatchname := patchname in
      let patchname :=
        if Py.contains " " patchname
        then Re.sub false (Re.Plus (Byte.eqb SP)) [Re.RText "-"] patchname
        else patchname in
      Some (origpatchname, patchname)
  end.

(** [patches[patchname] = content] on an insertion-ordered dict. *)
Fixpoint dict_set (d : list (bytes * bytes)) (k v : bytes)
    : list (bytes * bytes) :=
  match d with
  | [] => [(k, v)]
  | (k', v') :: d' =>
      if Py.bytes_eqb k' k then (k', v) :: d' else (k', v') :: dict_set d' k v
  end.

(** Lines 382-411: one turn of the loop that builds [patches]. *)
Definition fold_patch_entry (rootpath : bytes)
    (patches : list (bytes * bytes)) (rev : nat)
    : M Store (list (bytes * bytes)) :=
  r <- gets (fun r => r) ;;
  let desc := description r (Some rev) in
  match first_line desc with
  | None => raise IndexError
  | Some line =>
      match fold_patchname line with
      | None => raise AssertionError
      | Some (origpatchname, patchname) =>
          (if negb (Py.bytes_eqb patchname origpatchname) then
             ui_warn ("rewriting patch " ++ [DQUOTE] ++ origpatchname
                      ++ [DQUOTE] ++ " to " ++ [DQUOTE] ++ patchname
                      ++ [DQUOTE] ++ [LF])
           else ret tt) ;;
          let patchdesc :=
            Py.strip (Py.join [LF] (tl (Py.splitlines false desc))) in
          diff <- query (fun r =>
                    patch_diff r (p1 r (Some rev)) (Some rev) rootpath) ;;
          let patchdiff := _hgdifftopatch diff rootpath in
          ret (dict_set patches patchname
                 (if nonempty patchdesc
                  then patchdesc ++ [LF; LF] ++ patchdiff
                  else patchdiff))
      end
  end.

(** [_supersededsuccessorrev(repo, rev)] *)
Definition _supersededsuccessorrev (rev : nat) : M Store nat :=
  r <- gets (fun r => r) ;;
  match obsutil_successorssets r (hex r (Some rev)) with
  | [[newnode]] => query (fun r => ctx_of_node r newnode)
  | _ => raise AssertionError
  end.

Fixpoint insert_sorted (n : nat) (l : list nat) : list nat :=
  match l with
  | [] => [n]
  | m :: l' => if Nat.leb n m then n :: l else m :: insert_sorted n l'
  end.

(** [revs.sort()] *)
Definition sort_revs (l : list nat) : list nat :=
  fold_right insert_sorted [] l.

(** [_fold_changesets(txn, repo, revs)] *)
Definition _fold_changesets (revs : list nat) : M Store bytes :=
  r <- gets (fun r => r) ;;
  match revs with
  | [] => raise IndexError
  | rev0 :: _ =>
      let message := description r (Some rev0) in
      let revs := sort_revs revs in
      '(root, head, p2) <- query (fun r => evolve_foldcheck r revs) ;;
      r <- gets (fun r => r) ;;
      let allctx := map (fun n => hex r (Some n)) revs in
      newid <- evolve_rewrite root head
                 [hex r (p1 r root); hex r p2] message ;;
      phases_retractboundary [newid] ;;
      scmutil_cleanupnodes [(allctx, [newid])] ;;
      ret newid
  end.

(** [a + b + ...] over nodes *)
Fixpoint rs_union (hs : list bytes) : revset :=
  match hs with
  | [] => RsNone
  | [h] => RsHex h
  | h :: rest => RsOr (RsHex h) (rs_union rest)
  end.

(** Lines 416-437: create the base changeset and move the patches onto
    it; returns the new [toctx], [patchrevs] and [childrevs]. *)
Definition fold_newbase (rootpath : bytes) (toctx : ctx)
    (patchrevs childrevs : list nat) : M Store (ctx * list nat * list nat) :=
  ui_status ("creating quahog changeset" ++ [LF]) ;;
  merge_update toctx ;;
  message <- quahog_message rootpath ;;
  newbase <- cmdutil_commit true message ;;
  newbase <- assert_some newbase ;;
  torev <- query (fun r => ctx_of_node r newbase) ;;
  ui_status ("rebasing patches to quahog changeset" ++ [LF]) ;;
  r <- gets (fun r => r) ;;
  rebase_rebase (map (fun n => hex r (Some n)) patchrevs)
                (hex r (Some torev)) ;;
  patchrevs <- map_m _supersededsuccessorrev patchrevs ;;
  childrevs <- map_m _supersededsuccessorrev childrevs ;;
  ret (Some torev, patchrevs, childrevs).

(** Lines 379-473: what [fold] does once there are patches to fold. *)
Definition fold_apply (rootpath seriespath : bytes) (createnew : bool)
    (toctx origctx : ctx) (patchrevs : list nat) : M Store unit :=
  ui_status ("folding " ++ decimal (length patchrevs) ++ " patch"
             ++ (if Nat.ltb 1 (length patchrevs) then "es" else [])
             ++ " into " ++ [DQUOTE] ++ rootpath ++ [DQUOTE] ++ [LF]) ;;
  patches <- fold_m (fold_patch_entry rootpath) patchrevs [] ;;
  childrevs <- query (fun r =>
                 revs r (RsAnd (RsChildren
                                  (rs_union (map (fun n => hex r (Some n))
                                                 patchrevs)))
                               RsNotPublic)) ;;
  let childrevs := filter (fun n => negb (mem n patchrevs)) childrevs in
  '(toctx, patchrevs, childrevs) <-
    (if createnew then fold_newbase rootpath toctx patchrevs childrevs
     else ret (toctx, patchrevs, childrevs)) ;;
  newrev <- _fold_changesets
              (match toctx with Some n => [n] | None => [] end ++ patchrevs) ;;
  newctx <- query (fun r => ctx_of_node r newrev) ;;
  merge_update (Some newctx) ;;
  for_each patches
    (fun '(fname, content) =>
       let patchpath := Py.reljoin rootpath ["patches"; fname] in
       ui_status ("folding patch " ++ [DQUOTE] ++ fname ++ [DQUOTE]
                  ++ [LF]) ;;
       wvfs_write patchpath content) ;;
  wctx_add (map (fun '(fname, _) => Py.reljoin rootpath ["patches"; fname])
                patches) ;;
  wvfs_append seriespath (Py.join [LF] (map fst patches) ++ [LF]) ;;
  check (fun r => rewriteutil_precheck r [newctx] "amend") ;;
  newnode <- cmdutil_amend (Some newctx) ;;
  (match childrevs with
   | [] => ret tt
   | _ :: _ =>
       r <- gets (fun r => r) ;;
       rebase_rebase (map (fun c => hex r (Some c)) childrevs) newnode
   end) ;;
  restore_checkout origctx.

(** What lines 311-375 resolve before anything is changed. *)
Record FoldPlan := mkFoldPlan {
  fplan_seriespath : bytes;
  fplan_origctx : ctx;
  fplan_toctx : ctx;
  fplan_createnew : bool;
  fplan_patchrevs : list nat
}.

(** Lines 311-375: the checks, the target and the chain. *)
Definition fold_resolve (rootpath torevset foldrevset : bytes)
    (foldall : bool) (foldcount : Z) : M Store FoldPlan :=
  check cmdutil_bailifchanged ;;
  check cmdutil_checkunfinished ;;
  let seriespath := Py.reljoin rootpath ["patches"; "series"] in
  isfile <- gets (fun r => Vfs.isfile (wfiles r) seriespath) ;;
  if negb isfile then raise (Abort (seriespath ++ ": no such file"))
  else
    linear <- (if nonempty foldrevset
               then query (fun r => _islinear r foldrevset)
               else ret true) ;;
    if negb linear then raise (Abort "--rev patches must be linear")
    else
      origctx <- gets (fun r => dot r) ;;
      '(toctx, createnew) <- fold_target torevset foldrevset ;;
      patchrevs <- query (fun r =>
                     fold_patchrevs r foldrevset foldall foldcount toctx) ;;
      ret (mkFoldPlan seriespath origctx toctx createnew patchrevs).

(** Lines 311-473: the body of the [with] block of [fold]. *)
Definition fold_locked (rootpath torevset foldrevset : bytes)
    (foldall : bool) (foldcount : Z) : M Store unit :=
  p <- fold_resolve rootpath torevset foldrevset foldall foldcount ;;
  match fplan_patchrevs p with
  | [] => ui_warn ("no patches to fold" ++ [LF])
  | _ :: _ =>
      fold_apply rootpath (fplan_seriespath p) (fplan_createnew p)
                 (fplan_toctx p) (fplan_origctx p) (fplan_patchrevs p)
  end.

(** [fold(ui, repo, **opts)] *)
Definition fold (opts : FoldOpts) : M Store unit :=
  rootpath <- _trackedroot (fold_root opts) ;;
  let torevset := fold_to opts in
  let foldrevset := fold_rev opts in
  let foldall := fold_all opts in
  let foldcount := fold_count opts in
  if (foldcount <? 0)%Z then ui_warn ("--count must be positive" ++ [LF])
  else
    let foldcount :=
      if negb (nonempty foldrevset || foldall || negb (foldcount =? 0)%Z)
      then 1%Z else foldcount in
    if nonempty foldrevset && foldall then
      raise (Abort "cannot provide both --rev and --all")
    else if nonempty foldrevset && negb (foldcount =? 0)%Z then
      raise (Abort "cannot provide both --rev and --count")
    else
      with_transaction "qu-fold"
        (fold_locked rootpath torevset foldrevset foldall foldcount).

End Quahog.

(** ** Definitions that follow the words of the specification *)

(** "Every run of [p]-bytes is replaced by a single hyphen": a byte of the
    class opens a run with a hyphen and the rest of the run is dropped. *)
Fixpoint hyphenate_runs (p : byte -> bool) (in_run : bool) (s : bytes)
    : bytes :=
  match s with
  | [] => []
  | c :: t =>
      if p c then
        if in_run then hyphenate_runs p true t
        else "-" ++ hyphenate_runs p true t
      else c :: hyphenate_runs p false t
  end.

(** The four markers the specification lists as starting a diff. *)
Definition spec_diff_markers : list bytes :=
  ["--- "; "diff --git"; "rename from"; "Index: "].

(** "Description text containing no line beginning with a diff-start
    marker". *)
Definition free_of_markers (description : bytes) : Prop :=
  Forall (fun line => Py.startswith_any spec_diff_markers line = false)
         (Py.splitlines true description).

(** The description as [_separatepatchdescription] gives it back: every
    line right-trimmed, the lines joined by a line feed, the whole
    right-trimmed. *)
Definition trimmed_lines (description : bytes) : bytes :=
  Py.rstrip (Py.join [LF] (map Py.rstrip (Py.splitlines true description))).


(** Some position of [content] matches the pattern of
    [_canonicalizepatchcontent]. *)
Fixpoint header_match_from (rootpath : bytes) (pos : nat) (content : bytes)
    : bool :=
  match Re.match_at false (abspathpattern rootpath) pos content with
  | Some _ => true
  | None =>
      match content with
      | [] => false
      | _ :: t => header_match_from rootpath (S pos) t
      end
  end.

Definition has_header_match (rootpath content : bytes) : bool :=
  header_match_from rootpath 0 content.

(** ** Predicates used in the statements *)

(** No carriage return and no line feed in [s]. *)
Definition no_crlf (s : bytes) : Prop := Forall (fun b => not_crlf b = true) s.

(** [pre] is the literal [lit], up to ASCII case when [ic] is set. *)
Fixpoint lit_agrees (ic : bool) (lit pre : bytes) : bool :=
  match lit, pre with
  | [], [] => true
  | x :: lit', y :: pre' => Re.byte_eq ic x y && lit_agrees ic lit' pre'
  | _, _ => false
  end.









(** How the lines of a text change when a line feed is appended to it:
    a line [\n] is added, or the last line gets its terminator. *)
Definition lines_with_lf (xs ys : list bytes) : Prop :=
  ys = xs ++ [[LF]]
  \/ exists init l, xs = init ++ [l] /\ ys = init ++ [l ++ [LF]].

(** The description block of [_separatepatchdescription] for given lines. *)
Definition norm_lines (ls : list bytes) : bytes :=
  Py.rstrip (Py.join [LF] (map Py.rstrip ls)).

(** The scan of [_canonicalizepatchcontent], resumed at position [pos]
    on what is left of the content. *)
Definition canon_from (rootpath : bytes) (pos : nat) (s : bytes) : bytes :=
  Re.sub_from false (abspathpattern rootpath)
    [Re.RRef 1; Re.RRef 2; Re.RRef 3; Re.RRef 4] pos s 0.

(** [---] or [+++] *)
Definition is_header (hdr : bytes) : Prop := hdr = "---" \/ hdr = "+++".

Definition nonspace (s : bytes) : Prop :=
  Forall (fun b => Py.isspace b = false) s.

(** A directory prefix as the pattern takes it: nothing, or bytes other
    than whitespace followed by a slash. *)
Definition dir_prefix (dir : bytes) : Prop :=
  dir = [] \/ exists d, dir = d ++ "/" /\ nonspace d.

(** The root path at the head of [rootpath ++ rest] is the last one of its
    whitespace-free stretch to stand after a slash: the greedy prefix has
    no later place to end. *)
Definition last_root_occurrence (rootpath rest : bytes) : Prop :=
  forall p q, rootpath ++ rest = p ++ "/" ++ rootpath ++ q -> ~ nonspace p.

(** Nothing but the messages printed differs between two states. *)
Definition same_but_ui {Store} (r r' : Repo Store) : Prop :=
  changelog r' = changelog r /\ dot r' = dot r
  /\ wfiles r' = wfiles r /\ store r' = store r.


(** ** Predicates and loops of the further statements *)

(** [out] is [s] with some occurrences of [rootpath] cut out, one after
    the other from left to right, and nothing else changed. *)
Inductive deletes_root (rootpath : bytes) : bytes -> bytes -> Prop :=
| deletes_nil : deletes_root rootpath [] []
| deletes_keep : forall c s out,
    deletes_root rootpath s out -> deletes_root rootpath (c :: s) (c :: out)
| deletes_cut : forall s out,
    deletes_root rootpath s out -> deletes_root rootpath (rootpath ++ s) out.

(** The lines [PATCHDESC_RE] matches in full, with what group 2 takes:
    [do not submit] and whitespace or nothing, then the tag [[patch]], then
    a [name] of one byte or more without line break; letters in either
    case. *)
Definition patch_line (line name : bytes) : Prop :=
  exists pre tag,
    line = pre ++ tag ++ name
    /\ lit_agrees true "[patch]" tag = true
    /\ name <> []
    /\ no_crlf name
    /\ (pre = []
        \/ exists dns ws,
             pre = dns ++ ws
             /\ lit_agrees true "do not submit" dns = true
             /\ Forall (fun b => Py.isspace b = true) ws).

(** The first parent of a revision has a smaller revision number, as in
    every revlog. *)
Definition parents_precede {Store} (r : Repo Store) : Prop :=
  forall n k p, commit_at r n = Some k -> c_p1 k = Some p -> p < n.

(** Enough turns to get from [c] to the null revision. *)
Definition enough_fuel {Store} (r : Repo Store) (c : ctx) (fuel : nat)
    : Prop :=
  0 < fuel
  /\ forall n, c = Some n -> n < length (changelog r) -> S n < fuel.

(** Where the walk of [fold] stops: not on a patch, or on a patch that is
    public or a Quahog changeset as well. *)
Definition fold_walk_end {Store} (r : Repo Store) (c : ctx) : Prop :=
  exists ispatch,
    isquahogpatch_ctx r c = inr ispatch
    /\ (ispatch = false
        \/ phase r c = Public
        \/ _isquahogchange (description r c) = true).

(** Each revision of the list has the one before it among its parents. *)
Inductive parent_chain {Store} (r : Repo Store) : list nat -> Prop :=
| parent_chain_nil : parent_chain r []
| parent_chain_one : forall a, parent_chain r [a]
| parent_chain_cons : forall a b rest,
    In (Some a) (parents r (Some b)) ->
    parent_chain r (b :: rest) ->
    parent_chain r (a :: b :: rest).

Section PopLoops.
Context {Store : Type} {backend : Backend Store}.


End PopLoops.

(** ** A small backend, to run the commands on concrete repositories *)

Module Toy.

Definition repo := Repo unit.

Definition set_dot (c : ctx) : M unit unit :=
  fun r => (mkRepo (changelog r) c (wfiles r) (ui_out r) (store r), inr tt).

(** A commit on top of the working directory parent. *)
Definition commit (allowempty : bool) (message : bytes)
    : M unit (option bytes) :=
  fun r =>
    let node := "c" ++ decimal (length (changelog r)) in
    (mkRepo (changelog r ++ [mkCommit message (dot r) None Draft node false])
            (Some (length (changelog r))) (wfiles r) (ui_out r) (store r),
     inr (Some node)).

(** [git apply] rejects a patch whose text contains [reject];
    [git apply --reverse] rejects one whose text contains [stale]. *)
Definition run (cmd : list bytes) (input : bytes) : M unit unit :=
  let reverse := existsb (Py.bytes_eqb "--reverse") cmd in
  if Py.contains (if reverse then "stale" else "reject") input
  then raise (CalledProcessError cmd "error: patch failed")
  else ret tt.

(** Revsets of the form of one decimal digit. *)
Definition digit_revs (r : repo) (text : bytes) : exn + list nat :=
  match text with
  | [c] => inr [N.to_nat (Byte.to_N c) - 48]
  | _ => inr []
  end.

(** [rewriteutil.precheck] refuses to rewrite a public changeset. *)
Definition precheck (r : repo) (revs : list nat) (action : bytes)
    : option exn :=
  if existsb (fun n => phase_eqb (phase r (Some n)) Public) revs
  then Some (Abort ("cannot " ++ action ++ " public changesets"))
  else None.

#[global] Instance backend : Backend unit := {|
  canonpath := fun _ root => inr root;
  wvfs_isdir := fun _ _ => true;
  wvfs_walk := fun _ _ => [];
  narrowpats := fun _ => ([], []);
  setnarrowpats := fun _ _ => ret tt;
  narrowspec_updateworkingcopy := ret tt;
  narrowspec_copytoworkingcopy := ret tt;
  has_reporting_record_meta := false;
  reporting_record_meta := fun _ _ => ret tt;
  transaction_enter := fun _ => ret tt;
  transaction_close := ret tt;
  transaction_abort := ret tt;
  cmdutil_bailifchanged := fun _ => None;
  cmdutil_checkunfinished := fun _ => None;
  user_revs := digit_revs;
  topo_sort := fun _ l => l;
  ancestor_of_parents := fun _ _ => inr [];
  patch_diff := fun _ _ _ _ => inr [];
  obsutil_successorssets := fun _ _ => [];
  repo_status := fun _ => ([], []);
  rewriteutil_precheck := precheck;
  merge_update := set_dot;
  cmdutil_commit := commit;
  cmdutil_amend := fun c r => (r, inr (hex r c));
  rebase_rebase := fun _ _ => ret tt;
  wctx_forget := fun _ => ret tt;
  wctx_add := fun _ => ret tt;
  repo_invalidatecaches := ret tt;
  subprocess_run := run;
  evolve_foldcheck := fun _ revs => inr (hd_error revs,
                                         Some (last revs 0), None);
  evolve_rewrite := fun _ _ _ message => c <- commit true message ;;
                                         assert_some c;
  phases_retractboundary := fun _ => ret tt;
  scmutil_cleanupnodes := fun _ => ret tt;
  py_repr := fun b => "b'" ++ b ++ "'";
  py_repr_list := fun l => "[" ++ Py.join ", " l ++ "]";
  re_sub_abspath := fun _ _ => inl (BackendError "re.error")
|}.

(** A public root, a draft Quahog base on it, two patch changesets in a
    line, and a plain draft child of the base. *)
Definition log : list Commit :=
  [ mkCommit "initial import" None None Public "c0" false;
    mkCommit "#QUAHOG Import tp/foo." (Some 0) None Draft "c1" false;
    mkCommit ("DO NOT SUBMIT [PATCH] a.diff") (Some 1) None Draft "c2" false;
    mkCommit ("[PATCH] b  fix.diff" ++ [LF; LF] ++ "Why.")
             (Some 2) None Draft "c3" false;
    mkCommit "unrelated work" (Some 1) None Draft "c4" false ].

Definition a_diff : bytes :=
  "First patch." ++ [LF; LF]
  ++ "--- a/x.c" ++ [LF] ++ "+++ b/x.c" ++ [LF]
  ++ "@@ -1 +1 @@" ++ [LF] ++ "-a" ++ [LF] ++ "+b" ++ [LF].

Definition b_diff : bytes :=
  "--- a/y.c" ++ [LF] ++ "+++ b/y.c" ++ [LF]
  ++ "@@ -1 +1 @@" ++ [LF] ++ "-a" ++ [LF] ++ "+b" ++ [LF].

Definition series : bytes :=
  "# local patches" ++ [LF] ++ "a.diff" ++ [LF] ++ [LF] ++ "b.diff" ++ [LF].

Definition files : Vfs.files :=
  [ ("tp/foo/patches/series", series);
    ("tp/foo/patches/a.diff", a_diff);
    ("tp/foo/patches/b.diff", b_diff) ].



(** The working directory is at the Quahog base. *)
Definition at_base : repo := mkRepo log (Some 1) files [] tt.



(** A base, a patch changeset on it, and two patch changesets on that
    one. *)
Definition forked : repo :=
  mkRepo [ mkCommit "#QUAHOG Import tp/foo." None None Draft "c0" false;
           mkCommit "[PATCH] p.diff" (Some 0) None Draft "c1" false;
           mkCommit "[PATCH] q.diff" (Some 1) None Draft "c2" false;
           mkCommit "[PATCH] r.diff" (Some 1) None Draft "c3" false ]
         (Some 0) files [] tt.


End Toy.

(** * Properties *)

Local Arguments Byte.eqb : simpl never.

(** ** Byte strings *)


Lemma byte_eqb_refl b : Byte.eqb b b = true.
Proof. now apply Byte.byte_dec_lb. Qed.

Lemma byte_eqb_eq a b : Byte.eqb a b = true <-> a = b.
Proof. split; [apply Byte.byte_dec_bl | apply Byte.byte_dec_lb]. Qed.

Lemma byte_eqb_neq a b : Byte.eqb a b = false <-> a <> b.
Proof.
  split; [apply Byte.eqb_false|].
  intro H; destruct (Byte.eqb a b) eqn:E; [|reflexivity].
  now apply byte_eqb_eq in E.
Qed.

Lemma bytes_eqb_eq a : forall b, Py.bytes_eqb a b = true <-> a = b.
Proof.
  induction a as [|x a IH]; intros [|y b]; simpl; split; try congruence; auto.
  - intros [H1 H2]%andb_true_iff. apply byte_eqb_eq in H1. apply IH in H2.
    congruence.
  - intros [= -> ->]. rewrite byte_eqb_refl. now apply IH.
Qed.

Lemma startswith_app p : forall s, Py.startswith p (p ++ s) = true.
Proof. induction p; simpl; intros; [reflexivity|]. now rewrite byte_eqb_refl, IHp. Qed.

Lemma startswith_iff p : forall s, Py.startswith p s = true <-> exists t, s = p ++ t.
Proof.
  induction p as [|x p IH]; intros s; simpl.
  - split; eauto.
  - destruct s as [|y s].
    + split; [discriminate | intros [t H]; discriminate].
    + rewrite andb_true_iff, byte_eqb_eq, IH. split.
      * intros [-> [t ->]]. eauto.
      * intros [t [= -> ->]]. eauto.
Qed.

(** *** Trimming *)
Lemma rstrip_all_space s : Forall (fun b => Py.isspace b = true) s -> Py.rstrip s = [].
Proof.
  induction 1; simpl; [reflexivity|]. now rewrite IHForall, H.
Qed.

Lemma rstrip_app_space s w :
  Forall (fun b => Py.isspace b = true) w -> Py.rstrip (s ++ w) = Py.rstrip s.
Proof.
  intros Hw. induction s as [|c s IH]; simpl.
  - now apply rstrip_all_space.
  - now rewrite IH.
Qed.

Lemma rstrip_app_nonempty s t :
  Py.rstrip t <> [] -> Py.rstrip (s ++ t) = s ++ Py.rstrip t.
Proof.
  intros Ht. induction s as [|c s IH]; simpl; [reflexivity|].
  rewrite IH. destruct (s ++ Py.rstrip t) eqn:E; [|reflexivity].
  apply app_eq_nil in E. tauto.
Qed.

Lemma rstrip_idem s : Py.rstrip (Py.rstrip s) = Py.rstrip s.
Proof.
  induction s as [|c s IH]; simpl; [reflexivity|].
  destruct (Py.rstrip s) as [|d t] eqn:E.
  - destruct (Py.isspace c) eqn:Ec; simpl; [reflexivity|]. now rewrite Ec.
  - change (Py.rstrip (c :: d :: t)) with
      (match Py.rstrip (d :: t) with [] => if Py.isspace c then [] else [c] | t' => c :: t' end).
    now rewrite IH.
Qed.

Lemma strip_cons_space c s : Py.isspace c = true -> Py.strip (c :: s) = Py.strip s.
Proof.
  intros Hc. unfold Py.strip. simpl.
  destruct (Py.rstrip s) eqn:E; rewrite ?Hc; simpl; [reflexivity|].
  now rewrite Hc.
Qed.

(** *** Lines *)
Lemma bytes_ind2 (P : bytes -> Prop) :
  P [] ->
  (forall c t, P t -> (forall c' t', t = c' :: t' -> P t') -> P (c :: t)) ->
  forall s, P s.
Proof.
  intros H0 Hs s.
  enough (P s /\ (forall c' t', s = c' :: t' -> P t')) by tauto.
  induction s as [|c t [IH1 IH2]].
  - split; [exact H0 | discriminate].
  - split; [now apply Hs | now intros c' t' [= -> ->]].
Qed.

Lemma splitlines_cons k c t :
  Py.splitlines k (c :: t) =
    if Byte.eqb c LF then (if k then [LF] else []) :: Py.splitlines k t
    else if Byte.eqb c CR then
      match t with
      | c' :: t' =>
          if Byte.eqb c' LF then (if k then [CR; LF] else []) :: Py.splitlines k t'
          else (if k then [CR] else []) :: Py.splitlines k t
      | [] => [if k then [CR] else []]
      end
    else match Py.splitlines k t with
         | [] => [[c]]
         | l :: ls => (c :: l) :: ls
         end.
Proof. reflexivity. Qed.

Lemma splitlines_nonempty k s : s <> [] -> Py.splitlines k s <> [].
Proof.
  destruct s as [|c t]; [congruence|]. intros _. rewrite splitlines_cons.
  destruct (Byte.eqb c LF); [discriminate|].
  destruct (Byte.eqb c CR).
  - destruct t as [|c' t']; [discriminate|]. destruct (Byte.eqb c' LF); discriminate.
  - destruct (Py.splitlines k t); discriminate.
Qed.

Lemma concat_splitlines s : concat (Py.splitlines true s) = s.
Proof.
  induction s as [|c t IH IH2] using bytes_ind2; [reflexivity|].
  rewrite splitlines_cons.
  destruct (Byte.eqb c LF) eqn:E1.
  { apply byte_eqb_eq in E1. subst. cbn [concat app]. now rewrite IH. }
  destruct (Byte.eqb c CR) eqn:E2.
  { apply byte_eqb_eq in E2. subst. destruct t as [|c' t']; [reflexivity|].
    destruct (Byte.eqb c' LF) eqn:E3.
    - apply byte_eqb_eq in E3. subst. cbn [concat app]. now rewrite (IH2 _ _ eq_refl).
    - cbn [concat app]. now rewrite IH. }
  destruct (Py.splitlines true t) as [|l ls] eqn:E.
  - destruct t; [reflexivity|]. exfalso. now apply (@splitlines_nonempty true (b :: t)).
  - cbn [concat app] in *. now rewrite IH.
Qed.

Lemma not_crlf_iff b : not_crlf b = true <-> b <> CR /\ b <> LF.
Proof.
  unfold not_crlf. rewrite negb_true_iff, orb_false_iff, !byte_eqb_neq. tauto.
Qed.

Lemma splitlines_no_crlf s : Forall no_crlf (Py.splitlines false s).
Proof.
  induction s as [|c t IH IH2] using bytes_ind2; [constructor|].
  rewrite splitlines_cons.
  destruct (Byte.eqb c LF) eqn:E1.
  { constructor; [constructor | assumption]. }
  destruct (Byte.eqb c CR) eqn:E2.
  { destruct t as [|c' t']; [repeat constructor|].
    destruct (Byte.eqb c' LF); constructor; try constructor; eauto. }
  assert (Hc : not_crlf c = true).
  { apply not_crlf_iff. now rewrite <- !byte_eqb_neq. }
  destruct (Py.splitlines false t) as [|l ls].
  - repeat constructor. assumption.
  - inversion IH; subst. constructor; [constructor|]; assumption.
Qed.

(** A text without line break is its own single line. *)
Lemma splitlines_single k s : no_crlf s -> s <> [] -> Py.splitlines k s = [s].
Proof.
  induction 1 as [|c t Hc Ht IH]; [congruence|]. intros _.
  rewrite splitlines_cons. apply not_crlf_iff in Hc as [Hcr Hlf].
  apply byte_eqb_neq in Hcr, Hlf. rewrite Hcr, Hlf.
  destruct t as [|d t]; [reflexivity|]. rewrite IH by discriminate. reflexivity.
Qed.

(** The first line of a text ends at its first line feed. *)
Lemma splitlines_app_lf k a b :
  no_crlf a ->
  Py.splitlines k (a ++ LF :: b) = (a ++ if k then [LF] else []) :: Py.splitlines k b.
Proof.
  induction 1 as [|c t Hc Ht IH]; simpl app.
  - reflexivity.
  - rewrite splitlines_cons. apply not_crlf_iff in Hc as [Hcr Hlf].
    apply byte_eqb_neq in Hcr, Hlf. rewrite Hcr, Hlf, IH. reflexivity.
Qed.

Lemma join_cons sep p q rest :
  Py.join sep (p :: q :: rest) = p ++ sep ++ Py.join sep (q :: rest).
Proof. reflexivity. Qed.

(** Writing names one per line and reading the lines back. *)
Lemma splitlines_join_lf names :
  names <> [] -> Forall no_crlf names ->
  Py.splitlines false (Py.join [LF] names ++ [LF]) = names.
Proof.
  intros Hne H. induction H as [|p rest Hp Hrest IH]; [congruence|].
  destruct rest as [|q rest].
  - simpl Py.join. now rewrite splitlines_app_lf, app_nil_r.
  - rewrite join_cons. rewrite <- !app_assoc. simpl app.
    rewrite splitlines_app_lf by assumption. rewrite app_nil_r.
    f_equal. apply IH. discriminate.
Qed.

(** ** The matcher *)


Lemma try_down_hit {R} (f : nat -> option R) j x :
  f j = Some x -> Re.try_down j f = Some x.
Proof. intros H. destruct j; simpl; now rewrite H. Qed.

Lemma try_down_first {R} (f : nat -> option R) n j0 x :
  j0 <= n -> f j0 = Some x -> (forall j, j0 < j <= n -> f j = None) ->
  Re.try_down n f = Some x.
Proof.
  induction n as [|n IH]; intros Hle Hx Hnone.
  - assert (j0 = 0) by lia. subst. now apply try_down_hit.
  - destruct (Nat.eq_dec j0 (S n)) as [->|Hne].
    + now apply try_down_hit.
    + simpl. rewrite Hnone by lia. apply IH; [lia|assumption|].
      intros j Hj. apply Hnone. lia.
Qed.

Lemma try_down_none {R} (f : nat -> option R) n :
  (forall j, j <= n -> f j = None) -> Re.try_down n f = None.
Proof.
  induction n as [|n IH]; intros H; simpl.
  - now rewrite H.
  - rewrite H by lia. apply IH. intros; apply H; lia.
Qed.

Lemma run_all p s : Forall (fun b => p b = true) s -> Re.run p s = length s.
Proof. induction 1; simpl; [reflexivity|]. now rewrite H, IHForall. Qed.

Lemma run_le p s : Re.run p s <= length s.
Proof. induction s; simpl; [lia|]. destruct (p a); lia. Qed.

Lemma run_prefix p s j : j <= Re.run p s -> Forall (fun b => p b = true) (firstn j s).
Proof.
  revert j. induction s as [|c s IH]; intros j Hj; simpl in *.
  - assert (j = 0) by lia. subst. constructor.
  - destruct j; [constructor|]. destruct (p c) eqn:E; [|lia].
    simpl. constructor; [assumption|]. apply IH. lia.
Qed.

Lemma lit_rest_app lit s : Re.lit_rest false lit (lit ++ s) = Some s.
Proof.
  induction lit; simpl; [reflexivity|]. now rewrite byte_eqb_refl.
Qed.

Lemma lit_rest_iff lit : forall s t, Re.lit_rest false lit s = Some t <-> s = lit ++ t.
Proof.
  induction lit as [|x lit IH]; intros s t; simpl.
  - split; congruence.
  - destruct s as [|y s]; [split; discriminate|].
    destruct (Byte.eqb x y) eqn:E.
    + apply byte_eqb_eq in E. subst. rewrite IH. split; congruence.
    + apply byte_eqb_neq in E. split; [discriminate|]. intros [= -> ->]. congruence.
Qed.

(** *** The patch description pattern *)

Lemma lit_rest_agrees ic lit : forall pre rest,
  lit_agrees ic lit pre = true -> Re.lit_rest ic lit (pre ++ rest) = Some rest.
Proof.
  induction lit as [|x lit IH]; intros [|y pre] rest H; simpl in *; try discriminate.
  - reflexivity.
  - apply andb_true_iff in H as [H1 H2]. rewrite H1. now apply IH.
Qed.

Lemma run_stop p pre c rest :
  forallb p pre = true -> p c = false -> Re.run p (pre ++ c :: rest) = length pre.
Proof.
  induction pre as [|x pre IH]; simpl; intros H Hc.
  - now rewrite Hc.
  - apply andb_true_iff in H as [H1 H2]. rewrite H1. now rewrite IH.
Qed.

Lemma patchdesc_matches_pop_message name :
  no_crlf name ->
  PATCHDESC_fullmatch ("DO NOT SUBMIT [PATCH] " ++ name)
  = Some [(2, " " ++ name); (1, "DO NOT SUBMIT ")].
Proof.
  intros Hn. unfold PATCHDESC_fullmatch, Re.fullmatch, PATCHDESC_RE, Re.Plus.
  cbn [Re.rmatch].
  change ("DO NOT SUBMIT [PATCH] " ++ name)
    with ("DO NOT SUBMIT" ++ (" [PATCH] " ++ name)).
  rewrite (@lit_rest_agrees true "do not submit" "DO NOT SUBMIT") by reflexivity.
  change (" [PATCH] " ++ name) with (" " ++ "["%byte :: ("PATCH] " ++ name)).
  rewrite run_stop by reflexivity.
  erewrite try_down_hit; [reflexivity|].
  cbn [length app skipn].
  pose proof (@lit_rest_agrees true "[patch]" "[PATCH]" (x20 :: name) eq_refl) as E.
  cbn [app] in E. rewrite E. clear E.
  change (not_crlf SP) with true. cbv iota.
  rewrite run_all by exact Hn.
  erewrite try_down_hit; [reflexivity|].
  rewrite skipn_all.
  cbn [length].
  replace (S (0 + 13 + 1 + 7) + length name - (0 + 13 + 1 + 7))
    with (S (length name)) by lia.
  cbn [firstn Nat.add Nat.sub]. now rewrite firstn_all.
Qed.

Lemma strip_sp_cons name : Py.strip (SP :: name) = Py.strip name.
Proof. now apply strip_cons_space. Qed.

(** ** The commit message of a popped patch *)

Lemma series_patches_no_crlf origseries name :
  In name (series_patches origseries) -> no_crlf name.
Proof.
  unfold series_patches. intros [Hin _]%filter_In.
  pose proof (splitlines_no_crlf origseries) as H.
  rewrite Forall_forall in H. now apply H.
Qed.

Lemma pop_patchmessage_first_line name patchdesc :
  no_crlf name ->
  first_line (pop_patchmessage name patchdesc)
  = Some ("DO NOT SUBMIT [PATCH] " ++ name).
Proof.
  intros Hn.
  assert (Hp : no_crlf ("DO NOT SUBMIT [PATCH] " ++ name)).
  { apply Forall_app. split; [|assumption].
    repeat (constructor; [reflexivity|]). constructor. }
  unfold first_line, pop_patchmessage.
  change ("DO " ++ "NOT" ++ " SUBMIT [PATCH] " ++ name)
    with ("DO NOT SUBMIT [PATCH] " ++ name).
  destruct patchdesc as [|d ds].
  - rewrite splitlines_single; [reflexivity|assumption|discriminate].
  - change (("DO NOT SUBMIT [PATCH] " ++ name) ++ [x0a; x0a] ++ d :: ds)
      with (("DO NOT SUBMIT [PATCH] " ++ name) ++ x0a :: (x0a :: d :: ds)).
    rewrite splitlines_app_lf by assumption. now rewrite app_nil_r.
Qed.



(** ** The name of a folded patch *)

Lemma contains_byte_iff b s : Py.contains [b] s = true <-> In b s.
Proof.
  induction s as [|c s IH]; simpl.
  - split; [discriminate | tauto].
  - rewrite orb_true_iff, andb_true_r, byte_eqb_eq, IH.
    split; intros [->|H]; auto.
Qed.

Lemma hyphenate_runs_absent p s :
  (forall b, In b s -> p b = false) -> hyphenate_runs p false s = s.
Proof.
  induction s as [|c s IH]; intros H; simpl; [reflexivity|].
  rewrite (H c) by now left. f_equal. apply IH. intros; apply H; now right.
Qed.

Lemma hyphenate_runs_length p s :
  forall in_run, length (hyphenate_runs p in_run s) <= length s.
Proof.
  induction s as [|c s IH]; intros in_run; simpl; [lia|].
  pose proof (IH true). pose proof (IH false).
  destruct (p c); [destruct in_run|]; simpl; lia.
Qed.

Lemma hyphenate_runs_changes p s :
  (exists b, In b s /\ p b = true) ->
  (forall b, p b = true -> b <> "-"%byte) ->
  forall in_run, hyphenate_runs p in_run s <> s.
Proof.
  intros Hex Hp. induction s as [|c s IH]; intros in_run.
  - destruct Hex as [b [[] _]].
  - simpl. destruct (p c) eqn:Ec.
    + destruct in_run.
      * intro E. apply (f_equal (@length byte)) in E. simpl in E.
        pose proof (hyphenate_runs_length p s true). lia.
      * intros [= E _]. apply (Hp c Ec). now symmetry.
    + intros [= E]. revert E. apply IH.
      destruct Hex as [b [[->|Hin] Hb]]; [congruence | eauto].
Qed.

Lemma match_at_plus p pos c t :
  Re.match_at false (Re.Plus p) pos (c :: t)
  = if p c
    then Some (Re.MatchObj (S pos + Re.run p t) (skipn (Re.run p t) t) [])
    else None.
Proof.
  unfold Re.match_at, Re.Plus. cbn [Re.rmatch].
  destruct (p c); [|reflexivity]. now apply try_down_hit.
Qed.

(** [re.sub(rb' +', b'-', s)], and any substitution of a hyphen for [c+],
    is the replacement of each run by one hyphen. *)
Lemma sub_plus_hyphenate p s :
  forall pos,
    Re.sub_from false (Re.Plus p) [Re.RText "-"] pos s 0
    = hyphenate_runs p false s
    /\ Re.sub_from false (Re.Plus p) [Re.RText "-"] pos s (Re.run p s)
       = hyphenate_runs p true s.
Proof.
  induction s as [|c t IH]; intros pos; [split; reflexivity|].
  assert (H0 : Re.sub_from false (Re.Plus p) [Re.RText "-"] pos (c :: t) 0
               = hyphenate_runs p false (c :: t)).
  { cbn [Re.sub_from hyphenate_runs]. rewrite match_at_plus.
    destruct (p c).
    - cbn [Re.m_end Re.m_caps]. replace (pos <? S pos + Re.run p t) with true
        by (symmetry; apply Nat.ltb_lt; lia).
      replace (S pos + Re.run p t - pos - 1) with (Re.run p t) by lia.
      rewrite (proj2 (IH (S pos))). reflexivity.
    - now rewrite (proj1 (IH (S pos))). }
  split; [exact H0|].
  cbn [Re.run]. destruct (p c) eqn:Ec.
  - cbn [Re.sub_from hyphenate_runs]. rewrite Ec. apply IH.
  - rewrite H0. cbn [hyphenate_runs]. now rewrite Ec.
Qed.

Lemma fold_patchname_spaces line orig name :
  fold_patchname line = Some (orig, name) ->
  name = hyphenate_runs (Byte.eqb x20) false orig
  /\ (name <> orig <-> In x20 orig).
Proof.
  unfold fold_patchname. destruct (PATCHDESC_fullmatch line) as [m|]; [|discriminate].
  set (o := Py.strip _). intros [= <- <-].
  destruct (Py.contains " " o) eqn:Ec.
  - apply contains_byte_iff in Ec. unfold Re.sub.
    rewrite (proj1 (sub_plus_hyphenate (Byte.eqb x20) o 0)).
    split; [reflexivity|]. split; [intros _; exact Ec|]. intros _.
    apply hyphenate_runs_changes.
    + exists x20. split; [assumption|reflexivity].
    + intros b Hb%byte_eqb_eq. subst. discriminate.
  - assert (Hno : ~ In x20 o).
    { intro H. apply contains_byte_iff in H. congruence. }
    split.
    + symmetry. apply hyphenate_runs_absent. intros b Hb.
      apply byte_eqb_neq. intros <-. contradiction.
    + split; [congruence | contradiction].
Qed.

Section FoldNames.
Context {Store : Type} {backend : Backend Store}.

(** C5 (amended).  The name [fold] stores is the trimmed group 2 with every
    run of spaces (the byte 0x20) replaced by one hyphen, other whitespace
    left as it is; the name changes exactly when it holds a space, and the
    warning [rewriting patch ...] is printed exactly when the name changed. *)
Theorem fold_patch_name_spaces :
  forall (rootpath : bytes) patches rev (r : Repo Store) line orig name,
    first_line (description r (Some rev)) = Some line ->
    fold_patchname line = Some (orig, name) ->
    name = hyphenate_runs (Byte.eqb x20) false orig
    /\ (name <> orig <-> In x20 orig)
    /\ ui_out (fst (fold_patch_entry rootpath patches rev r))
       = ui_out r
         ++ (if Py.bytes_eqb name orig then []
             else [Warn ("rewriting patch " ++ [x22] ++ orig ++ [x22]
                         ++ " to " ++ [x22] ++ name ++ [x22] ++ [x0a])]).
Proof.
  intros rootpath patches rev r line orig name Hl Hn.
  destruct (fold_patchname_spaces _ Hn) as [H1 H2].
  split; [exact H1|]. split; [exact H2|].
  unfold fold_patch_entry, bind, gets. rewrite Hl, Hn.
  destruct (Py.bytes_eqb name orig); cbn [negb];
    unfold ret, ui_warn, query; cbn [ui_out changelog dot wfiles store];
    match goal with |- context [patch_diff ?a ?b ?c ?d] =>
      destruct (patch_diff a b c d) end;
    cbn [fst ui_out]; now rewrite ?app_nil_r.
Qed.

End FoldNames.

Lemma fold_patch_name_spaces_witness :
  let r := Toy.at_base in
  "b-fix.diff" = hyphenate_runs (Byte.eqb x20) false "b  fix.diff"
  /\ ("b-fix.diff" <> "b  fix.diff" <-> In x20 "b  fix.diff")
  /\ ui_out (fst (fold_patch_entry "tp/foo" [] 3 r))
     = ui_out r
       ++ (if Py.bytes_eqb "b-fix.diff" "b  fix.diff" then []
           else [Warn ("rewriting patch " ++ [x22] ++ "b  fix.diff" ++ [x22]
                       ++ " to " ++ [x22] ++ "b-fix.diff" ++ [x22]
                       ++ [x0a])]).
Proof.
  intro r.
  apply (@fold_patch_name_spaces unit Toy.backend "tp/foo" [] 3 r
           "[PATCH] b  fix.diff" "b  fix.diff" "b-fix.diff");
    reflexivity.
Defined.

(** C5, as the claim states it, fails: a tab inside the name is whitespace,
    and the stored name keeps it. *)
Lemma fold_patch_name_keeps_tab :
  exists line orig name,
    fold_patchname line = Some (orig, name)
    /\ existsb Py.isspace orig = true
    /\ name = "a" ++ [TAB] ++ "b"
    /\ hyphenate_runs Py.isspace false orig = "a-b"
    /\ name <> hyphenate_runs Py.isspace false orig.
Proof.
  exists ("[PATCH] a" ++ [TAB] ++ "b"), ("a" ++ [TAB] ++ "b"),
         ("a" ++ [TAB] ++ "b").
  repeat split; discriminate.
Qed.

(** ** Hunk headers in [_hgdifftopatch] *)

(** What the [@@ ] branch computes: the line right-trimmed, followed by
    the last byte of the line, whatever that byte is. *)
Lemma hgdiff_line_hunk_header rootbasepath line :
  Py.startswith "@@ " line = true ->
  hgdiff_line rootbasepath line
  = Some (Py.rstrip line ++ Py.last_n 1 line).
Proof.
  intros H. apply startswith_iff in H as [t ->]. reflexivity.
Qed.

(** Lines that no branch applies to are copied, trailing whitespace
    included. *)
Lemma hgdiff_line_other rootbasepath line :
  Py.startswith "diff --git" line = false ->
  Py.startswith ("--- " ++ rootbasepath) line = false ->
  Py.startswith ("+++ " ++ rootbasepath) line = false ->
  Py.startswith "@@ " line = false ->
  hgdiff_line rootbasepath line = Some line.
Proof. intros H1 H2 H3 H4. unfold hgdiff_line. now rewrite H1, H2, H3, H4. Qed.

(** C4.  A hunk header that ends in CR LF comes out ending in LF alone:
    [ending] is always the last byte, because the comparison of
    [line[-2:]] with the [str] literal is never true. *)
Theorem hgdifftopatch_crlf_hunk_header :
  _hgdifftopatch ("@@ -1 +1 @@  " ++ [CR; LF] ++ "-a  " ++ [CR; LF]) "tp/foo"
  = "@@ -1 +1 @@" ++ [LF] ++ "-a  " ++ [CR; LF]
  /\ _hgdifftopatch ("@@ -1 +1 @@  " ++ [CR; LF] ++ "-a  " ++ [CR; LF]) "tp/foo"
     <> "@@ -1 +1 @@" ++ [CR; LF] ++ "-a  " ++ [CR; LF].
Proof. split; [reflexivity | discriminate]. Qed.

(** ** The series file during [pop] *)

Lemma series_patches_lines origseries :
  Forall no_crlf (series_patches origseries).
Proof.
  apply Forall_forall. intros l H. now apply series_patches_no_crlf in H.
Qed.

Lemma in_firstn {A} (x : A) n : forall l, In x (firstn n l) -> In x l.
Proof.
  induction n as [|n IH]; intros [|y l]; simpl; try tauto.
  intros [H|H]; auto.
Qed.

Lemma filter_all_true {A} (f : A -> bool) l :
  Forall (fun x => f x = true) l -> filter f l = l.
Proof. induction 1; simpl; [reflexivity|]. now rewrite H, IHForall. Qed.

(** Joining with line feeds and closing with one more is ending every
    part with a line feed. *)
Lemma join_lf_terminated (l : list bytes) :
  l <> [] ->
  Py.join [LF] l ++ [LF] = concat (map (fun name => name ++ [LF]) l).
Proof.
  induction l as [|p [|q rest] IH]; intros Hne; [congruence| |].
  { cbn [Py.join map concat]. now rewrite app_nil_r. }
  change (Py.join [LF] (p :: q :: rest))
    with (p ++ [LF] ++ Py.join [LF] (q :: rest)).
  change (concat (map (fun name => name ++ [LF]) (p :: q :: rest)))
    with ((p ++ [LF])
          ++ concat (map (fun name => name ++ [LF]) (q :: rest))).
  rewrite <- IH by discriminate.
  now rewrite <- !app_assoc.
Qed.

(** C2 (amended).  The bytes [pop] writes at turn [i] are the series
    entries that remain, the first [n - i - 1] of the [n] active lines of
    the original file, each followed by one line feed and nothing else; a
    single line feed when none remains.  Read back, the lines of the text
    are these entries (one empty line when none remains), none of them a
    comment line: comment lines and blank lines of the original file are
    not written back. *)
Theorem pop_series_rewrite_lines :
  forall origseries i,
    let patches := series_patches origseries in
    let remaining := firstn (length patches - (i + 1)) patches in
    i < length patches ->
    series_without_last patches i
    = (if Nat.ltb (i + 1) (length patches)
       then concat (map (fun name => name ++ [LF]) remaining)
       else [LF])
    /\ Forall (fun name => active_line name = true /\ no_crlf name
                           /\ In name (Py.splitlines false origseries))
              remaining
    /\ Py.splitlines false (series_without_last patches i)
       = (if Nat.ltb (i + 1) (length patches) then remaining else [[]])
    /\ series_patches (series_without_last patches i) = remaining
    /\ (forall l, In l (Py.splitlines false (series_without_last patches i)) ->
        Py.startswith "#" l = false).
Proof.
  intros origseries i patches remaining Hi.
  assert (Hrem : Forall no_crlf remaining).
  { apply Forall_forall. intros l Hl. apply in_firstn in Hl.
    now apply series_patches_no_crlf in Hl. }
  assert (Hact : Forall (fun l => active_line l = true) remaining).
  { apply Forall_forall. intros l Hl. apply in_firstn in Hl.
    unfold patches, series_patches in Hl. now apply filter_In in Hl. }
  assert (Hbytes : series_without_last patches i
                   = (if Nat.ltb (i + 1) (length patches)
                      then concat (map (fun name => name ++ [LF]) remaining)
                      else [LF])).
  { unfold series_without_last, Py.drop_last_n. fold remaining.
    destruct (Nat.ltb (i + 1) (length patches)) eqn:E.
    - apply Nat.ltb_lt in E. apply join_lf_terminated.
      intro H0. apply (f_equal (@length bytes)) in H0. unfold remaining in H0.
      rewrite length_firstn in H0. simpl in H0. lia.
    - apply Nat.ltb_ge in E. unfold remaining.
      replace (length patches - (i + 1)) with 0 by lia. reflexivity. }
  split; [exact Hbytes|]. split.
  { apply Forall_forall. intros l Hl.
    rewrite Forall_forall in Hrem, Hact.
    split; [now apply Hact|]. split; [now apply Hrem|].
    apply in_firstn in Hl. unfold patches, series_patches in Hl.
    now apply filter_In in Hl. }
  unfold series_without_last, Py.drop_last_n. fold remaining.
  destruct (Nat.ltb (i + 1) (length patches)) eqn:E.
  - apply Nat.ltb_lt in E.
    assert (Hne : remaining <> []).
    { intro H0. apply (f_equal (@length bytes)) in H0. unfold remaining in H0.
      rewrite length_firstn in H0. simpl in H0. lia. }
    rewrite splitlines_join_lf by assumption.
    split; [reflexivity|]. split.
    + unfold series_patches. rewrite splitlines_join_lf by assumption.
      now apply filter_all_true.
    + intros l Hl. rewrite Forall_forall in Hact. apply Hact in Hl.
      unfold active_line in Hl. destruct l; [reflexivity|].
      now apply negb_true_iff in Hl.
  - apply Nat.ltb_ge in E.
    assert (Hnil : remaining = []).
    { unfold remaining. replace (length patches - (i + 1)) with 0 by lia.
      reflexivity. }
    rewrite Hnil. cbn. split; [reflexivity|]. split; [reflexivity|].
    intros l [<-|[]]. reflexivity.
Qed.

Lemma pop_series_rewrite_lines_witness :
  let patches := series_patches Toy.series in
  let remaining := firstn (length patches - (0 + 1)) patches in
  series_without_last patches 0
  = (if Nat.ltb (0 + 1) (length patches)
     then concat (map (fun name => name ++ [LF]) remaining)
     else [LF])
  /\ Forall (fun name => active_line name = true /\ no_crlf name
                         /\ In name (Py.splitlines false Toy.series))
            remaining
  /\ Py.splitlines false (series_without_last patches 0)
     = (if Nat.ltb (0 + 1) (length patches) then remaining else [[]])
  /\ series_patches (series_without_last patches 0) = remaining
  /\ (forall l, In l (Py.splitlines false (series_without_last patches 0)) ->
      Py.startswith "#" l = false).
Proof.
  apply (@pop_series_rewrite_lines Toy.series 0). vm_compute. lia.
Defined.

(** C2, as the claim states it, fails: popping one patch from a series
    file with a comment line and a blank line leaves a file with neither. *)
Lemma pop_drops_comment_lines :
  let r' := fst (pop (mkPopOpts "tp/foo" [] 1 false []) Toy.at_base) in
  Vfs.lookup (wfiles Toy.at_base) "tp/foo/patches/series"
  = Some ("# local patches" ++ [LF] ++ "a.diff" ++ [LF] ++ [LF]
          ++ "b.diff" ++ [LF])
  /\ Vfs.lookup (wfiles r') "tp/foo/patches/series" = Some ("a.diff" ++ [LF])
  /\ ~ (forall l,
          In l (Py.splitlines false Toy.series) -> active_line l = false ->
          In l (Py.splitlines false
                  (series_without_last (series_patches Toy.series) 0))).
Proof.
  split; [reflexivity|]. split; [vm_compute; reflexivity|].
  intros H. specialize (H "# local patches").
  vm_compute in H. destruct H as [H|[]]; [now left | reflexivity | discriminate H].
Qed.

Lemma bytes_eqb_refl a : Py.bytes_eqb a a = true.
Proof. now apply bytes_eqb_eq. Qed.


Lemma bind_inr {Store A B} (m : M Store A) (f : A -> M Store B) r r' b :
  bind m f r = (r', inr b) ->
  exists r1 a, m r = (r1, inr a) /\ f a r1 = (r', inr b).
Proof.
  unfold bind. destruct (m r) as [r1 [e|a]]; [discriminate|]. eauto.
Qed.

Section PopSeries.
Context {Store : Type} {backend : Backend Store}.



End PopSeries.



(** ** The changesets [pop] rebases *)







Section Children.
Context {Store : Type}.
Implicit Type r : Repo Store.




End Children.

Section RebaseTargets.
Context {Store : Type} {backend : Backend Store}.




End RebaseTargets.



(** ** The chain [fold] resolves *)



Section PatchChildren.
Context {Store : Type}.
Implicit Type r : Repo Store.













End PatchChildren.

Section FoldChain.
Context {Store : Type} {backend : Backend Store}.


End FoldChain.

(** ** What [fold] does before it changes anything *)

Lemma same_but_ui_refl {Store} (r : Repo Store) : same_but_ui r r.
Proof. repeat split. Qed.

Lemma same_but_ui_trans {Store} (a b c : Repo Store) :
  same_but_ui a b -> same_but_ui b c -> same_but_ui a c.
Proof.
  unfold same_but_ui. intros (H1 & H2 & H3 & H4) (K1 & K2 & K3 & K4).
  repeat split; congruence.
Qed.

Section ReadOnly.
Context {Store : Type} {backend : Backend Store}.















End ReadOnly.



(** On the example repository the chain below the base is its two patch
    changesets; from the plain changeset 4 the chain is empty, and [fold]
    there only prints its warnings.  In count mode the walk for one patch
    ends at the first patch of the forked repository without looking at
    its two patch children. *)
Example fold_chain_example :
  fold_chain Toy.at_base true 0 (Some 1) = Some (inr [2; 3])
  /\ fold_chain Toy.at_base false 1 (Some 1) = Some (inr [2])
  /\ fold_chain Toy.at_base true 0 (Some 4) = Some (inr [])
  /\ fold_chain Toy.forked false 1 (Some 0) = Some (inr [1])
  /\ fold (mkFoldOpts "tp/foo" [] 0 true [])
          (mkRepo Toy.log (Some 4) Toy.files [] tt)
     = (mkRepo Toy.log (Some 4) Toy.files
               [Status ("tracking paths for " ++ [DQUOTE] ++ "tp/foo"
                        ++ [DQUOTE] ++ [LF]);
                Warn ("no quahog changeset found in ancestors; creating one"
                      ++ [LF]);
                Warn ("no patches to fold" ++ [LF])] tt, inr tt).
Proof. repeat split. Qed.

(** ** Description and diff of a patch file *)

(** A line feed always ends a line. *)
Lemma splitlines_app_lf_any (a : bytes) :
  forall b,
    Py.splitlines true (a ++ x0a :: b)
    = Py.splitlines true (a ++ [x0a]) ++ Py.splitlines true b.
Proof.
  induction a as [|c t IH IH2] using bytes_ind2; intros b; [reflexivity|].
  cbn [app]. rewrite !splitlines_cons.
  destruct (Byte.eqb c x0a); [now rewrite IH|].
  destruct (Byte.eqb c x0d).
  - destruct t as [|c' t']; [reflexivity|]. cbn [app].
    destruct (Byte.eqb c' x0a).
    + now rewrite (IH2 _ _ eq_refl).
    + change (c' :: t' ++ x0a :: b) with ((c' :: t') ++ x0a :: b).
      change (c' :: t' ++ [x0a]) with ((c' :: t') ++ [x0a]).
      now rewrite IH.
  - rewrite IH.
    destruct (Py.splitlines true (t ++ [x0a])) as [|l ls] eqn:E.
    + exfalso. apply (@splitlines_nonempty true (t ++ [x0a])); [|exact E].
      now destruct t.
    + reflexivity.
Qed.

Lemma lines_with_lf_cons h xs ys :
  lines_with_lf xs ys -> lines_with_lf (h :: xs) (h :: ys).
Proof.
  intros [->|(init & l & -> & ->)]; [now left|].
  right. exists (h :: init), l. split; reflexivity.
Qed.

Lemma splitlines_snoc_lf (a : bytes) :
  lines_with_lf (Py.splitlines true a) (Py.splitlines true (a ++ [x0a])).
Proof.
  induction a as [|c t IH IH2] using bytes_ind2; [now left|].
  cbn [app]. rewrite !splitlines_cons.
  destruct (Byte.eqb c x0a); [now apply lines_with_lf_cons|].
  destruct (Byte.eqb c x0d).
  - destruct t as [|c' t'].
    + right. exists [], [x0d]. split; reflexivity.
    + cbn [app]. destruct (Byte.eqb c' x0a).
      * apply lines_with_lf_cons. apply (IH2 _ _ eq_refl).
      * apply lines_with_lf_cons. exact IH.
  - destruct IH as [->|(init & l & -> & ->)].
    + destruct (Py.splitlines true t) as [|l ls].
      * right. exists [], [c]. split; reflexivity.
      * now left.
    + destruct init as [|i init]; cbn [app].
      * right. exists [], (c :: l). split; reflexivity.
      * right. exists ((c :: i) :: init), l. split; reflexivity.
Qed.

Lemma join_snoc sep ls x :
  Py.join sep (ls ++ [x])
  = match ls with [] => x | _ :: _ => Py.join sep ls ++ sep ++ x end.
Proof.
  induction ls as [|p ls IH]; [reflexivity|].
  destruct ls as [|q ls]; [reflexivity|].
  change ((p :: q :: ls) ++ [x]) with (p :: (q :: ls) ++ [x]).
  cbn [app]. rewrite join_cons.
  change (q :: ls ++ [x]) with ((q :: ls) ++ [x]). rewrite IH.
  rewrite join_cons. now rewrite <- !app_assoc.
Qed.

Lemma norm_lines_snoc_blank ls l :
  Py.rstrip l = [] -> norm_lines (ls ++ [l]) = norm_lines ls.
Proof.
  intros Hl. unfold norm_lines. rewrite map_app. cbn [map]. rewrite Hl, join_snoc.
  destruct (map Py.rstrip ls) eqn:E; [reflexivity|].
  rewrite app_nil_r. apply rstrip_app_space. repeat constructor.
Qed.

Lemma norm_lines_with_lf xs ys :
  lines_with_lf xs ys -> norm_lines ys = norm_lines xs.
Proof.
  intros [->|(init & l & -> & ->)].
  - now apply norm_lines_snoc_blank.
  - unfold norm_lines. rewrite !map_app. cbn [map].
    rewrite rstrip_app_space by (repeat constructor). reflexivity.
Qed.

Lemma startswith_snoc_lf m :
  forallb (fun b => negb (Byte.eqb b x0a)) m = true ->
  forall l, Py.startswith m (l ++ [x0a]) = true -> Py.startswith m l = true.
Proof.
  induction m as [|x m IH]; intros Hm l H; [reflexivity|].
  cbn [forallb] in Hm. apply andb_true_iff in Hm as [Hx Hm].
  destruct l as [|y l]; cbn [app Py.startswith] in *.
  - apply andb_true_iff in H as [H _]. apply negb_true_iff in Hx. congruence.
  - apply andb_true_iff in H as [H1 H2]. rewrite H1. now apply IH.
Qed.

Lemma markers_snoc_lf l :
  Py.startswith_any spec_diff_markers l = false ->
  Py.startswith_any spec_diff_markers (l ++ [x0a]) = false.
Proof.
  unfold Py.startswith_any, spec_diff_markers. cbn [existsb].
  rewrite !orb_false_iff. intros (H1 & H2 & H3 & H4 & _).
  repeat split; try reflexivity; apply not_true_iff_false; intros H;
    apply startswith_snoc_lf in H; try reflexivity; congruence.
Qed.

Lemma markers_with_lf xs ys :
  lines_with_lf xs ys ->
  Forall (fun l => Py.startswith_any spec_diff_markers l = false) xs ->
  Forall (fun l => Py.startswith_any spec_diff_markers l = false) ys.
Proof.
  intros [->|(init & l & -> & ->)] H.
  - apply Forall_app. split; [assumption|]. repeat constructor.
  - apply Forall_app in H as [Hi Hl]. apply Forall_app. split; [assumption|].
    inversion Hl; subst. constructor; [|constructor].
    now apply markers_snoc_lf.
Qed.

Lemma spec_markers_false l :
  Py.startswith_any spec_diff_markers l = false ->
  Py.startswith_any diff_markers l = false
  /\ Py.startswith "Index: " l = false.
Proof.
  unfold Py.startswith_any, spec_diff_markers, diff_markers. cbn [existsb].
  rewrite !orb_false_iff. tauto.
Qed.

(** The loop of [_separatepatchdescription] passes over lines that start
    with no marker and keeps them, right-trimmed. *)
Lemma separate_loop_app D :
  forall i rest,
    Forall (fun l => Py.startswith_any spec_diff_markers l = false) D ->
    separate_loop i (D ++ rest)
    = (fst (separate_loop (i + length D) rest),
       map Py.rstrip D ++ snd (separate_loop (i + length D) rest)).
Proof.
  induction D as [|l D IH]; intros i rest H.
  - cbn [app length map]. rewrite Nat.add_0_r. now destruct (separate_loop i rest).
  - inversion H as [|? ? Hl HD]; subst.
    apply spec_markers_false in Hl as [H1 H2].
    cbn [app separate_loop]. rewrite H1, H2, (IH (S i) rest HD).
    cbn [length map app fst snd]. now replace (i + S (length D)) with (S i + length D) by lia.
Qed.

(** A text that starts with a marker has a first line that starts with
    it. *)
Lemma startswith_first_line m :
  no_crlf m -> m <> [] ->
  forall s, Py.startswith m s = true ->
  exists l ls, Py.splitlines true s = l :: ls /\ Py.startswith m l = true.
Proof.
  induction 1 as [|x m Hx Hm IH]; [congruence|]. intros _ s H.
  destruct s as [|y s]; [discriminate|]. cbn [Py.startswith] in H.
  apply andb_true_iff in H as [Hxy H]. apply byte_eqb_eq in Hxy. subst y.
  apply not_crlf_iff in Hx as [Hcr Hlf]. apply byte_eqb_neq in Hcr, Hlf.
  rewrite splitlines_cons, Hlf, Hcr.
  destruct m as [|x' m].
  - destruct (Py.splitlines true s) as [|l ls]; do 2 eexists;
      (split; [reflexivity|]); cbn [Py.startswith]; now rewrite byte_eqb_refl.
  - destruct (IH ltac:(discriminate) s H) as (l & ls & -> & Hl).
    exists (x :: l), ls. split; [reflexivity|].
    cbn [Py.startswith]. cbn [Py.startswith] in Hl. now rewrite byte_eqb_refl, Hl.
Qed.

Lemma concat_skipn_sentinel n :
  forall B : list bytes, concat (skipn n (B ++ [[]])) = concat (skipn n B).
Proof.
  induction n as [|n IH]; intros B.
  - cbn [skipn]. rewrite concat_app. cbn. now rewrite app_nil_r.
  - destruct B as [|b B]; cbn [app skipn]; [now destruct n|]. apply IH.
Qed.

Lemma lstrip_nonspace c s : Py.isspace c = false -> Py.lstrip (c :: s) = c :: s.
Proof. intros H. cbn [Py.lstrip]. now rewrite H. Qed.

(** The lines [_separatepatchdescription] scans for a description, a blank
    line and a body. *)
Lemma separate_lines description body :
  exists D,
    Py.splitlines true (description ++ [x0a; x0a] ++ body) ++ [[]]
    = (D ++ [[x0a]]) ++ Py.splitlines true body ++ [[]]
    /\ lines_with_lf (Py.splitlines true description) D.
Proof.
  exists (Py.splitlines true (description ++ [x0a])). split.
  - change (description ++ [x0a; x0a] ++ body)
      with (description ++ x0a :: ([] ++ x0a :: body)).
    rewrite splitlines_app_lf_any, (splitlines_app_lf_any [] body).
    now rewrite <- !app_assoc.
  - apply splitlines_snoc_lf.
Qed.

Lemma separate_description_parts description body :
  free_of_markers description ->
  exists D',
    Py.splitlines true (description ++ [x0a; x0a] ++ body) ++ [[]]
    = D' ++ Py.splitlines true body ++ [[]]
    /\ Forall (fun l => Py.startswith_any spec_diff_markers l = false) D'
    /\ norm_lines D' = trimmed_lines description.
Proof.
  intros Hfree. destruct (separate_lines description body) as (D & HD & HR).
  exists (D ++ [[x0a]]). split; [exact HD|]. split.
  - apply Forall_app. split; [|repeat constructor].
    now apply (markers_with_lf HR).
  - rewrite norm_lines_snoc_blank by reflexivity.
    now apply norm_lines_with_lf.
Qed.

(** C8 (amended).  For a description with no line that starts with a
    marker, [_separatepatchdescription] applied to the description, a blank
    line and a body gives: the body itself when the body starts with
    [--- ], [diff --git] or [rename from]; the body without its first two
    lines, left-trimmed, when it starts with [Index: ]; and in both cases
    the description with every line right-trimmed, the lines joined by a
    line feed and the whole right-trimmed. *)
Theorem separate_description_of_joined :
  forall description body,
    free_of_markers description ->
    (Py.startswith_any diff_markers body = true ->
     _separatepatchdescription (description ++ [LF; LF] ++ body)
     = (Py.lstrip body, trimmed_lines description)
     /\ Py.lstrip body = body)
    /\ (Py.startswith "Index: " body = true ->
        _separatepatchdescription (description ++ [LF; LF] ++ body)
        = (Py.lstrip (concat (skipn 2 (Py.splitlines true body))),
           trimmed_lines description)).
Proof.
  intros description body Hfree.
  destruct (separate_description_parts body Hfree) as (D' & HD & HF & HN).
  unfold _separatepatchdescription. rewrite HD, (separate_loop_app _ _ HF).
  cbn [Nat.add]. split.
  - intros Hm.
    assert (exists m, In m diff_markers /\ Py.startswith m body = true)
      as (m & Hin & Hs).
    { unfold Py.startswith_any in Hm. now apply existsb_exists in Hm. }
    assert (Hml : exists l ls, Py.splitlines true body = l :: ls
                               /\ Py.startswith_any diff_markers l = true).
    { assert (Hno : no_crlf m /\ m <> []).
      { destruct Hin as [<-|[<-|[<-|[]]]];
          (split; [repeat (constructor; [reflexivity|]); constructor
                  | discriminate]). }
      destruct (startswith_first_line (proj1 Hno) (proj2 Hno) _ Hs)
        as (l & ls & El & Hl).
      exists l, ls. split; [exact El|].
      apply existsb_exists. exists m. now split. }
    destruct Hml as (l & ls & El & Hl).
    assert (Hloop : forall k, separate_loop k (Py.splitlines true body ++ [[]])
                              = (k, [])).
    { intros k. rewrite El. cbn [app separate_loop]. now rewrite Hl. }
    rewrite Hloop. cbn [fst snd].
    rewrite app_nil_r. fold (norm_lines D'). rewrite HN.
    rewrite skipn_app, skipn_all, Nat.sub_diag. cbn [skipn app].
    rewrite concat_app, concat_splitlines. cbn [concat]. rewrite app_nil_r.
    split; [reflexivity|].
    destruct body as [|c body']; [reflexivity|].
    apply lstrip_nonspace.
    destruct Hin as [<-|[<-|[<-|[]]]]; cbn [Py.startswith] in Hs;
      apply andb_true_iff in Hs as [Hc%byte_eqb_eq _]; now subst c.
  - intros Hs.
    destruct (@startswith_first_line "Index: "
                ltac:(repeat (constructor; [reflexivity|]); constructor)
                ltac:(discriminate) _ Hs) as (l & ls & El & Hl).
    assert (Hnot : Py.startswith_any diff_markers l = false).
    { apply startswith_iff in Hl as [t ->]. reflexivity. }
    assert (Hloop : forall k, separate_loop k (Py.splitlines true body ++ [[]])
                              = (k + 2, [])).
    { intros k. rewrite El. cbn [app separate_loop]. now rewrite Hnot, Hl. }
    rewrite Hloop. cbn [fst snd].
    rewrite app_nil_r. fold (norm_lines D'). rewrite HN.
    rewrite skipn_app.
    replace (skipn (length D' + 2) D') with (@nil bytes)
      by (symmetry; apply skipn_all2; lia).
    replace (length D' + 2 - length D') with 2 by lia.
    cbn [app]. now rewrite concat_skipn_sentinel.
Qed.

Lemma separate_description_of_joined_witness :
  (Py.startswith_any diff_markers Toy.b_diff = true ->
   _separatepatchdescription ("First patch." ++ [LF; LF] ++ Toy.b_diff)
   = (Py.lstrip Toy.b_diff, trimmed_lines "First patch.")
   /\ Py.lstrip Toy.b_diff = Toy.b_diff)
  /\ (Py.startswith "Index: " Toy.b_diff = true ->
      _separatepatchdescription ("First patch." ++ [LF; LF] ++ Toy.b_diff)
      = (Py.lstrip (concat (skipn 2 (Py.splitlines true Toy.b_diff))),
         trimmed_lines "First patch.")).
Proof.
  apply (@separate_description_of_joined "First patch." Toy.b_diff).
  unfold free_of_markers. vm_compute. repeat constructor.
Defined.

(** C8, as the claim states it, fails twice over: a body that starts with
    [Index: ] loses its first two lines, and a description line that ends
    in a blank loses it although it is not at the end of the
    description. *)
Lemma separate_description_drops_index_lines :
  exists description body,
    free_of_markers description
    /\ Py.startswith_any spec_diff_markers body = true
    /\ description = "a " ++ [LF] ++ "b"
    /\ body = "Index: f" ++ [LF] ++ "===" ++ [LF] ++ "--- a/f" ++ [LF]
    /\ _separatepatchdescription (description ++ [LF; LF] ++ body)
       = ("--- a/f" ++ [LF], "a" ++ [LF] ++ "b")
    /\ fst (_separatepatchdescription (description ++ [LF; LF] ++ body))
       <> Py.lstrip body
    /\ snd (_separatepatchdescription (description ++ [LF; LF] ++ body))
       <> Py.rstrip description.
Proof.
  exists ("a " ++ [LF] ++ "b"),
         ("Index: f" ++ [LF] ++ "===" ++ [LF] ++ "--- a/f" ++ [LF]).
  split; [unfold free_of_markers; vm_compute; repeat constructor|].
  repeat split; discriminate.
Qed.

(** ** Path prefixes in [_canonicalizepatchcontent] *)

Lemma firstn_length_app {A} (a b : list A) : firstn (length a) (a ++ b) = a.
Proof. induction a; simpl; [reflexivity|]. now rewrite IHa. Qed.

Lemma skipn_length_app {A} (a b : list A) : skipn (length a) (a ++ b) = b.
Proof. induction a; simpl; [reflexivity|]. exact IHa. Qed.

Lemma run_nonspace_ge d s :
  nonspace d -> length d <= Re.run (fun b => negb (Py.isspace b)) (d ++ s).
Proof.
  induction 1 as [|c d Hc Hd IH]; simpl; [lia|]. rewrite Hc. simpl. lia.
Qed.

Lemma sub_from_skip ic r tpl skip :
  forall s pos,
    Re.sub_from ic r tpl pos s skip
    = Re.sub_from ic r tpl (pos + skip) (skipn skip s) 0.
Proof.
  induction skip as [|n IH]; intros s pos.
  - now rewrite Nat.add_0_r.
  - destruct s as [|c t]; [reflexivity|].
    cbn [Re.sub_from skipn]. rewrite IH. f_equal. lia.
Qed.

(** Where the pattern matches, [re.sub] emits the template and resumes
    after the match. *)
Lemma sub_from_match ic r tpl pos s m :
  Re.match_at ic r pos s = Some m ->
  pos < Re.m_end m -> s <> [] ->
  Re.sub_from ic r tpl pos s 0
  = Re.expand tpl (Re.m_caps m)
    ++ Re.sub_from ic r tpl (Re.m_end m) (skipn (Re.m_end m - pos) s) 0.
Proof.
  intros Hm Hlt Hs. destruct s as [|c t]; [congruence|].
  cbn [Re.sub_from]. rewrite Hm.
  replace (pos <? Re.m_end m) with true by (symmetry; now apply Nat.ltb_lt).
  rewrite sub_from_skip. f_equal. f_equal; [lia|].
  set (k := Re.m_end m - pos - 1).
  replace (Re.m_end m - pos) with (S k) by lia. reflexivity.
Qed.

Lemma sub_from_nomatch ic r tpl pos c t :
  Re.match_at ic r pos (c :: t) = None ->
  Re.sub_from ic r tpl pos (c :: t) 0 = c :: Re.sub_from ic r tpl (S pos) t 0.
Proof. intros Hm. cbn [Re.sub_from]. now rewrite Hm. Qed.

Lemma nonspace_run_prefix s j :
  j <= Re.run (fun b => negb (Py.isspace b)) s -> nonspace (firstn j s).
Proof.
  intros H. apply run_prefix in H. unfold nonspace.
  eapply Forall_impl; [|exact H]. intros b Hb. now apply negb_true_iff in Hb.
Qed.

(** No place after [dir] can end the greedy prefix. *)
Lemma no_later_prefix root dir rest j s' q :
  last_root_occurrence root rest ->
  length dir <= j ->
  j <= Re.run (fun b => negb (Py.isspace b)) (dir ++ root ++ rest) ->
  Re.lit_rest false "/" (skipn j (dir ++ root ++ rest)) = Some s' ->
  Re.lit_rest false root s' = Some q -> False.
Proof.
  intros Hlast Hj Hrun H1%lit_rest_iff H2%lit_rest_iff. subst s'.
  apply nonspace_run_prefix in Hrun.
  rewrite firstn_app in Hrun. apply Forall_app in Hrun as [_ Hp].
  rewrite skipn_app in H1.
  replace (skipn j dir) with (@nil byte) in H1
    by (symmetry; now apply skipn_all2).
  cbn [app] in H1.
  apply (Hlast (firstn (j - length dir) (root ++ rest)) q); [|exact Hp].
  pose proof (firstn_skipn (j - length dir) (root ++ rest)) as E.
  rewrite H1 in E. symmetry. exact E.
Qed.

(** The optional prefix and the root path, at the end of the pattern. *)
Lemma prefix_and_root_match root dir rest p0 g :
  dir_prefix dir ->
  last_root_occurrence root rest ->
  Re.rmatch false
    (Re.Seq (Re.Opt (Re.Group 4
               (Re.Seq (Re.Star (fun b => negb (Py.isspace b)))
                       (Re.Lit "/"))))
            (Re.Group 5 (Re.Lit root)))
    p0 (dir ++ root ++ rest) g
    (fun e s' g' => Some (Re.MatchObj e s' g'))
  = Some (Re.MatchObj (p0 + length dir + length root) rest
            ((5, root) :: match dir with [] => g | _ :: _ => (4, dir) :: g end)).
Proof.
  intros Hdir Hlast. cbn [Re.rmatch].
  destruct Hdir as [->|(d & -> & Hd)].
  - rewrite try_down_none.
    + cbn [app length]. rewrite lit_rest_app. do 2 f_equal; [lia|].
      f_equal. f_equal. replace (p0 + length root - p0) with (length root) by lia.
      apply firstn_length_app.
    + intros j Hj.
      destruct (Re.lit_rest false "/" (skipn j ([] ++ root ++ rest)))
        as [s'|] eqn:E1; [|reflexivity].
      destruct (Re.lit_rest false root s') as [q|] eqn:E2; [|reflexivity].
      exfalso. apply (@no_later_prefix root [] rest j s' q); auto. simpl; lia.
  - erewrite try_down_first with (j0 := length d).
    + reflexivity.
    + rewrite <- app_assoc. now apply run_nonspace_ge.
    + rewrite <- (app_assoc d). rewrite skipn_length_app.
      change ("/" ++ root ++ rest) with ("/" ++ (root ++ rest)).
      rewrite lit_rest_app, lit_rest_app.
      rewrite length_app. cbn [length]. do 2 f_equal; [lia|].
      destruct (d ++ "/") as [|c dd] eqn:Ed.
      { apply (f_equal (@length byte)) in Ed. rewrite length_app in Ed.
        simpl in Ed. lia. }
      rewrite <- Ed. f_equal.
      * f_equal. replace (_ - _) with (length root) by lia.
        apply firstn_length_app.
      * f_equal. f_equal.
        replace (p0 + length d + 1 - p0) with (length (d ++ "/"))
          by (rewrite length_app; simpl; lia).
        rewrite app_assoc. apply firstn_length_app.
    + intros j Hj.
      destruct (Re.lit_rest false "/" (skipn j ((d ++ "/") ++ root ++ rest)))
        as [s'|] eqn:E1; [|reflexivity].
      destruct (Re.lit_rest false root s') as [q|] eqn:E2; [|reflexivity].
      exfalso. apply (@no_later_prefix root (d ++ "/") rest j s' q); auto.
      * rewrite length_app. simpl. lia.
      * lia.
Qed.

(** The header and the blank, before any pattern [tl] that matches what
    follows them. *)
Lemma header_then_match (tl : Re.regex) hdr w s0 p g (res : Re.match_obj) :
  is_header hdr ->
  Py.isspace w = true ->
  Re.rmatch false tl (S (p + 3)) s0 ((3, [w]) :: (2, hdr) :: g)
    (fun e s' g' => Some (Re.MatchObj e s' g')) = Some res ->
  Re.rmatch false
    (Re.Seq (Re.Group 2 (Re.Alt (Re.Lit "---") (Re.Lit "+++")))
            (Re.Seq (Re.Group 3 (Re.Class Py.isspace)) tl))
    p (hdr ++ w :: s0) g (fun e s' g' => Some (Re.MatchObj e s' g'))
  = Some res.
Proof.
  intros Hh Hw Htl. cbn [Re.rmatch].
  assert (Hcap : firstn (p + 3 - p) (hdr ++ w :: s0) = hdr).
  { replace (p + 3 - p) with (length hdr) by (destruct Hh; subst; simpl; lia).
    apply firstn_length_app. }
  assert (H3 : firstn (S (p + 3) - (p + 3)) (w :: s0) = [w]).
  { replace (S (p + 3) - (p + 3)) with 1 by lia. reflexivity. }
  destruct Hh as [->| ->].
  - rewrite (lit_rest_app "---" (w :: s0)). cbn [length].
    rewrite Hw, Hcap, H3.
    match goal with
    | |- match ?X with _ => _ end = _ =>
        replace X with (Some res) by (symmetry; exact Htl)
    end.
    reflexivity.
  - replace (Re.lit_rest false "---" ("+++" ++ w :: s0)) with (@None bytes)
      by reflexivity.
    rewrite (lit_rest_app "+++" (w :: s0)). cbn [length].
    rewrite Hw, Hcap, H3. exact Htl.
Qed.

Lemma header_needs_dash_or_plus (tl : Re.regex) c t p g R (k : Re.cont R) :
  c <> "-"%byte -> c <> "+"%byte ->
  Re.rmatch false
    (Re.Seq (Re.Group 2 (Re.Alt (Re.Lit "---") (Re.Lit "+++"))) tl)
    p (c :: t) g k = None.
Proof.
  intros H1 H2. cbn [Re.rmatch Re.lit_rest Re.byte_eq].
  apply not_eq_sym, byte_eqb_neq in H1. apply not_eq_sym, byte_eqb_neq in H2.
  now rewrite H1, H2.
Qed.

Lemma rmatch_seq ic R r1 r2 pos s g (k : Re.cont R) :
  Re.rmatch ic (Re.Seq r1 r2) pos s g k
  = Re.rmatch ic r1 pos s g (fun pos' s' g' => Re.rmatch ic r2 pos' s' g' k).
Proof. reflexivity. Qed.

Lemma rmatch_group ic R n r1 pos s g (k : Re.cont R) :
  Re.rmatch ic (Re.Group n r1) pos s g k
  = Re.rmatch ic r1 pos s g
      (fun pos' s' g' => k pos' s' ((n, firstn (pos' - pos) s) :: g')).
Proof. reflexivity. Qed.

Lemma rmatch_alt ic R r1 r2 pos s g (k : Re.cont R) :
  Re.rmatch ic (Re.Alt r1 r2) pos s g k
  = match Re.rmatch ic r1 pos s g k with
    | Some x => Some x
    | None => Re.rmatch ic r2 pos s g k
    end.
Proof. reflexivity. Qed.

Lemma rmatch_bol ic R pos s g (k : Re.cont R) :
  Re.rmatch ic Re.Bol pos s g k = if Nat.eqb pos 0 then k pos s g else None.
Proof. reflexivity. Qed.

Lemma rmatch_lit ic R l pos s g (k : Re.cont R) :
  Re.rmatch ic (Re.Lit l) pos s g k
  = match Re.lit_rest ic l s with
    | Some s' => k (pos + length l) s' g
    | None => None
    end.
Proof. reflexivity. Qed.

(** The pattern at the start of the content. *)
Lemma abspath_match_start root s res :
  Re.rmatch false
    (Re.Seq (Re.Group 2 (Re.Alt (Re.Lit "---") (Re.Lit "+++")))
       (Re.Seq (Re.Group 3 (Re.Class Py.isspace))
          (Re.Seq (Re.Opt (Re.Group 4
                     (Re.Seq (Re.Star (fun b => negb (Py.isspace b)))
                             (Re.Lit "/"))))
             (Re.Group 5 (Re.Lit root)))))
    0 s [(1, [])] (fun e s' g' => Some (Re.MatchObj e s' g')) = Some res ->
  Re.match_at false (abspathpattern root) 0 s = Some res.
Proof.
  intros H. unfold Re.match_at, abspathpattern.
  rewrite rmatch_seq, rmatch_group, rmatch_alt, rmatch_bol.
  cbn [Nat.eqb Nat.sub firstn].
  match goal with
  | |- match ?X with _ => _ end = _ =>
      replace X with (Some res) by (symmetry; exact H)
  end.
  reflexivity.
Qed.

(** The pattern at a line feed. *)
Lemma abspath_match_lf root pos s res :
  Re.rmatch false
    (Re.Seq (Re.Group 2 (Re.Alt (Re.Lit "---") (Re.Lit "+++")))
       (Re.Seq (Re.Group 3 (Re.Class Py.isspace))
          (Re.Seq (Re.Opt (Re.Group 4
                     (Re.Seq (Re.Star (fun b => negb (Py.isspace b)))
                             (Re.Lit "/"))))
             (Re.Group 5 (Re.Lit root)))))
    (S pos) s [(1, [x0a])] (fun e s' g' => Some (Re.MatchObj e s' g'))
  = Some res ->
  Re.match_at false (abspathpattern root) pos (x0a :: s) = Some res.
Proof.
  intros H. unfold Re.match_at, abspathpattern.
  rewrite rmatch_seq, rmatch_group, rmatch_alt, rmatch_bol, rmatch_lit.
  replace (Re.lit_rest false [x0a] (x0a :: s)) with (Some s) by reflexivity.
  cbn [length]. replace (pos + 1) with (S pos) by lia.
  replace (firstn (S pos - pos) (x0a :: s)) with [x0a]
    by (replace (S pos - pos) with 1 by lia; reflexivity).
  match goal with
  | |- match (if _ then ?X else None) with _ => _ end = _ =>
      replace X with (@None Re.match_obj)
        by (symmetry; apply header_needs_dash_or_plus; discriminate)
  end.
  destruct (Nat.eqb pos 0); exact H.
Qed.

(** Away from the start, the pattern needs a line feed. *)
Lemma abspath_needs_lf root pos c t :
  0 < pos -> c <> x0a ->
  Re.match_at false (abspathpattern root) pos (c :: t) = None.
Proof.
  intros Hpos Hc. unfold Re.match_at, abspathpattern.
  cbn [Re.rmatch Re.lit_rest Re.byte_eq].
  replace (Nat.eqb pos 0) with false by (symmetry; apply Nat.eqb_neq; lia).
  apply not_eq_sym, byte_eqb_neq in Hc. now rewrite Hc.
Qed.

Lemma canon_from_no_lf root s :
  forall pos, 0 < pos -> ~ In x0a s -> canon_from root pos s = s.
Proof.
  induction s as [|c t IH]; intros pos Hpos Hlf; [reflexivity|].
  unfold canon_from. rewrite sub_from_nomatch.
  - f_equal. apply IH; [lia|]. intros H. apply Hlf. now right.
  - apply abspath_needs_lf; [assumption|]. intros ->. apply Hlf. now left.
Qed.

(** Content in which the pattern matches nowhere is left as it is. *)
Lemma canon_from_no_match root s :
  forall pos, header_match_from root pos s = false -> canon_from root pos s = s.
Proof.
  induction s as [|c t IH]; intros pos H; [reflexivity|].
  cbn [header_match_from] in H.
  destruct (Re.match_at false (abspathpattern root) pos (c :: t)) eqn:E;
    [discriminate|].
  unfold canon_from. rewrite sub_from_nomatch by exact E.
  f_equal. now apply IH.
Qed.

Lemma skipn_header hdr (w : byte) dir root rest :
  is_header hdr ->
  skipn (4 + length dir + length root) (hdr ++ w :: dir ++ root ++ rest) = rest.
Proof.
  intros Hh.
  replace (hdr ++ w :: dir ++ root ++ rest)
    with ((hdr ++ w :: dir ++ root) ++ rest).
  - replace (4 + length dir + length root)
      with (length (hdr ++ w :: dir ++ root)); [apply skipn_length_app|].
    rewrite length_app. cbn [length]. rewrite length_app.
    destruct Hh; subst; simpl; lia.
  - rewrite <- app_assoc. cbn [app]. now rewrite <- app_assoc.
Qed.

(** The match of the pattern on a header, after the text [g1] that group 1
    took. *)
Lemma abspath_header_caps root hdr w dir rest p (g1 : bytes) :
  is_header hdr -> Py.isspace w = true ->
  dir_prefix dir -> last_root_occurrence root rest ->
  exists m,
    Re.rmatch false
      (Re.Seq (Re.Group 2 (Re.Alt (Re.Lit "---") (Re.Lit "+++")))
         (Re.Seq (Re.Group 3 (Re.Class Py.isspace))
            (Re.Seq (Re.Opt (Re.Group 4
                       (Re.Seq (Re.Star (fun b => negb (Py.isspace b)))
                               (Re.Lit "/"))))
               (Re.Group 5 (Re.Lit root)))))
      p (hdr ++ w :: dir ++ root ++ rest) [(1, g1)]
      (fun e s' g' => Some (Re.MatchObj e s' g')) = Some m
    /\ Re.m_end m = p + 4 + length dir + length root
    /\ Re.expand [Re.RRef 1; Re.RRef 2; Re.RRef 3; Re.RRef 4] (Re.m_caps m)
       = g1 ++ hdr ++ w :: dir.
Proof.
  intros Hh Hw Hdir Hlast. eexists. split; [|split].
  - apply header_then_match; [assumption|assumption|].
    now apply prefix_and_root_match.
  - cbn [Re.m_end]. lia.
  - cbn [Re.m_caps Re.expand flat_map].
    destruct dir as [|c d]; cbn [Re.group Nat.eqb]; rewrite ?app_nil_r;
      reflexivity.
Qed.

(** C3 (amended).  The root path has no regular-expression metacharacter,
    so that the pattern is the one modelled.  Where a line starts with
    [---] or [+++], one whitespace byte, an optional whitespace-free directory prefix that ends in a
    slash, and the root path, [_canonicalizepatchcontent] deletes the root
    path and keeps the prefix: [--- dir/ROOT/x] becomes [--- dir//x].  This
    holds at the start of the content and after a line feed, for the last
    place in the path where the root path follows a slash; the scan then
    goes on with what follows.  A rest with no line feed is copied. *)
Theorem canonicalize_deletes_root :
  forall root hdr w dir rest,
    re_plain root = true ->
    is_header hdr ->
    Py.isspace w = true ->
    dir_prefix dir ->
    last_root_occurrence root rest ->
    _canonicalizepatchcontent (hdr ++ w :: dir ++ root ++ rest) root
    = hdr ++ w :: dir ++ canon_from root (4 + length dir + length root) rest
    /\ (forall pos,
          canon_from root pos (LF :: hdr ++ w :: dir ++ root ++ rest)
          = LF :: hdr ++ w :: dir
            ++ canon_from root (pos + 5 + length dir + length root) rest)
    /\ (~ In LF rest ->
        _canonicalizepatchcontent (hdr ++ w :: dir ++ root ++ rest) root
        = hdr ++ w :: dir ++ rest).
Proof.
  intros root hdr w dir rest _ Hh Hw Hdir Hlast.
  assert (Hstart :
    _canonicalizepatchcontent (hdr ++ w :: dir ++ root ++ rest) root
    = hdr ++ w :: dir ++ canon_from root (4 + length dir + length root) rest).
  { destruct (@abspath_header_caps root hdr w dir rest 0 [] Hh Hw Hdir Hlast)
      as (m & Hm & Hend & Hexp).
    apply abspath_match_start in Hm.
    unfold _canonicalizepatchcontent, Re.sub.
    rewrite (@sub_from_match _ _ _ _ _ _ Hm).
    - rewrite Hexp, Hend, Nat.sub_0_r.
      replace (0 + 4 + length dir + length root)
        with (4 + length dir + length root) by lia.
      rewrite (skipn_header w dir root rest Hh).
      change ([] ++ hdr ++ w :: dir) with (hdr ++ w :: dir).
      rewrite <- app_assoc. reflexivity.
    - lia.
    - destruct Hh; subst; discriminate. }
  split; [exact Hstart|]. split.
  - intros pos.
    destruct (@abspath_header_caps root hdr w dir rest (S pos) [x0a]
                Hh Hw Hdir Hlast) as (m & Hm & Hend & Hexp).
    apply abspath_match_lf in Hm.
    unfold canon_from. rewrite (@sub_from_match _ _ _ _ _ _ Hm).
    + rewrite Hexp, Hend.
      replace (S pos + 4 + length dir + length root - pos)
        with (S (4 + length dir + length root)) by lia.
      replace (S pos + 4 + length dir + length root)
        with (pos + 5 + length dir + length root) by lia.
      change (skipn (S (4 + length dir + length root))
                (x0a :: hdr ++ w :: dir ++ root ++ rest))
        with (skipn (4 + length dir + length root)
                (hdr ++ w :: dir ++ root ++ rest)).
      rewrite (skipn_header w dir root rest Hh).
      change ([x0a] ++ hdr ++ w :: dir) with (x0a :: (hdr ++ w :: dir)).
      cbn [app]. rewrite <- app_assoc. reflexivity.
    + lia.
    + discriminate.
  - intros Hlf. rewrite Hstart. now rewrite canon_from_no_lf by (auto; lia).
Qed.

Lemma canonicalize_deletes_root_witness :
  _canonicalizepatchcontent ("---" ++ x20 :: "a/" ++ "tp/foo" ++ "/x.c") "tp/foo"
  = "---" ++ x20 :: "a/"
    ++ canon_from "tp/foo" (4 + length "a/" + length "tp/foo") "/x.c"
  /\ (forall pos,
        canon_from "tp/foo" pos
          (LF :: "---" ++ x20 :: "a/" ++ "tp/foo" ++ "/x.c")
        = LF :: "---" ++ x20 :: "a/"
          ++ canon_from "tp/foo" (pos + 5 + length "a/" + length "tp/foo")
               "/x.c")
  /\ (~ In LF "/x.c" ->
      _canonicalizepatchcontent
        ("---" ++ x20 :: "a/" ++ "tp/foo" ++ "/x.c") "tp/foo"
      = "---" ++ x20 :: "a/" ++ "/x.c").
Proof.
  apply (@canonicalize_deletes_root "tp/foo" "---" x20 "a/" "/x.c").
  - reflexivity.
  - left. reflexivity.
  - reflexivity.
  - right. exists "a". split; [reflexivity|]. repeat constructor.
  - intros p q H Hp.
    assert (Hlen : length p + length q = 3).
    { apply (f_equal (@length byte)) in H. rewrite !length_app in H.
      simpl in H. lia. }
    destruct p as [|p0 [|p1 [|p2 [|p3 p]]]]; simpl in Hlen; try lia;
      discriminate H.
Defined.

(** C3, as the claim states it, fails: the rewritten line keeps the
    directory prefix and has lost the root path. *)
Lemma canonicalize_keeps_prefix :
  _canonicalizepatchcontent
    ("--- a/tp/foo/x.c" ++ [LF] ++ "+++ b/tp/foo/x.c" ++ [LF]) "tp/foo"
  = "--- a//x.c" ++ [LF] ++ "+++ b//x.c" ++ [LF]
  /\ _canonicalizepatchcontent
       ("--- a/tp/foo/x.c" ++ [LF] ++ "+++ b/tp/foo/x.c" ++ [LF]) "tp/foo"
     <> "--- tp/foo/x.c" ++ [LF] ++ "+++ tp/foo/x.c" ++ [LF].
Proof. split; [reflexivity | discriminate]. Qed.

(** *** Every match of the pattern is a header with the root path *)

Lemma try_down_some {R} (f : nat -> option R) n x :
  Re.try_down n f = Some x -> exists j, j <= n /\ f j = Some x.
Proof.
  induction n as [|n IH]; simpl.
  - destruct (f 0) eqn:E; [|discriminate]. intros [= <-]. exists 0. auto.
  - destruct (f (S n)) eqn:E.
    + intros [= <-]. exists (S n). auto.
    + intros H. destruct (IH H) as (j & Hj & Hf). exists j. auto.
Qed.

Lemma rmatch_class ic R p pos s g (k : Re.cont R) :
  Re.rmatch ic (Re.Class p) pos s g k
  = match s with
    | c :: t => if p c then k (S pos) t g else None
    | [] => None
    end.
Proof. reflexivity. Qed.

Lemma rmatch_opt ic R r1 pos s g (k : Re.cont R) :
  Re.rmatch ic (Re.Opt r1) pos s g k
  = match Re.rmatch ic r1 pos s g k with
    | Some x => Some x
    | None => k pos s g
    end.
Proof. reflexivity. Qed.

Lemma rmatch_star ic R p pos s g (k : Re.cont R) :
  Re.rmatch ic (Re.Star p) pos s g k
  = Re.try_down (Re.run p s) (fun j => k (pos + j) (skipn j s) g).
Proof. reflexivity. Qed.

Lemma firstn_succ_slash (s : bytes) j rest :
  j <= length s -> skipn j s = "/" ++ rest ->
  firstn (j + 1) s = firstn j s ++ "/".
Proof.
  revert s. induction j as [|j IH]; intros s Hj H.
  - cbn [skipn] in H. subst s. reflexivity.
  - destruct s as [|c s]; [simpl in Hj; lia|].
    cbn [skipn] in H. cbn [Nat.add firstn app]. f_equal.
    apply IH; [simpl in Hj; lia | exact H].
Qed.

(** The end of the pattern: what it takes is a prefix as [dir_prefix]
    describes and the root path. *)
Lemma prefix_and_root_shape root p0 s2 g m :
  Re.rmatch false
    (Re.Seq (Re.Opt (Re.Group 4
               (Re.Seq (Re.Star (fun b => negb (Py.isspace b)))
                       (Re.Lit "/"))))
            (Re.Group 5 (Re.Lit root)))
    p0 s2 g (fun e s' g' => Some (Re.MatchObj e s' g')) = Some m ->
  exists g4 rest,
    s2 = g4 ++ root ++ rest
    /\ dir_prefix g4
    /\ Re.m_end m = p0 + length g4 + length root
    /\ Re.m_caps m
       = (5, root) :: match g4 with [] => g | _ :: _ => (4, g4) :: g end.
Proof.
  rewrite rmatch_seq, rmatch_opt, rmatch_group, rmatch_seq, rmatch_star.
  match goal with
  | |- match ?X with _ => _ end = _ -> _ => destruct X as [x|] eqn:E
  end.
  - intros [= ->]. apply try_down_some in E as (j & Hj & E).
    rewrite rmatch_lit in E.
    destruct (Re.lit_rest false "/" (skipn j s2)) as [s3|] eqn:E1;
      [|discriminate E].
    rewrite rmatch_group, rmatch_lit in E.
    destruct (Re.lit_rest false root s3) as [s4|] eqn:E2; [|discriminate E].
    injection E as <-. cbn [Re.m_end Re.m_caps].
    apply lit_rest_iff in E1, E2. subst s3.
    assert (Hlen : j <= length s2).
    { etransitivity; [exact Hj | apply run_le]. }
    assert (Hg4 : firstn (p0 + j + 1 - p0) s2 = firstn j s2 ++ "/").
    { replace (p0 + j + 1 - p0) with (j + 1) by lia.
      eapply firstn_succ_slash; [exact Hlen | exact E1]. }
    exists (firstn j s2 ++ "/"), s4. split; [|split; [|split]].
    + rewrite <- (firstn_skipn j s2) at 1. rewrite E1.
      now rewrite <- !app_assoc.
    + right. exists (firstn j s2). split; [reflexivity|].
      now apply nonspace_run_prefix.
    + rewrite length_app, length_firstn. cbn [length].
      rewrite Nat.min_l by exact Hlen. lia.
    + rewrite Hg4.
      replace (p0 + j + 1 + length root - (p0 + j + 1))
        with (length root) by lia.
      rewrite firstn_length_app.
      destruct (firstn j s2 ++ "/") as [|c d] eqn:Ed; [|reflexivity].
      apply (f_equal (@length byte)) in Ed. rewrite length_app in Ed.
      simpl in Ed. lia.
  - rewrite rmatch_group, rmatch_lit.
    destruct (Re.lit_rest false root s2) as [s4|] eqn:E2; [|discriminate].
    intros [= <-]. cbn [Re.m_end Re.m_caps].
    apply lit_rest_iff in E2. subst s2.
    exists [], s4. split; [reflexivity|]. split; [now left|].
    split; [cbn [length]; lia|].
    replace (p0 + length root - p0) with (length root) by lia.
    now rewrite firstn_length_app.
Qed.

Lemma blank_then_shape root p1 s1 g m :
  Re.rmatch false
    (Re.Seq (Re.Group 3 (Re.Class Py.isspace))
       (Re.Seq (Re.Opt (Re.Group 4
                  (Re.Seq (Re.Star (fun b => negb (Py.isspace b)))
                          (Re.Lit "/"))))
          (Re.Group 5 (Re.Lit root))))
    p1 s1 g (fun e s' g' => Some (Re.MatchObj e s' g')) = Some m ->
  exists w g4 rest,
    s1 = w :: g4 ++ root ++ rest
    /\ Py.isspace w = true
    /\ dir_prefix g4
    /\ Re.m_end m = S p1 + length g4 + length root
    /\ Re.m_caps m
       = (5, root) :: match g4 with
                      | [] => (3, [w]) :: g
                      | _ :: _ => (4, g4) :: (3, [w]) :: g
                      end.
Proof.
  rewrite rmatch_seq, rmatch_group, rmatch_class.
  destruct s1 as [|w s2]; [discriminate|].
  destruct (Py.isspace w) eqn:Hw; [|discriminate].
  intros H. apply prefix_and_root_shape in H as (g4 & rest & -> & Hd & He & Hc).
  exists w, g4, rest. repeat split; try assumption.
  rewrite Hc. replace (S p1 - p1) with 1 by lia. reflexivity.
Qed.

Lemma header_shape root p s (g1 : bytes) m :
  Re.rmatch false
    (Re.Seq (Re.Group 2 (Re.Alt (Re.Lit "---") (Re.Lit "+++")))
       (Re.Seq (Re.Group 3 (Re.Class Py.isspace))
          (Re.Seq (Re.Opt (Re.Group 4
                     (Re.Seq (Re.Star (fun b => negb (Py.isspace b)))
                             (Re.Lit "/"))))
             (Re.Group 5 (Re.Lit root)))))
    p s [(1, g1)] (fun e s' g' => Some (Re.MatchObj e s' g')) = Some m ->
  exists hdr w g4 rest,
    s = hdr ++ w :: g4 ++ root ++ rest
    /\ is_header hdr
    /\ Py.isspace w = true
    /\ dir_prefix g4
    /\ Re.m_end m = p + 4 + length g4 + length root
    /\ Re.expand [Re.RRef 1; Re.RRef 2; Re.RRef 3; Re.RRef 4] (Re.m_caps m)
       = g1 ++ hdr ++ w :: g4.
Proof.
  rewrite rmatch_seq, rmatch_group, rmatch_alt, !rmatch_lit.
  assert (Hbranch : forall lit s1,
            is_header lit -> s = lit ++ s1 ->
            Re.rmatch false
              (Re.Seq (Re.Group 3 (Re.Class Py.isspace))
                 (Re.Seq (Re.Opt (Re.Group 4
                            (Re.Seq (Re.Star (fun b => negb (Py.isspace b)))
                                    (Re.Lit "/"))))
                    (Re.Group 5 (Re.Lit root))))
              (p + length lit) s1 [(2, firstn (p + length lit - p) s); (1, g1)]
              (fun e s' g' => Some (Re.MatchObj e s' g')) = Some m ->
            exists hdr w g4 rest,
              s = hdr ++ w :: g4 ++ root ++ rest
              /\ is_header hdr /\ Py.isspace w = true /\ dir_prefix g4
              /\ Re.m_end m = p + 4 + length g4 + length root
              /\ Re.expand [Re.RRef 1; Re.RRef 2; Re.RRef 3; Re.RRef 4]
                   (Re.m_caps m) = g1 ++ hdr ++ w :: g4).
  { intros lit s1 Hlit -> H.
    apply blank_then_shape in H as (w & g4 & rest & -> & Hw & Hd & He & Hc).
    exists lit, w, g4, rest. split; [reflexivity|].
    assert (Hl3 : length lit = 3) by (destruct Hlit; subst; reflexivity).
    repeat split; try assumption; [lia|].
    rewrite Hc. replace (p + length lit - p) with (length lit) by lia.
    rewrite firstn_length_app.
    destruct g4; cbn [Re.expand flat_map Re.group Nat.eqb];
      rewrite ?app_nil_r; reflexivity. }
  destruct (Re.lit_rest false "---" s) as [s1|] eqn:E1.
  - apply lit_rest_iff in E1.
    match goal with
    | |- match ?X with _ => _ end = _ -> _ => destruct X as [x|] eqn:E
    end.
    + intros [= ->]. apply (Hbranch "---" s1); [now left | exact E1 | exact E].
    + destruct (Re.lit_rest false "+++" s) as [s1'|] eqn:E3; [|discriminate].
      apply lit_rest_iff in E3. subst s. discriminate E3.
  - destruct (Re.lit_rest false "+++" s) as [s1|] eqn:E3; [|discriminate].
    apply lit_rest_iff in E3. intros H.
    apply (Hbranch "+++" s1); [now right | exact E3 | exact H].
Qed.

(** Every match of the pattern: what group 1 took ([] at the start of the
    content, or a line feed), a header, a blank, a prefix, and the root
    path; the template gives back all of it but the root path. *)
Lemma abspath_match_shape root pos s m :
  Re.match_at false (abspathpattern root) pos s = Some m ->
  exists g1 hdr w g4 rest,
    s = g1 ++ hdr ++ w :: g4 ++ root ++ rest
    /\ (g1 = [] /\ pos = 0 \/ g1 = [x0a])
    /\ is_header hdr
    /\ Py.isspace w = true
    /\ dir_prefix g4
    /\ Re.m_end m = pos + length g1 + 4 + length g4 + length root
    /\ Re.expand [Re.RRef 1; Re.RRef 2; Re.RRef 3; Re.RRef 4] (Re.m_caps m)
       = g1 ++ hdr ++ w :: g4.
Proof.
  unfold Re.match_at, abspathpattern.
  rewrite rmatch_seq, rmatch_group, rmatch_alt, rmatch_bol, rmatch_lit.
  match goal with
  | |- match ?X with _ => _ end = _ -> _ => destruct X as [x|] eqn:E
  end.
  - intros [= ->]. destruct (Nat.eqb pos 0) eqn:Ep; [|discriminate E].
    apply Nat.eqb_eq in Ep. subst pos.
    apply header_shape in E as (hdr & w & g4 & rest & Hs & H).
    exists [], hdr, w, g4, rest. cbn [app length].
    split; [exact Hs|]. split; [now left|]. exact H.
  - destruct (Re.lit_rest false [x0a] s) as [s1|] eqn:E1; [|discriminate].
    apply lit_rest_iff in E1. subst s. intros H.
    replace (firstn (pos + length [x0a] - pos) ([x0a] ++ s1)) with [x0a] in H
      by (replace (pos + length [x0a] - pos) with 1 by (simpl; lia);
          reflexivity).
    apply header_shape in H as (hdr & w & g4 & rest & -> & Hh & Hw & Hd & He & Hx).
    exists [x0a], hdr, w, g4, rest. cbn [length] in *.
    split; [reflexivity|]. split; [now right|].
    repeat split; try assumption; lia.
Qed.

Lemma canon_from_match_step root pos s m :
  Re.match_at false (abspathpattern root) pos s = Some m ->
  exists kept rest,
    s = kept ++ root ++ rest
    /\ kept <> []
    /\ canon_from root pos s
       = kept ++ canon_from root (Re.m_end m) rest.
Proof.
  intros Hm.
  destruct (abspath_match_shape _ _ _ Hm)
    as (g1 & hdr & w & g4 & rest & Hs & _ & Hh & _ & _ & He & Hx).
  exists (g1 ++ hdr ++ w :: g4), rest.
  assert (Hs' : s = (g1 ++ hdr ++ w :: g4) ++ root ++ rest).
  { rewrite Hs. rewrite <- !app_assoc. cbn [app]. reflexivity. }
  assert (Hl3 : length hdr = 3) by (destruct Hh; subst; reflexivity).
  split; [exact Hs'|]. split.
  - intros H0. apply (f_equal (@length byte)) in H0.
    rewrite !length_app in H0. simpl in H0. lia.
  - unfold canon_from. rewrite (@sub_from_match _ _ _ _ _ _ Hm).
    + rewrite Hx. f_equal. f_equal.
      rewrite Hs' at 1. rewrite app_assoc.
      replace (Re.m_end m - pos)
        with (length ((g1 ++ hdr ++ w :: g4) ++ root)).
      * apply skipn_length_app.
      * rewrite He, !length_app. cbn [length]. lia.
    + lia.
    + rewrite Hs. destruct g1; [destruct Hh; subst|]; discriminate.
Qed.

Lemma canon_from_length root n :
  forall s pos, length s <= n -> length (canon_from root pos s) <= length s.
Proof.
  induction n as [|n IH]; intros s pos Hn.
  - destruct s; [simpl; lia | simpl in Hn; lia].
  - destruct (Re.match_at false (abspathpattern root) pos s) as [m|] eqn:Hm.
    + destruct (canon_from_match_step _ _ _ Hm) as (kept & rest & Hs & Hk & Hc).
      rewrite Hc, Hs, !length_app.
      assert (length kept > 0) by (destruct kept; [congruence | simpl; lia]).
      assert (length rest <= n).
      { rewrite Hs, !length_app in Hn. lia. }
      specialize (IH rest (Re.m_end m) ltac:(assumption)). lia.
    + destruct s as [|c t]; [simpl; lia|].
      unfold canon_from. rewrite sub_from_nomatch by exact Hm.
      cbn [length]. simpl in Hn.
      specialize (IH t (S pos) ltac:(lia)). unfold canon_from in IH. lia.
Qed.

(** With a root path that is not empty, content in which the pattern
    matches somewhere gets shorter. *)
Lemma canon_from_shrinks root s :
  root <> [] ->
  forall pos,
    header_match_from root pos s = true ->
    length (canon_from root pos s) < length s.
Proof.
  intros Hroot. induction s as [|c t IH]; intros pos H.
  - cbn [header_match_from] in H.
    destruct (Re.match_at false (abspathpattern root) pos []) as [m|] eqn:Hm;
      [|discriminate].
    destruct (canon_from_match_step _ _ _ Hm) as (kept & rest & Hs & Hk & _).
    destruct kept; [congruence | discriminate].
  - cbn [header_match_from] in H.
    destruct (Re.match_at false (abspathpattern root) pos (c :: t))
      as [m|] eqn:Hm.
    + destruct (canon_from_match_step _ _ _ Hm) as (kept & rest & Hs & Hk & Hc).
      rewrite Hc, Hs, !length_app.
      pose proof (@canon_from_length root (length rest) rest (Re.m_end m)
                    (le_n _)).
      assert (length root > 0) by (destruct root; [congruence | simpl; lia]).
      lia.
    + unfold canon_from. rewrite sub_from_nomatch by exact Hm.
      cbn [length]. specialize (IH (S pos) H). unfold canon_from in IH. lia.
Qed.

(** C9 (amended).  The root path has no regular-expression metacharacter.
    A second application changes nothing when the result of the first has
    no place left where the pattern matches; and, for a
    root path that is not empty, only then: an application that finds the
    pattern deletes a root path and gives a shorter text. *)
Theorem canonicalize_twice_iff_no_match :
  forall content root,
    re_plain root = true ->
    (has_header_match root (_canonicalizepatchcontent content root) = false ->
     _canonicalizepatchcontent (_canonicalizepatchcontent content root) root
     = _canonicalizepatchcontent content root)
    /\ (root <> [] ->
        _canonicalizepatchcontent (_canonicalizepatchcontent content root) root
        = _canonicalizepatchcontent content root ->
        has_header_match root (_canonicalizepatchcontent content root) = false).
Proof.
  intros content root _. split.
  - intros H. now apply (canon_from_no_match root _ 0).
  - intros Hroot Heq.
    destruct (has_header_match root (_canonicalizepatchcontent content root))
      eqn:E; [|reflexivity].
    apply (@canon_from_shrinks root _ Hroot 0) in E.
    change (canon_from root 0 (_canonicalizepatchcontent content root))
      with (_canonicalizepatchcontent
              (_canonicalizepatchcontent content root) root) in E.
    rewrite Heq in E. lia.
Qed.

Lemma canonicalize_twice_iff_no_match_witness :
  (has_header_match "tp/foo"
     (_canonicalizepatchcontent ("--- a/tp/foo/x.c" ++ [LF]) "tp/foo") = false ->
   _canonicalizepatchcontent
     (_canonicalizepatchcontent ("--- a/tp/foo/x.c" ++ [LF]) "tp/foo") "tp/foo"
   = _canonicalizepatchcontent ("--- a/tp/foo/x.c" ++ [LF]) "tp/foo")
  /\ ("tp/foo" <> [] ->
      _canonicalizepatchcontent
        (_canonicalizepatchcontent ("--- a/tp/foo/x.c" ++ [LF]) "tp/foo")
        "tp/foo"
      = _canonicalizepatchcontent ("--- a/tp/foo/x.c" ++ [LF]) "tp/foo" ->
      has_header_match "tp/foo"
        (_canonicalizepatchcontent ("--- a/tp/foo/x.c" ++ [LF]) "tp/foo")
      = false).
Proof.
  apply (@canonicalize_twice_iff_no_match ("--- a/tp/foo/x.c" ++ [LF])
           "tp/foo").
  reflexivity.
Defined.

(** C9, as the claim states it, fails: each application deletes one more
    occurrence of the root path. *)
Lemma canonicalize_not_idempotent :
  _canonicalizepatchcontent "--- rootroot" "root" = "--- root"
  /\ _canonicalizepatchcontent
       (_canonicalizepatchcontent "--- rootroot" "root") "root" = "--- "
  /\ _canonicalizepatchcontent
       (_canonicalizepatchcontent "--- rootroot" "root") "root"
     <> _canonicalizepatchcontent "--- rootroot" "root".
Proof. repeat split; discriminate. Qed.

(** * Further properties *)

(** ** The two parts of a patch file *)

Lemma lstrip_idem s : Py.lstrip (Py.lstrip s) = Py.lstrip s.
Proof.
  induction s as [|c t IH]; [reflexivity|]. simpl.
  destruct (Py.isspace c) eqn:E; [exact IH|]. simpl. now rewrite E.
Qed.

Lemma concat_firstn_skipn {A} n (l : list (list A)) :
  concat (firstn n l) ++ concat (skipn n l) = concat l.
Proof. now rewrite <- concat_app, firstn_skipn. Qed.

Lemma free_of_markers_check s :
  forallb (fun l => negb (Py.startswith_any spec_diff_markers l))
          (Py.splitlines true s) = true ->
  free_of_markers s.
Proof.
  intros H. apply Forall_forall. intros l Hl.
  rewrite forallb_forall in H. apply negb_true_iff. now apply H.
Qed.

(** X1.  Whatever the patch file holds, [_separatepatchdescription] gives
    as diff part a tail of the content with the leading whitespace trimmed,
    and as description a text without trailing whitespace: the diff part
    has no leading whitespace and nothing in it comes from elsewhere. *)
Theorem separate_parts_trimmed :
  forall patchcontent,
    let '(patchdiff, patchdesc) := _separatepatchdescription patchcontent in
    (exists head tail,
       patchcontent = head ++ tail /\ patchdiff = Py.lstrip tail)
    /\ Py.lstrip patchdiff = patchdiff
    /\ Py.rstrip patchdesc = patchdesc.
Proof.
  intros patchcontent. unfold _separatepatchdescription.
  destruct (separate_loop 0 (Py.splitlines true patchcontent ++ [[]]))
    as [i desclines] eqn:E.
  split; [|split].
  - exists (concat (firstn i (Py.splitlines true patchcontent))),
           (concat (skipn i (Py.splitlines true patchcontent))).
    split.
    + pose proof (concat_firstn_skipn i (Py.splitlines true patchcontent)) as H.
      rewrite concat_splitlines in H. symmetry. exact H.
    + now rewrite concat_skipn_sentinel.
  - apply lstrip_idem.
  - apply rstrip_idem.
Qed.

(** X2.  A patch file in which no line starts with [--- ], [diff --git],
    [rename from] or [Index: ] is all description: the diff part is empty,
    and the description is the content with its lines trimmed. *)
Theorem separate_description_only :
  forall patchcontent,
    free_of_markers patchcontent ->
    _separatepatchdescription patchcontent = ([], trimmed_lines patchcontent).
Proof.
  intros patchcontent Hfree. unfold _separatepatchdescription.
  set (L := Py.splitlines true patchcontent).
  assert (HD : Forall (fun l => Py.startswith_any spec_diff_markers l = false)
                 (L ++ [[]])).
  { apply Forall_app. split; [exact Hfree|]. repeat constructor. }
  pose proof (@separate_loop_app (L ++ [[]]) 0 [] HD) as Hloop.
  rewrite app_nil_r in Hloop. rewrite Hloop. cbn [separate_loop fst snd].
  rewrite app_nil_r, length_app. cbn [length Nat.add].
  replace (length L + 1 - 1) with (length L) by lia.
  rewrite skipn_length_app. cbn [concat Py.lstrip app]. f_equal.
  change (Py.rstrip (Py.join [x0a] (map Py.rstrip (L ++ [[]]))))
    with (norm_lines (L ++ [[]])).
  now rewrite norm_lines_snoc_blank.
Qed.

Lemma separate_description_only_witness :
  _separatepatchdescription ("Notes only. " ++ [LF] ++ "No diff here.")
  = ([], trimmed_lines ("Notes only. " ++ [LF] ++ "No diff here.")).
Proof.
  apply (@separate_description_only ("Notes only. " ++ [LF] ++ "No diff here.")).
  apply free_of_markers_check. vm_compute. reflexivity.
Defined.

Lemma marker_first_line body :
  Py.startswith_any diff_markers body = true ->
  exists l ls,
    Py.splitlines true body = l :: ls
    /\ Py.startswith_any diff_markers l = true.
Proof.
  unfold Py.startswith_any, diff_markers. cbn [existsb].
  rewrite !orb_true_iff. intros [H|[H|[H|H]]]; [| | |discriminate].
  all: match type of H with
       | Py.startswith ?m _ = true =>
           destruct (@startswith_first_line m) with (s := body)
             as (l & ls & Hl & Hs);
             [repeat (constructor; [reflexivity|]); constructor
             | discriminate | exact H |]
       end.
  all: exists l, ls; split; [exact Hl|]; rewrite Hs; cbn [orb];
    rewrite ?orb_true_r; reflexivity.
Qed.

Lemma marker_lstrip body :
  Py.startswith_any diff_markers body = true -> Py.lstrip body = body.
Proof.
  unfold Py.startswith_any, diff_markers. cbn [existsb].
  rewrite !orb_true_iff. intros [H|[H|[H|H]]]; [| | |discriminate].
  all: apply startswith_iff in H as [t ->]; reflexivity.
Qed.

(** The split at a line that starts with one of the three markers, for
    a content whose lines are the marker-free lines [D] and then the lines
    of [body]. *)
Lemma separate_lines_at_marker content D body :
  Py.splitlines true content = D ++ Py.splitlines true body ->
  Forall (fun l => Py.startswith_any spec_diff_markers l = false) D ->
  Py.startswith_any diff_markers body = true ->
  _separatepatchdescription content = (body, norm_lines D).
Proof.
  intros Hlines HD Hbody.
  unfold _separatepatchdescription. rewrite Hlines, <- app_assoc.
  rewrite (@separate_loop_app D 0 _ HD).
  destruct (marker_first_line _ Hbody) as (l & ls & Hl & Hs).
  rewrite Hl. cbn [app separate_loop]. rewrite Hs. cbn [fst snd Nat.add].
  rewrite app_nil_r, skipn_length_app.
  change (l :: ls ++ [[]]) with ((l :: ls) ++ [[]]). rewrite <- Hl.
  rewrite concat_app, concat_splitlines. cbn [concat]. rewrite !app_nil_r.
  now rewrite (marker_lstrip _ Hbody).
Qed.

(** X3.  The description ends where the first line starts with [--- ],
    [diff --git] or [rename from], with or without a blank line before it:
    for a content made of marker-free lines [before] (nothing, or text up
    to a line feed) and a [body] that starts with one of the three
    markers, the diff part is [body], unchanged, and the description is
    [before] with its lines trimmed. *)
Theorem separate_at_first_marker :
  forall before body,
    (before = [] \/ exists b, before = b ++ [LF]) ->
    free_of_markers before ->
    Py.startswith_any diff_markers body = true ->
    _separatepatchdescription (before ++ body) = (body, trimmed_lines before).
Proof.
  intros before body Hb Hfree Hbody.
  apply separate_lines_at_marker; [|exact Hfree|exact Hbody].
  destruct Hb as [->|[b ->]]; [reflexivity|].
  rewrite <- app_assoc. cbn [app]. apply splitlines_app_lf_any.
Qed.

Lemma separate_at_first_marker_witness :
  _separatepatchdescription (("Why. " ++ [LF]) ++ Toy.b_diff)
  = (Toy.b_diff, trimmed_lines ("Why. " ++ [LF])).
Proof.
  apply (@separate_at_first_marker ("Why. " ++ [LF]) Toy.b_diff).
  - right. exists "Why. ". reflexivity.
  - apply free_of_markers_check. vm_compute. reflexivity.
  - reflexivity.
Defined.

(** ** What [_canonicalizepatchcontent] can change *)

Lemma deletes_root_keep_app root kept :
  forall s out,
    deletes_root root s out -> deletes_root root (kept ++ s) (kept ++ out).
Proof.
  induction kept as [|c kept IH]; intros s out H; [exact H|].
  cbn [app]. apply deletes_keep. now apply IH.
Qed.

Lemma canon_from_deletes root n :
  forall s pos, length s <= n -> deletes_root root s (canon_from root pos s).
Proof.
  induction n as [|n IH]; intros s pos Hn.
  - destruct s; [apply deletes_nil | simpl in Hn; lia].
  - destruct (Re.match_at false (abspathpattern root) pos s) as [m|] eqn:Hm.
    + destruct (canon_from_match_step _ _ _ Hm) as (kept & rest & Hs & Hk & Hc).
      rewrite Hc. rewrite Hs at 1.
      apply deletes_root_keep_app, deletes_cut, IH.
      assert (length kept > 0) by (destruct kept; [congruence | simpl; lia]).
      rewrite Hs, !length_app in Hn. lia.
    + destruct s as [|c t]; [apply deletes_nil|].
      unfold canon_from. rewrite sub_from_nomatch by exact Hm.
      apply deletes_keep. apply IH. simpl in Hn. lia.
Qed.

(** X4.  For a root path without regular-expression metacharacter,
    [_canonicalizepatchcontent] only ever cuts occurrences of the root path
    out of the content: every other byte stays, in place and in order, and
    the result is never longer than the content. *)
Theorem canonicalize_only_deletes_root :
  forall patchcontent rootpath,
    re_plain rootpath = true ->
    deletes_root rootpath patchcontent
      (_canonicalizepatchcontent patchcontent rootpath)
    /\ length (_canonicalizepatchcontent patchcontent rootpath)
       <= length patchcontent.
Proof.
  intros patchcontent rootpath _. split.
  - apply (@canon_from_deletes rootpath (length patchcontent)). lia.
  - apply (@canon_from_length rootpath (length patchcontent)). lia.
Qed.

Lemma canonicalize_only_deletes_root_witness :
  deletes_root "tp/foo" ("--- a/tp/foo/x.c" ++ [LF])
    (_canonicalizepatchcontent ("--- a/tp/foo/x.c" ++ [LF]) "tp/foo")
  /\ length (_canonicalizepatchcontent ("--- a/tp/foo/x.c" ++ [LF]) "tp/foo")
     <= length ("--- a/tp/foo/x.c" ++ [LF]).
Proof.
  apply (@canonicalize_only_deletes_root ("--- a/tp/foo/x.c" ++ [LF]) "tp/foo").
  reflexivity.
Defined.

(** ** [_hgdifftopatch], line by line *)

Lemma startswith_app_r p : forall s t,
  Py.startswith p s = true -> Py.startswith p (s ++ t) = true.
Proof.
  intros s t [u ->]%startswith_iff. rewrite <- app_assoc. apply startswith_app.
Qed.

Lemma removeprefix_app p s : Py.removeprefix p (p ++ s) = s.
Proof.
  unfold Py.removeprefix. rewrite startswith_app. apply skipn_length_app.
Qed.

Lemma last_n_snoc s (c : byte) : Py.last_n 1 (s ++ [c]) = [c].
Proof.
  unfold Py.last_n. rewrite length_app. cbn [length].
  replace (length s + 1 - 1) with (length s) by lia. apply skipn_length_app.
Qed.

(** X5.  [_hgdifftopatch] works on each line by itself: the conversion of
    a diff is the conversion of its first line followed by the conversion
    of the rest. *)
Theorem hgdifftopatch_app_lf :
  forall a b root,
    _hgdifftopatch (a ++ LF :: b) root
    = _hgdifftopatch (a ++ [LF]) root ++ _hgdifftopatch b root.
Proof.
  intros a b root. unfold _hgdifftopatch.
  now rewrite splitlines_app_lf_any, flat_map_app, concat_app.
Qed.

Lemma hgdifftopatch_one_line l root :
  no_crlf l ->
  _hgdifftopatch (l ++ [LF]) root
  = match hgdiff_line (Py.rstrip_chars "/" root) (l ++ [LF]) with
    | Some out => out
    | None => []
    end.
Proof.
  intros Hl. unfold _hgdifftopatch.
  rewrite splitlines_app_lf by exact Hl. cbn [Py.splitlines flat_map].
  destruct (hgdiff_line _ _); cbn [app concat]; now rewrite ?app_nil_r.
Qed.

(** X6.  What [_hgdifftopatch] makes of one line that ends in a line feed
    and has no other line break: a [diff --git] line is dropped; in a
    [--- ] or [+++ ] line that goes on with the root path (without its
    trailing slashes) the root path becomes [a] or [b], whatever follows
    it; a hunk header loses its trailing whitespace; any other line is
    copied. *)
Theorem hgdifftopatch_line :
  forall l root,
    no_crlf l ->
    let line := l ++ [LF] in
    let base := Py.rstrip_chars "/" root in
    (Py.startswith "diff --git" line = true -> _hgdifftopatch line root = [])
    /\ (forall rest, line = "--- " ++ base ++ rest ->
        _hgdifftopatch line root = "--- a" ++ rest)
    /\ (forall rest, line = "+++ " ++ base ++ rest ->
        _hgdifftopatch line root = "+++ b" ++ rest)
    /\ (Py.startswith "@@ " line = true ->
        _hgdifftopatch line root = Py.rstrip l ++ [LF])
    /\ (Py.startswith "diff --git" line = false ->
        Py.startswith ("--- " ++ base) line = false ->
        Py.startswith ("+++ " ++ base) line = false ->
        Py.startswith "@@ " line = false ->
        _hgdifftopatch line root = line).
Proof.
  intros l root Hl line base.
  pose proof (hgdifftopatch_one_line root Hl) as Hone.
  fold line base in Hone. rewrite Hone. clear Hone.
  repeat split.
  - intros H. unfold hgdiff_line. now rewrite H.
  - intros rest Hline. unfold hgdiff_line. rewrite Hline.
    destruct (Py.startswith "diff --git" ("--- " ++ base ++ rest)) eqn:E.
    { apply startswith_iff in E as [t E]. discriminate E. }
    rewrite (app_assoc "--- " base rest), startswith_app, removeprefix_app.
    reflexivity.
  - intros rest Hline. unfold hgdiff_line. rewrite Hline.
    destruct (Py.startswith "diff --git" ("+++ " ++ base ++ rest)) eqn:E.
    { apply startswith_iff in E as [t E]. discriminate E. }
    destruct (Py.startswith ("--- " ++ base) ("+++ " ++ base ++ rest)) eqn:E2.
    { apply startswith_iff in E2 as [t E2]. discriminate E2. }
    rewrite (app_assoc "+++ " base rest), startswith_app, removeprefix_app.
    reflexivity.
  - intros H. rewrite (hgdiff_line_hunk_header base _ H). unfold line.
    rewrite last_n_snoc. f_equal. apply rstrip_app_space.
    repeat constructor.
  - intros H1 H2 H3 H4. now rewrite hgdiff_line_other.
Qed.

Lemma hgdifftopatch_line_witness :
  let line := "@@ -1 +1 @@ int f()  " ++ [LF] in
  let base := Py.rstrip_chars "/" "tp/foo/" in
  (Py.startswith "diff --git" line = true -> _hgdifftopatch line "tp/foo/" = [])
  /\ (forall rest, line = "--- " ++ base ++ rest ->
      _hgdifftopatch line "tp/foo/" = "--- a" ++ rest)
  /\ (forall rest, line = "+++ " ++ base ++ rest ->
      _hgdifftopatch line "tp/foo/" = "+++ b" ++ rest)
  /\ (Py.startswith "@@ " line = true ->
      _hgdifftopatch line "tp/foo/" = Py.rstrip "@@ -1 +1 @@ int f()  " ++ [LF])
  /\ (Py.startswith "diff --git" line = false ->
      Py.startswith ("--- " ++ base) line = false ->
      Py.startswith ("+++ " ++ base) line = false ->
      Py.startswith "@@ " line = false ->
      _hgdifftopatch line "tp/foo/" = line).
Proof.
  apply (@hgdifftopatch_line "@@ -1 +1 @@ int f()  " "tp/foo/").
  repeat (constructor; [reflexivity|]). constructor.
Defined.

(** X7.  A hunk header that is the last line of the diff and has no line
    terminator comes out with its last byte written twice: [ending] is
    the last byte of the line, whatever it is. *)
Theorem hgdifftopatch_unterminated_hunk_header :
  forall h c root,
    no_crlf (h ++ [c]) ->
    Py.startswith "@@ " (h ++ [c]) = true ->
    Py.isspace c = false ->
    _hgdifftopatch (h ++ [c]) root = h ++ [c; c].
Proof.
  intros h c root Hl Hs Hc. unfold _hgdifftopatch.
  rewrite splitlines_single; [|exact Hl|now destruct h].
  cbn [flat_map]. rewrite (hgdiff_line_hunk_header _ _ Hs).
  cbn [app concat]. rewrite app_nil_r, last_n_snoc.
  rewrite rstrip_app_nonempty.
  - cbn [Py.rstrip]. rewrite Hc. now rewrite <- app_assoc.
  - cbn [Py.rstrip]. rewrite Hc. discriminate.
Qed.

Lemma hgdifftopatch_unterminated_hunk_header_witness :
  _hgdifftopatch ("@@ -1 +1 @" ++ ["@"%byte]) "tp/foo"
  = "@@ -1 +1 @" ++ ["@"%byte; "@"%byte].
Proof.
  apply (@hgdifftopatch_unterminated_hunk_header "@@ -1 +1 @" "@"%byte "tp/foo").
  - repeat (constructor; [reflexivity|]). constructor.
  - reflexivity.
  - reflexivity.
Defined.

(** ** Which changesets are Quahog changesets, which are patches *)

Lemma contains_iff sub : forall s,
  Py.contains sub s = true <-> exists a b, s = a ++ sub ++ b.
Proof.
  induction s as [|c t IH].
  - cbn [Py.contains]. rewrite orb_false_r, startswith_iff. split.
    + intros [b H]. now exists [], b.
    + intros (a & b & H). destruct a; [now exists b|discriminate].
  - cbn [Py.contains]. rewrite orb_true_iff, startswith_iff, IH. split.
    + intros [[b H]|(a & b & H)].
      * now exists [], b.
      * exists (c :: a), b. now rewrite H.
    + intros (a & b & H). destruct a as [|x a].
      * left. now exists b.
      * right. exists a, b. now injection H.
Qed.

Lemma isquahogchange_intro a tag b :
  Py.upper tag = "#QUAHOG" -> _isquahogchange (a ++ tag ++ b) = true.
Proof.
  intros Ht. unfold _isquahogchange. apply contains_iff.
  exists (Py.upper a), (Py.upper b). unfold Py.upper in *.
  now rewrite !map_app, Ht.
Qed.

(** X8.  [_isquahogchange] holds exactly for the descriptions that have
    [#QUAHOG] somewhere, at the start or not, in any mix of upper and lower
    case. *)
Theorem isquahogchange_iff :
  forall description,
    _isquahogchange description = true
    <-> exists a tag b,
          description = a ++ tag ++ b /\ Py.upper tag = "#QUAHOG".
Proof.
  intros description. unfold _isquahogchange. rewrite contains_iff. split.
  - intros (a & b & H). unfold Py.upper in H.
    apply map_eq_app in H as (a' & r & -> & Ha & H).
    apply map_eq_app in H as (tag & b' & -> & Ht & Hb).
    now exists a', tag, b'.
  - intros (a & tag & b & -> & Ht).
    exists (Py.upper a), (Py.upper b). unfold Py.upper in *.
    now rewrite !map_app, Ht.
Qed.

Lemma after_first_slash_some s :
  In "/"%byte s -> exists g, after_first_slash s = Some g.
Proof.
  induction s as [|c t IH]; [intros []|]. intros H. cbn [after_first_slash].
  destruct (Byte.eqb c "/") eqn:E; [now eexists|].
  apply byte_eqb_neq in E. destruct H as [H|H]; [congruence|]. now apply IH.
Qed.

Lemma after_first_slash_none s :
  ~ In "/"%byte s -> after_first_slash s = None.
Proof.
  induction s as [|c t IH]; [reflexivity|]. intros H. cbn [after_first_slash].
  destruct (Byte.eqb c "/") eqn:E.
  - apply byte_eqb_eq in E. subst. exfalso. apply H. now left.
  - apply IH. intros Hin. apply H. now right.
Qed.

Lemma first_line_cons c t :
  c <> x0a -> c <> x0d -> exists l, first_line (c :: t) = Some (c :: l).
Proof.
  intros Hlf Hcr. unfold first_line. rewrite splitlines_cons.
  apply byte_eqb_neq in Hlf, Hcr. rewrite Hlf, Hcr.
  destruct (Py.splitlines false t); eexists; reflexivity.
Qed.

Lemma patchdesc_needs_d_or_bracket c l :
  Re.byte_eq true "d" c = false -> Re.byte_eq true "[" c = false ->
  PATCHDESC_fullmatch (c :: l) = None.
Proof.
  intros Hd Hb. unfold PATCHDESC_fullmatch, Re.fullmatch, PATCHDESC_RE.
  rewrite rmatch_seq, rmatch_opt, rmatch_group, !rmatch_seq, !rmatch_lit.
  cbn [Re.lit_rest]. now rewrite Hd, Hb.
Qed.

Lemma isquahogchange_body g :
  _isquahogchange ("#QUAHOG Modify patches for " ++ g ++ ".") = true.
Proof.
  apply (@isquahogchange_intro [] "#QUAHOG"
           (" Modify patches for " ++ g ++ ".")).
  reflexivity.
Qed.

Lemma after_first_slash_app pre g :
  ~ In "/"%byte pre -> after_first_slash (pre ++ "/" ++ g) = Some g.
Proof.
  induction pre as [|c t IH]; intros H; [reflexivity|].
  cbn [app after_first_slash].
  destruct (Byte.eqb c "/") eqn:E.
  - apply byte_eqb_eq in E. subst. exfalso. apply H. now left.
  - apply IH. intros Hin. apply H. now right.
Qed.

Lemma first_slash_split s :
  In "/"%byte s -> exists pre g, s = pre ++ "/" ++ g /\ ~ In "/"%byte pre.
Proof.
  induction s as [|c t IH]; [intros []|]. intros H.
  destruct (Byte.eqb c "/") eqn:E.
  - apply byte_eqb_eq in E. subst c. exists [], t. split; [reflexivity|].
    intros [].
  - apply byte_eqb_neq in E. destruct H as [H|H]; [congruence|].
    destruct (IH H) as (pre & g & -> & Hpre). exists (c :: pre), g.
    split; [reflexivity|]. intros [Hc|Hin]; [congruence | now apply Hpre].
Qed.

Section BaseMessage.
Context {Store : Type} {backend : Backend Store}.

(** X9.  The message of the base changeset that [pop] and [fold] create.
    For a root path [pre/g], where [pre] has no slash, the message is
    [#QUAHOG Modify patches for g.]: the text after the first slash of the
    root path, between the fixed words and a full stop.  Building it
    changes nothing; the message is recognised as a Quahog changeset and
    is not a patch.  Every root path with a slash has this form; without a
    slash, [rootpath.index] raises [ValueError]. *)
Theorem quahog_message_classified :
  forall rootpath (r : Repo Store),
    (forall pre g,
       rootpath = pre ++ "/" ++ g -> ~ In "/"%byte pre ->
       let message := "#QUAHOG Modify patches for " ++ g ++ "." in
       quahog_message rootpath r = (r, inr message)
       /\ _isquahogchange message = true
       /\ _isquahogpatch message = Some false)
    /\ (In "/"%byte rootpath ->
        exists pre g, rootpath = pre ++ "/" ++ g /\ ~ In "/"%byte pre)
    /\ (~ In "/"%byte rootpath ->
        quahog_message rootpath r = (r, inl ValueError)).
Proof.
  intros rootpath r. split; [|split].
  - intros pre g -> Hpre message. unfold quahog_message.
    rewrite (@after_first_slash_app pre g Hpre). split; [reflexivity|]. split.
    + apply isquahogchange_body.
    + unfold _isquahogpatch, message.
      destruct (@first_line_cons "#"%byte
                  ("QUAHOG Modify patches for " ++ g ++ "."))
        as [l Hl]; [discriminate|discriminate|].
      cbn [app] in *. rewrite Hl.
      now rewrite patchdesc_needs_d_or_bracket.
  - apply first_slash_split.
  - intros H. unfold quahog_message.
    now rewrite after_first_slash_none.
Qed.

End BaseMessage.

Lemma quahog_message_classified_witness :
  let r := Toy.at_base in
  let message := "#QUAHOG Modify patches for " ++ "foo/bar" ++ "." in
  quahog_message "tp/foo/bar" r = (r, inr message)
  /\ _isquahogchange message = true
  /\ _isquahogpatch message = Some false.
Proof.
  intro r.
  refine (proj1 (@quahog_message_classified unit "tp/foo/bar" r)
                "tp" "foo/bar" eq_refl _).
  vm_compute. intros H. repeat (destruct H as [H|H]; [discriminate H|]).
  exact H.
Defined.

(** *** The lines [PATCHDESC_RE] matches *)

Lemma lit_rest_split ic lit : forall s t,
  Re.lit_rest ic lit s = Some t ->
  exists pre, s = pre ++ t /\ lit_agrees ic lit pre = true.
Proof.
  induction lit as [|x lit IH]; intros s t H; simpl in H.
  - injection H as ->. now exists [].
  - destruct s as [|y s]; [discriminate|].
    destruct (Re.byte_eq ic x y) eqn:E; [|discriminate].
    apply IH in H as (pre & -> & Hp). exists (y :: pre). split; [reflexivity|].
    simpl. now rewrite E, Hp.
Qed.

Lemma skipn_nil_length {A} (l : list A) j : skipn j l = [] -> length l <= j.
Proof.
  intros H. pose proof (length_skipn j l) as Hl. rewrite H in Hl. simpl in Hl. lia.
Qed.

(** The end of the pattern: the tag, then group 2 up to the end of the
    line. *)
Lemma patch_tag_shape pos s g m :
  Re.rmatch true (Re.Seq (Re.Lit "[patch]") (Re.Group 2 (Re.Plus not_crlf)))
    pos s g
    (fun _ s' g' => match s' with [] => Some g' | _ :: _ => None end) = Some m ->
  exists tag name,
    s = tag ++ name
    /\ lit_agrees true "[patch]" tag = true
    /\ name <> [] /\ no_crlf name
    /\ m = (2, name) :: g.
Proof.
  rewrite rmatch_seq, rmatch_lit.
  destruct (Re.lit_rest true "[patch]" s) as [s1|] eqn:E; [|discriminate].
  apply lit_rest_split in E as (tag & -> & Htag).
  unfold Re.Plus. rewrite rmatch_group, rmatch_seq, rmatch_class.
  destruct s1 as [|c t]; [discriminate|].
  destruct (not_crlf c) eqn:Hc; [|discriminate].
  rewrite rmatch_star. intros H.
  apply try_down_some in H as (j & Hj & H).
  destruct (skipn j t) eqn:Hsk; [|discriminate]. injection H as <-.
  pose proof (skipn_nil_length _ _ Hsk) as Hlen.
  pose proof (run_le not_crlf t) as Hrun.
  assert (j = length t) by lia. subst j.
  pose proof (run_prefix not_crlf t Hj) as Hall. rewrite firstn_all in Hall.
  exists tag, (c :: t). split; [reflexivity|]. split; [exact Htag|].
  split; [discriminate|]. split; [now constructor|].
  match goal with
  | |- context [firstn ?n (c :: t)] =>
      change n with (S (pos + 7 + length t) - (pos + 7));
      replace (S (pos + 7 + length t) - (pos + 7)) with (S (length t)) by lia
  end.
  cbn [firstn]. now rewrite firstn_all.
Qed.

Lemma patch_tag_match pos tag name g :
  lit_agrees true "[patch]" tag = true ->
  name <> [] -> no_crlf name ->
  Re.rmatch true (Re.Seq (Re.Lit "[patch]") (Re.Group 2 (Re.Plus not_crlf)))
    pos (tag ++ name) g
    (fun _ s' g' => match s' with [] => Some g' | _ :: _ => None end)
  = Some ((2, name) :: g).
Proof.
  intros Htag Hne Hn. rewrite rmatch_seq, rmatch_lit.
  rewrite (lit_rest_agrees _ _ _ name Htag).
  unfold Re.Plus. rewrite rmatch_group, rmatch_seq, rmatch_class.
  destruct name as [|c t]; [congruence|]. inversion Hn as [|? ? Hc Ht]; subst.
  rewrite Hc, rmatch_star, (run_all _ Ht).
  erewrite try_down_hit; [reflexivity|].
  rewrite skipn_all.
  replace (S (pos + length "[patch]") + length t - (pos + length "[patch]"))
    with (S (length t)) by lia.
  cbn [firstn]. now rewrite firstn_all.
Qed.

Lemma bracket_only y : Re.byte_eq true "[" y = true -> y = "["%byte.
Proof. destruct y; intros H; vm_compute in H; try discriminate H; reflexivity. Qed.

Lemma tag_starts_with_bracket tag :
  lit_agrees true "[patch]" tag = true -> exists t, tag = "["%byte :: t.
Proof.
  destruct tag as [|y t]; [discriminate|]. cbn [lit_agrees].
  intros [H _]%andb_true_iff. apply bracket_only in H. subst. now exists t.
Qed.

Lemma patchdesc_fullmatch_shape line m :
  PATCHDESC_fullmatch line = Some m ->
  exists name, Re.group 2 m = Some name /\ patch_line line name.
Proof.
  unfold PATCHDESC_fullmatch, Re.fullmatch, PATCHDESC_RE.
  rewrite rmatch_seq, rmatch_opt.
  match goal with
  | |- match ?X with _ => _ end = _ -> _ => destruct X as [x|] eqn:E
  end.
  - intros [= ->]. rewrite rmatch_group, rmatch_seq, rmatch_lit in E.
    destruct (Re.lit_rest true "do not submit" line) as [s1|] eqn:El;
      [|discriminate].
    apply lit_rest_split in El as (dns & -> & Hdns).
    rewrite rmatch_star in E. apply try_down_some in E as (j & Hj & E).
    apply patch_tag_shape in E as (tag & name & Hs & Htag & Hne & Hn & ->).
    exists name. split; [reflexivity|].
    exists (dns ++ firstn j s1), tag.
    rewrite <- (firstn_skipn j s1) at 1. rewrite Hs, <- app_assoc.
    repeat split; try assumption.
    right. exists dns, (firstn j s1). repeat split; try assumption.
    now apply run_prefix.
  - intros H.
    apply patch_tag_shape in H as (tag & name & -> & Htag & Hne & Hn & ->).
    exists name. split; [reflexivity|].
    exists [], tag. repeat split; try assumption. now left.
Qed.

Lemma patchdesc_fullmatch_complete line name :
  patch_line line name ->
  exists m, PATCHDESC_fullmatch line = Some m /\ Re.group 2 m = Some name.
Proof.
  intros (pre & tag & -> & Htag & Hne & Hn & Hpre).
  unfold PATCHDESC_fullmatch, Re.fullmatch, PATCHDESC_RE.
  rewrite rmatch_seq, rmatch_opt, rmatch_group, rmatch_seq, rmatch_lit.
  destruct (tag_starts_with_bracket _ Htag) as [t Ht].
  destruct Hpre as [->|(dns & ws & -> & Hdns & Hws)].
  - cbn [app].
    assert (Hnone : Re.lit_rest true "do not submit" (tag ++ name) = None)
      by (rewrite Ht; reflexivity).
    rewrite Hnone, patch_tag_match by assumption.
    eexists. split; reflexivity.
  - rewrite <- app_assoc. rewrite (lit_rest_agrees _ _ _ _ Hdns).
    rewrite rmatch_star.
    assert (Hrun : Re.run Py.isspace (ws ++ tag ++ name) = length ws).
    { rewrite Ht. cbn [app]. apply run_stop; [|reflexivity].
      apply forallb_forall. now apply Forall_forall. }
    rewrite Hrun.
    erewrite try_down_hit;
      [|rewrite skipn_length_app; now apply patch_tag_match].
    eexists. split; reflexivity.
Qed.

(** X10.  [_isquahogpatch] looks at the first line of the description
    only, and holds exactly when that line is, in either case of the
    letters, [[patch]] followed by at least one byte, with nothing before
    it or [do not submit] and any whitespace. *)
Theorem isquahogpatch_iff :
  forall description,
    _isquahogpatch description = Some true
    <-> exists line name,
          first_line description = Some line /\ patch_line line name.
Proof.
  intros description. unfold _isquahogpatch. split.
  - destruct (first_line description) as [line|]; [|discriminate].
    destruct (PATCHDESC_fullmatch line) as [m|] eqn:E; [|discriminate].
    intros _. apply patchdesc_fullmatch_shape in E as (name & _ & H).
    now exists line, name.
  - intros (line & name & -> & H).
    apply patchdesc_fullmatch_complete in H as (m & -> & _). reflexivity.
Qed.

(** *** The names [fold] gives to patch files *)

Lemma lstrip_forall (P : byte -> Prop) s : Forall P s -> Forall P (Py.lstrip s).
Proof.
  induction 1 as [|c t Hc Ht IH]; [constructor|]. simpl.
  destruct (Py.isspace c); [exact IH | now constructor].
Qed.

Lemma rstrip_forall (P : byte -> Prop) s : Forall P s -> Forall P (Py.rstrip s).
Proof.
  induction 1 as [|c t Hc Ht IH]; [constructor|]. simpl.
  destruct (Py.rstrip t).
  - destruct (Py.isspace c); repeat constructor. exact Hc.
  - now constructor.
Qed.

Lemma rstrip_lstrip s : Py.rstrip (Py.lstrip s) = Py.lstrip (Py.rstrip s).
Proof.
  induction s as [|c t IH]; [reflexivity|].
  cbn [Py.lstrip Py.rstrip]. destruct (Py.isspace c) eqn:E.
  - rewrite IH. destruct (Py.rstrip t); [reflexivity|].
    cbn [Py.lstrip]. now rewrite E.
  - cbn [Py.rstrip]. destruct (Py.rstrip t); rewrite ?E; cbn [Py.lstrip];
      now rewrite E.
Qed.

Lemma hyphenate_forall (P : byte -> Prop) p s :
  P "-"%byte -> Forall P s -> forall in_run, Forall P (hyphenate_runs p in_run s).
Proof.
  intros Hd. induction 1 as [|c t Hc Ht IH]; intros in_run; [constructor|].
  simpl. destruct (p c).
  - destruct in_run; [apply IH|]. constructor; [exact Hd | apply IH].
  - constructor; [exact Hc | apply IH].
Qed.

Lemma hyphenate_no_class p s :
  p "-"%byte = false ->
  forall in_run, Forall (fun b => p b = false) (hyphenate_runs p in_run s).
Proof.
  intros Hd. induction s as [|c t IH]; intros in_run; [constructor|].
  simpl. destruct (p c) eqn:E.
  - destruct in_run; [apply IH|]. constructor; [exact Hd | apply IH].
  - constructor; [exact E | apply IH].
Qed.

Lemma fold_patchname_orig line orig name :
  fold_patchname line = Some (orig, name) ->
  exists g, patch_line line g /\ orig = Py.strip g.
Proof.
  unfold fold_patchname. intros H.
  destruct (PATCHDESC_fullmatch line) as [m|] eqn:E; [|discriminate].
  apply patchdesc_fullmatch_shape in E as (g & Hg & Hp).
  rewrite Hg in H. exists g. split; [exact Hp | congruence].
Qed.

Lemma fold_patchname_chars line orig name :
  fold_patchname line = Some (orig, name) ->
  no_crlf name /\ Forall (fun b => b <> x20) name.
Proof.
  intros H. destruct (fold_patchname_spaces _ H) as [Hname _].
  destruct (fold_patchname_orig _ H) as (g & (_ & _ & _ & _ & _ & Hn & _) & ->).
  rewrite Hname. split.
  - apply hyphenate_forall; [reflexivity|].
    unfold Py.strip. now apply lstrip_forall, rstrip_forall.
  - pose proof (@hyphenate_no_class (Byte.eqb x20) (Py.strip g) eq_refl false)
      as Hf.
    eapply Forall_impl; [|exact Hf]. intros b Hb. cbv beta in Hb.
    apply byte_eqb_neq in Hb. congruence.
Qed.

(** X11.  The name under which [fold] stores a patch has no space and no
    line break, so that it takes one line of the series file; it comes
    from the captured name without the whitespace around it, which neither
    starts nor ends with whitespace, and is empty only when the captured
    name is blank. *)
Theorem fold_patchname_clean :
  forall line orig name,
    fold_patchname line = Some (orig, name) ->
    no_crlf name
    /\ Forall (fun b => b <> x20) name
    /\ Py.strip orig = orig
    /\ (name = [] <-> orig = []).
Proof.
  intros line orig name H.
  destruct (fold_patchname_chars _ H) as [Hn Hsp].
  destruct (fold_patchname_spaces _ H) as [Hname _].
  destruct (fold_patchname_orig _ H) as (g & _ & Horig).
  split; [exact Hn|]. split; [exact Hsp|]. split; [|split].
  - rewrite Horig. unfold Py.strip.
    now rewrite rstrip_lstrip, lstrip_idem, rstrip_idem.
  - rewrite Hname. destruct orig as [|c t]; [reflexivity|]. simpl.
    destruct (Byte.eqb x20 c); discriminate.
  - intros ->. rewrite Hname. reflexivity.
Qed.

Lemma fold_patchname_clean_witness :
  no_crlf "b-fix.diff"
  /\ Forall (fun b => b <> x20) "b-fix.diff"
  /\ Py.strip "b  fix.diff" = "b  fix.diff"
  /\ ("b-fix.diff" = [] <-> "b  fix.diff" = []).
Proof.
  apply (@fold_patchname_clean "[PATCH] b  fix.diff" "b  fix.diff" "b-fix.diff").
  reflexivity.
Defined.

(** ** The series file between [pop] and [fold] *)








(** ** The walks towards the root end *)

Section Walks.
Context {Store : Type} {backend : Backend Store}.
Implicit Type r : Repo Store.

Lemma phase_out_of_range r n :
  commit_at r n = None -> phase r (Some n) = Public.
Proof. intros H. unfold phase. now rewrite H. Qed.

Lemma commit_at_lt r n k : commit_at r n = Some k -> n < length (changelog r).
Proof.
  intros H. apply nth_error_Some. unfold commit_at in H. congruence.
Qed.

Lemma enough_fuel_p1 r c fuel n k :
  parents_precede r ->
  enough_fuel r c (S fuel) -> c = Some n -> commit_at r n = Some k ->
  enough_fuel r (p1 r c) fuel.
Proof.
  intros Hwf [_ Hf] -> Hk.
  pose proof (Hf n eq_refl (commit_at_lt _ _ Hk)) as Hn.
  split; [lia|]. intros p Hp _. unfold p1 in Hp. rewrite Hk in Hp.
  pose proof (Hwf n k p Hk Hp). lia.
Qed.

Lemma pop_walk_reaches_stop r :
  parents_precede r ->
  forall fuel c,
    enough_fuel r c fuel ->
    phase r (pop_walk_up fuel r c) = Public
    \/ _isquahogchange (description r (pop_walk_up fuel r c)) = true.
Proof.
  intros Hwf. induction fuel as [|fuel IH]; intros c Hf.
  - destruct Hf as [Hf _]. lia.
  - cbn [pop_walk_up].
    destruct (phase_eqb (phase r c) Public) eqn:Ep.
    { cbn [negb andb]. left. destruct (phase r c); now try discriminate. }
    destruct (_isquahogchange (description r c)) eqn:Eq.
    { cbn [negb andb]. now right. }
    cbn [negb andb]. apply IH.
    destruct c as [n|]; [|discriminate Ep].
    destruct (commit_at r n) as [k|] eqn:Hk.
    + eapply enough_fuel_p1; eauto.
    + rewrite (phase_out_of_range _ _ Hk) in Ep. discriminate Ep.
Qed.

Lemma pop_walk_up_more_fuel r extra :
  forall fuel c,
    phase r (pop_walk_up fuel r c) = Public
    \/ _isquahogchange (description r (pop_walk_up fuel r c)) = true ->
    pop_walk_up (fuel + extra) r c = pop_walk_up fuel r c.
Proof.
  induction fuel as [|fuel IH]; intros c Hstop.
  - cbn [pop_walk_up Nat.add] in *. destruct extra as [|extra]; [reflexivity|].
    cbn [pop_walk_up]. destruct Hstop as [H|H]; rewrite H; cbn [phase_eqb negb];
      now rewrite ?andb_false_r.
  - cbn [pop_walk_up Nat.add] in *.
    destruct (negb (phase_eqb (phase r c) Public)
              && negb (_isquahogchange (description r c)));
      [now apply IH | reflexivity].
Qed.

Lemma enough_fuel_dot r : enough_fuel r (dot r) (S (length (changelog r))).
Proof. split; [lia|]. intros n _ Hn. lia. Qed.

(** X14.  The walk of [pop] from the checkout towards the root, when first
    parents precede their children: it ends within the turns the model
    gives it, on a public changeset (the null revision at the latest) or on
    a Quahog changeset, and more turns do not move its end. *)
Theorem pop_walk_up_stops :
  forall r extra,
    parents_precede r ->
    let fromctx := pop_walk_up (S (length (changelog r))) r (dot r) in
    (phase r fromctx = Public
     \/ _isquahogchange (description r fromctx) = true)
    /\ pop_walk_up (S (length (changelog r)) + extra) r (dot r) = fromctx.
Proof.
  intros r extra Hwf fromctx.
  pose proof (pop_walk_reaches_stop Hwf (enough_fuel_dot r)) as Hstop.
  split; [exact Hstop|]. now apply pop_walk_up_more_fuel.
Qed.

Lemma fold_walk_reaches_stop r :
  parents_precede r ->
  forall fuel c,
    enough_fuel r c fuel ->
    match fold_walk_up fuel r c with
    | inr toctx => fold_walk_end r toctx
    | inl e =>
        e = IndexError
        \/ exists c', e = Abort (_reverr r c' "multiple parents")
                      /\ 1 < length (parents r c')
    end.
Proof.
  intros Hwf. induction fuel as [|fuel IH]; intros c Hf.
  - destruct Hf as [Hf _]. lia.
  - cbn [fold_walk_up].
    destruct (isquahogpatch_ctx r c) as [e|ispatch] eqn:Ei.
    { left. unfold isquahogpatch_ctx in Ei.
      destruct (_isquahogpatch (description r c)); congruence. }
    destruct ispatch; cbn [andb].
    2:{ exists false. split; [exact Ei | now left]. }
    destruct (phase_eqb (phase r c) Public) eqn:Ep; cbn [orb negb].
    { exists true. split; [exact Ei|]. right. left.
      destruct (phase r c); now try discriminate. }
    destruct (_isquahogchange (description r c)) eqn:Eq; cbn [negb].
    { exists true. split; [exact Ei|]. now right; right. }
    destruct (Nat.ltb 1 (length (parents r c))) eqn:El.
    { right. exists c. split; [reflexivity|]. now apply Nat.ltb_lt. }
    apply IH.
    destruct c as [n|]; [|discriminate Ep].
    destruct (commit_at r n) as [k|] eqn:Hk.
    + eapply enough_fuel_p1; eauto.
    + rewrite (phase_out_of_range _ _ Hk) in Ep. discriminate Ep.
Qed.

Lemma fold_walk_up_more_fuel r extra :
  forall fuel c,
    match fold_walk_up fuel r c with
    | inr toctx => fold_walk_end r toctx
    | inl _ => True
    end ->
    fold_walk_up (fuel + extra) r c = fold_walk_up fuel r c.
Proof.
  induction fuel as [|fuel IH]; intros c Hstop.
  - cbn [fold_walk_up Nat.add] in *. destruct extra as [|extra]; [reflexivity|].
    cbn [fold_walk_up]. destruct Hstop as (b & -> & [->|[H|H]]).
    + reflexivity.
    + rewrite H. cbn [phase_eqb orb negb]. now rewrite andb_false_r.
    + rewrite H, orb_true_r. cbn [negb]. now rewrite andb_false_r.
  - cbn [fold_walk_up Nat.add] in *.
    destruct (isquahogpatch_ctx r c) as [e|ispatch]; [reflexivity|].
    destruct (ispatch && _); [|reflexivity].
    destruct (Nat.ltb 1 (length (parents r c))); [reflexivity|].
    now apply IH.
Qed.

(** X15.  The walk of [fold] from the checkout towards the root, when
    first parents precede their children: within the turns the model
    gives it, it stops on a changeset that is not a patch, or is public, or
    is a Quahog changeset; or it fails, on a merge ([multiple parents]) or
    on a changeset without description ([IndexError], the null revision
    among them).  More turns do not change the outcome. *)
Theorem fold_walk_up_stops :
  forall r extra,
    parents_precede r ->
    match fold_walk_up (S (length (changelog r))) r (dot r) with
    | inr toctx => fold_walk_end r toctx
    | inl e =>
        e = IndexError
        \/ exists c, e = Abort (_reverr r c "multiple parents")
                     /\ 1 < length (parents r c)
    end
    /\ fold_walk_up (S (length (changelog r)) + extra) r (dot r)
       = fold_walk_up (S (length (changelog r))) r (dot r).
Proof.
  intros r extra Hwf.
  pose proof (fold_walk_reaches_stop Hwf (enough_fuel_dot r)) as Hstop.
  split; [exact Hstop|]. apply fold_walk_up_more_fuel.
  destruct (fold_walk_up _ r (dot r)); [exact I | exact Hstop].
Qed.

End Walks.

Lemma toy_parents_precede : parents_precede Toy.at_base.
Proof.
  intros n k p Hk Hp.
  do 5 (destruct n as [|n];
        [injection Hk as <-; cbn in Hp; try discriminate Hp;
         injection Hp as <-; lia|]).
  destruct n; discriminate Hk.
Defined.

Lemma pop_walk_up_stops_witness :
  let r := Toy.at_base in
  let fromctx := pop_walk_up (S (length (changelog r))) r (dot r) in
  (phase r fromctx = Public
   \/ _isquahogchange (description r fromctx) = true)
  /\ pop_walk_up (S (length (changelog r)) + 3) r (dot r) = fromctx.
Proof.
  exact (@pop_walk_up_stops unit Toy.at_base 3 toy_parents_precede).
Defined.

Lemma fold_walk_up_stops_witness :
  let r := Toy.at_base in
  match fold_walk_up (S (length (changelog r))) r (dot r) with
  | inr toctx => fold_walk_end r toctx
  | inl e =>
      e = IndexError
      \/ exists c, e = Abort (_reverr r c "multiple parents")
                   /\ 1 < length (parents r c)
  end
  /\ fold_walk_up (S (length (changelog r)) + 3) r (dot r)
     = fold_walk_up (S (length (changelog r))) r (dot r).
Proof.
  exact (@fold_walk_up_stops unit Toy.at_base 3 toy_parents_precede).
Defined.

(** ** The base of [pop] and the target of [fold] *)

Section BaseAndTarget.
Context {Store : Type} {backend : Backend Store}.
Implicit Type r : Repo Store.

(** Where the base of [pop] comes from. *)
Lemma pop_base_inr from r r' fromctx createnew :
  pop_base from r = (r', inr (fromctx, createnew)) ->
  (createnew = false -> _isquahogchange (description r fromctx) = true)
  /\ (createnew = true -> from = [] /\ fromctx = dot r).
Proof.
  intros H. unfold pop_base in H. destruct from as [|f from].
  - unfold bind, gets in H.
    destruct (_isquahogchange
                (description r (pop_walk_up (S (length (changelog r))) r (dot r))))
      eqn:E; cbn [negb] in H.
    + injection H as <- <- <-. split; [now intros _ | discriminate].
    + unfold ui_warn, ret in H. injection H as <- <- <-.
      split; [discriminate | now intros _].
  - unfold bind, query, gets in H.
    destruct (_getone r (RsUser (f :: from)) (f :: from) _) as [e|fromrev];
      [discriminate H|].
    destruct (_isquahogchange (description r (Some fromrev))) eqn:E;
      cbn [negb] in H; [|discriminate H].
    injection H as <- <- <-. split; [now intros _ | discriminate].
Qed.

(** X16.  What [pop] takes as its base.  Finding the base changes nothing
    but the messages printed.  A changeset that is reused is a Quahog
    changeset, found by [--from] or by the walk; a new one is planned only
    without [--from], on the checkout, after the warning. *)
Theorem pop_base_result :
  forall from r r' fromctx createnew,
    pop_base from r = (r', inr (fromctx, createnew)) ->
    same_but_ui r r'
    /\ (createnew = false ->
        _isquahogchange (description r fromctx) = true
        /\ ui_out r' = ui_out r)
    /\ (createnew = true ->
        from = [] /\ fromctx = dot r
        /\ ui_out r'
           = ui_out r
             ++ [Warn ("no quahog changeset found in ancestors; creating one"
                       ++ [LF])]).
Proof.
  intros from r r' fromctx createnew H.
  pose proof (pop_base_inr _ _ H) as [Hreuse Hnew].
  unfold pop_base in H. destruct from as [|f from].
  - unfold bind, gets in H.
    destruct (_isquahogchange
                (description r (pop_walk_up (S (length (changelog r))) r (dot r))));
      cbn [negb] in H.
    + injection H as <- _ <-. split; [apply same_but_ui_refl|].
      split; [intros Hc; split; [now apply Hreuse | reflexivity]|].
      discriminate.
    + unfold ui_warn, ret in H. injection H as <- _ <-.
      split; [repeat split|]. split; [discriminate|]. intros Hc.
      destruct (Hnew Hc) as [Hf Hd]. repeat split. exact Hd.
  - destruct (_isquahogchange (description r fromctx)) eqn:E.
    + unfold bind, query, gets in H.
      destruct (_getone r (RsUser (f :: from)) (f :: from) _) as [e|fromrev];
        [discriminate H|].
      destruct (negb (_isquahogchange (description r (Some fromrev))));
        [discriminate H|].
      injection H as <- _ <-. split; [apply same_but_ui_refl|].
      split; [now intros _ | discriminate].
    + destruct createnew.
      * destruct (Hnew eq_refl) as [Hf _]. inversion Hf.
      * discriminate (Hreuse eq_refl).
Qed.

(** X17.  What [fold] takes as its target.  Resolving it changes nothing
    but the messages printed.  A new base changeset is planned exactly
    when the target is not a Quahog changeset that can still be rewritten;
    with [--to] none ever is (the command aborts instead), and with [--rev]
    alone the target is not a patch. *)
Theorem fold_target_result :
  forall torevset foldrevset r r' toctx createnew,
    fold_target torevset foldrevset r = (r', inr (toctx, createnew)) ->
    same_but_ui r r'
    /\ createnew
       = negb (_isquahogchange (description r toctx)
               && negb (phase_eqb (phase r toctx) Public))
    /\ (torevset <> [] -> createnew = false)
    /\ (torevset = [] -> foldrevset <> [] ->
        _isquahogpatch (description r toctx) = Some false).
Proof.
  intros torevset foldrevset r r' toctx createnew H.
  assert (Hcreate : forall c r0 r1 b,
            fold_createnew c r0 = (r1, inr b) ->
            same_but_ui r0 r1
            /\ b = negb (_isquahogchange (description r0 c)
                         && negb (phase_eqb (phase r0 c) Public))).
  { intros c r0 r1 b Hc. unfold fold_createnew, bind, gets in Hc.
    destruct (_isquahogchange (description r0 c)); cbn [negb andb] in *.
    - destruct (phase_eqb (phase r0 c) Public); cbn [negb] in *;
        unfold ui_warn, ret in Hc; injection Hc as <- <-; repeat split.
    - unfold ui_warn, ret in Hc. injection Hc as <- <-. repeat split. }
  unfold fold_target, bind, gets in H.
  destruct torevset as [|t torevset]; cbn [nonempty] in H.
  - destruct foldrevset as [|f foldrevset]; cbn [nonempty] in H.
    + unfold query in H.
      destruct (fold_walk_up (S (length (changelog r))) r (dot r)) as [e|c];
        [discriminate H|].
      destruct (fold_createnew c r) as [r1 [e|b]] eqn:Ec; [discriminate H|].
      unfold ret in H. injection H as <- <- <-.
      destruct (Hcreate _ _ _ _ Ec) as [Hs Hb].
      split; [exact Hs|]. split; [exact Hb|]. split; congruence.
    + unfold query in H.
      destruct (_getone r _ _ None) as [e|torev]; [discriminate H|].
      destruct (isquahogpatch_ctx r (Some torev)) as [e|ispatch] eqn:Ei;
        [discriminate H|].
      destruct ispatch; [discriminate H|].
      destruct (fold_createnew (Some torev) r) as [r1 [e|b]] eqn:Ec;
        [discriminate H|].
      unfold ret in H. injection H as <- <- <-.
      destruct (Hcreate _ _ _ _ Ec) as [Hs Hb].
      split; [exact Hs|]. split; [exact Hb|]. split; [congruence|].
      intros _ _. unfold isquahogpatch_ctx in Ei.
      destruct (_isquahogpatch (description r (Some torev))); congruence.
  - unfold query in H.
    destruct (_getone r (RsUser (t :: torevset)) _ _) as [e|torev];
      [discriminate H|].
    destruct (_isquahogchange (description r (Some torev))) eqn:Eq;
      cbn [negb] in H; [|discriminate H].
    destruct (phase_eqb (phase r (Some torev)) Public) eqn:Ep;
      [discriminate H|].
    assert (Hend : (r, inr (Some torev, false)) = (r', inr (toctx, createnew))
                     :> Repo Store * (exn + ctx * bool)
                   -> same_but_ui r r'
                      /\ createnew
                         = negb (_isquahogchange (description r toctx)
                                 && negb (phase_eqb (phase r toctx) Public))
                      /\ (t :: torevset <> [] -> createnew = false)
                      /\ (t :: torevset = [] -> foldrevset <> [] ->
                          _isquahogpatch (description r toctx) = Some false)).
    { intros [= <- <- <-]. split; [apply same_but_ui_refl|].
      rewrite Eq, Ep. repeat split. discriminate. }
    destruct foldrevset as [|f foldrevset]; cbn [nonempty] in H.
    + apply Hend. exact H.
    + destruct (_getone r _ _ None) as [e|ancestorrev]; [discriminate H|].
      destruct (Nat.eqb ancestorrev torev); cbn [negb] in H;
        [|discriminate H].
      apply Hend. exact H.
Qed.

End BaseAndTarget.

Lemma pop_base_result_witness :
  let r := Toy.at_base in
  same_but_ui r r
  /\ (false = false ->
      _isquahogchange (description r (Some 1)) = true
      /\ ui_out r = ui_out r)
  /\ (false = true ->
      @nil byte = [] /\ Some 1 = dot r
      /\ ui_out r
         = ui_out r
           ++ [Warn ("no quahog changeset found in ancestors; creating one"
                     ++ [LF])]).
Proof.
  apply (@pop_base_result unit Toy.backend [] Toy.at_base Toy.at_base
           (Some 1) false).
  reflexivity.
Defined.

Lemma fold_target_result_witness :
  let r := mkRepo Toy.log (Some 3) Toy.files [] tt in
  same_but_ui r r
  /\ false
     = negb (_isquahogchange (description r (Some 1))
             && negb (phase_eqb (phase r (Some 1)) Public))
  /\ (@nil byte <> [] -> false = false)
  /\ (@nil byte = [] -> @nil byte <> [] ->
      _isquahogpatch (description r (Some 1)) = Some false).
Proof.
  apply (@fold_target_result unit Toy.backend [] []
           (mkRepo Toy.log (Some 3) Toy.files [] tt)
           (mkRepo Toy.log (Some 3) Toy.files [] tt) (Some 1) false).
  reflexivity.
Defined.

(** ** The patches [fold] collects *)

Lemma isquahogpatch_shape description :
  _isquahogpatch description = Some true ->
  exists line name,
    first_line description = Some line /\ patch_line line name.
Proof.
  unfold _isquahogpatch.
  destruct (first_line description) as [line|]; [|discriminate].
  destruct (PATCHDESC_fullmatch line) as [m|] eqn:E; [|discriminate].
  intros _. apply patchdesc_fullmatch_shape in E as (name & _ & H).
  now exists line, name.
Qed.

Lemma fold_patchname_total line name :
  patch_line line name -> exists orig stored, fold_patchname line = Some (orig, stored).
Proof.
  intros H. apply patchdesc_fullmatch_complete in H as (m & Hm & _).
  unfold fold_patchname. rewrite Hm. eauto.
Qed.

Lemma dict_set_keys d k v :
  map fst (dict_set d k v)
  = if existsb (fun k' => Py.bytes_eqb k' k) (map fst d)
    then map fst d else map fst d ++ [k].
Proof.
  induction d as [|[k' v'] d IH]; [reflexivity|].
  cbn [dict_set map fst existsb].
  destruct (Py.bytes_eqb k' k) eqn:E; [reflexivity|].
  cbn [map fst orb]. rewrite IH.
  now destruct (existsb _ (map fst d)).
Qed.

Lemma dict_set_nodup d k v :
  NoDup (map fst d) -> NoDup (map fst (dict_set d k v)).
Proof.
  intros H. rewrite dict_set_keys.
  destruct (existsb _ (map fst d)) eqn:E; [exact H|].
  apply NoDup_app; [exact H | repeat constructor; intros [] |].
  intros x Hx [Hk|[]]. subst x.
  assert (existsb (fun k' => Py.bytes_eqb k' k) (map fst d) = true).
  { apply existsb_exists. exists k. split; [exact Hx | apply bytes_eqb_refl]. }
  congruence.
Qed.

Section FoldPatches.
Context {Store : Type} {backend : Backend Store}.
Implicit Type r : Repo Store.

Lemma filter_patches_patch r cs :
  forall patches p,
    filter_patches r cs = inr patches -> In p patches ->
    isquahogpatch_ctx r (Some p) = inr true.
Proof.
  induction cs as [|n rest IH]; intros patches p H Hin; cbn [filter_patches] in H.
  - injection H as <-. destruct Hin.
  - destruct (isquahogpatch_ctx r (Some n)) as [e|b] eqn:Eb; [discriminate|].
    destruct (filter_patches r rest) as [e|l]; [discriminate|].
    injection H as <-. destruct b.
    + destruct Hin as [<-|Hin]; [exact Eb | now apply (IH l)].
    + now apply (IH l).
Qed.

Lemma fold_walk_patches r foldall foldcount :
  forall fuel c acc chain,
    Forall (fun n => isquahogpatch_ctx r (Some n) = inr true) acc ->
    fold_walk fuel r foldall foldcount c acc = Some (inr chain) ->
    Forall (fun n => isquahogpatch_ctx r (Some n) = inr true) chain.
Proof.
  induction fuel as [|fuel IH]; intros c acc chain Hacc H; [discriminate|].
  cbn [fold_walk] in H.
  destruct (foldall || negb (Z.of_nat (length acc) =? foldcount)%Z).
  - destruct (patch_children r c) as [e|patches] eqn:Ep; [discriminate|].
    destruct (Nat.ltb 1 (length patches)); [discriminate|].
    destruct patches as [|p ps].
    + injection H as <-. exact Hacc.
    + apply IH in H; [exact H|]. apply Forall_app. split; [exact Hacc|].
      constructor; [|constructor].
      apply (@filter_patches_patch r _ _ p Ep). now left.
  - injection H as <-. exact Hacc.
Qed.

Lemma fold_check_revs_ok r patchrevs :
  fold_check_revs r patchrevs = None ->
  Forall (fun n => isquahogpatch_ctx r (Some n) = inr true
                   /\ phase_eqb (phase r (Some n)) Public = false) patchrevs.
Proof.
  induction patchrevs as [|n rest IH]; [constructor|].
  cbn [fold_check_revs].
  destruct (isquahogpatch_ctx r (Some n)) as [e|[|]] eqn:E; try discriminate.
  destruct (phase_eqb (phase r (Some n)) Public) eqn:Ep; [discriminate|].
  intros H. constructor; [now split | now apply IH].
Qed.

Lemma isquahogpatch_ctx_shape r c :
  isquahogpatch_ctx r c = inr true ->
  exists line name,
    first_line (description r c) = Some line /\ patch_line line name.
Proof.
  unfold isquahogpatch_ctx. intros H. apply isquahogpatch_shape.
  destruct (_isquahogpatch (description r c)) as [[|]|]; congruence.
Qed.

(** What one turn of the loop that builds [patches] does when it does not
    raise. *)
Lemma fold_patch_entry_inr rootpath patches rev r r' d :
  fold_patch_entry rootpath patches rev r = (r', inr d) ->
  same_but_ui r r'
  /\ exists line orig name content,
       first_line (description r (Some rev)) = Some line
       /\ fold_patchname line = Some (orig, name)
       /\ d = dict_set patches name content.
Proof.
  unfold fold_patch_entry, bind, gets. intros H.
  destruct (first_line (description r (Some rev))) as [line|] eqn:El;
    [|discriminate].
  destruct (fold_patchname line) as [[orig name]|] eqn:En; [|discriminate].
  match type of H with
  | context [if ?b then ui_warn ?t else ret tt] =>
      assert (Hs : same_but_ui r (fst ((if b then ui_warn t else ret tt) r)))
        by (destruct b; repeat split);
      destruct ((if b then ui_warn t else ret tt) r) as [r1 [e|[]]] eqn:Ew;
        [destruct b; discriminate Ew|]
  end.
  cbn [fst] in Hs. unfold query in H.
  destruct (patch_diff r1 _ _ _) as [e|diff]; [discriminate|].
  unfold ret in H. injection H as <- <-.
  split; [exact Hs|]. exists line, orig, name. eexists.
  split; [reflexivity|]. split; [exact En | reflexivity].
Qed.

Lemma fold_patch_entry_inl rootpath patches rev r r' e line name :
  first_line (description r (Some rev)) = Some line ->
  patch_line line name ->
  fold_patch_entry rootpath patches rev r = (r', inl e) ->
  same_but_ui r r'
  /\ patch_diff r' (p1 r' (Some rev)) (Some rev) rootpath = inl e.
Proof.
  intros Hl Hp. unfold fold_patch_entry, bind, gets. rewrite Hl.
  destruct (fold_patchname_total Hp) as (orig & stored & ->).
  match goal with
  | |- context [if ?b then ui_warn ?t else ret tt] =>
      assert (Hs : same_but_ui r (fst ((if b then ui_warn t else ret tt) r)))
        by (destruct b; repeat split);
      destruct ((if b then ui_warn t else ret tt) r) as [r1 [e1|[]]] eqn:Ew;
        [destruct b; discriminate Ew|]
  end.
  cbn [fst] in Hs. unfold query.
  destruct (patch_diff r1 _ _ _) as [e1|diff] eqn:Ed; [|discriminate].
  intros [= <- <-]. split; [exact Hs | exact Ed].
Qed.

(** X18.  The revisions [fold] selects.  Each of them is a patch
    changeset: its first line has the form [PATCHDESC_RE] wants, so that
    the assertion of the loop over them holds, and a turn of that loop can
    only fail where [patch.diff] fails.  Revisions given with [--rev] are
    not public either. *)
Theorem fold_patchrevs_are_patches :
  forall r foldrevset foldall foldcount toctx patchrevs,
    fold_patchrevs r foldrevset foldall foldcount toctx = inr patchrevs ->
    Forall
      (fun rev =>
         (exists line name,
            first_line (description r (Some rev)) = Some line
            /\ patch_line line name)
         /\ (forall rootpath patches r' e,
               fold_patch_entry rootpath patches rev r = (r', inl e) ->
               same_but_ui r r'
               /\ patch_diff r' (p1 r' (Some rev)) (Some rev) rootpath = inl e)
         /\ (foldrevset <> [] -> phase r (Some rev) <> Public))
      patchrevs.
Proof.
  intros r foldrevset foldall foldcount toctx patchrevs H.
  assert (Hall : Forall (fun n => isquahogpatch_ctx r (Some n) = inr true
                                  /\ (foldrevset <> [] ->
                                      phase r (Some n) <> Public)) patchrevs).
  { unfold fold_patchrevs in H.
    destruct foldrevset as [|f foldrevset]; cbn [nonempty] in H.
    - unfold fold_chain in H.
      destruct (fold_walk _ r foldall foldcount toctx []) as [res|] eqn:E;
        [|discriminate]. subst res.
      apply fold_walk_patches in E; [|constructor].
      eapply Forall_impl; [|exact E]. intros n Hn. split; [exact Hn|].
      congruence.
    - destruct (revs r (RsUser (f :: foldrevset))) as [e|l]; [discriminate|].
      destruct (fold_check_revs r l) eqn:E; [discriminate|].
      injection H as <-. apply fold_check_revs_ok in E.
      eapply Forall_impl; [|exact E]. intros n [Hn Hp]. split; [exact Hn|].
      intros _ Hpub. rewrite Hpub in Hp. discriminate Hp. }
  eapply Forall_impl; [|exact Hall]. intros rev [Hp Hph].
  destruct (isquahogpatch_ctx_shape _ _ Hp) as (line & name & Hl & Hpl).
  split; [now exists line, name|]. split; [|exact Hph].
  intros rootpath patches r' e. now apply fold_patch_entry_inl with (name := name) (line := line).
Qed.

Lemma fold_m_patch_entries rootpath :
  forall patchrevs patches r r' d,
    fold_m (fold_patch_entry rootpath) patchrevs patches r = (r', inr d) ->
    same_but_ui r r'
    /\ (NoDup (map fst patches) -> NoDup (map fst d))
    /\ length d <= length patches + length patchrevs
    /\ (forall name, In name (map fst d) ->
        In name (map fst patches)
        \/ no_crlf name /\ Forall (fun b => b <> x20) name).
Proof.
  induction patchrevs as [|rev rest IH]; intros patches r r' d H.
  - cbn [fold_m] in H. unfold ret in H. injection H as <- <-.
    split; [apply same_but_ui_refl|]. split; [tauto|]. split; [simpl; lia|].
    now left.
  - cbn [fold_m] in H. apply bind_inr in H as (r1 & d1 & H1 & H).
    apply fold_patch_entry_inr in H1
      as (Hs1 & line & orig & name & content & Hl & Hn & ->).
    apply IH in H as (Hs & Hnd & Hlen & Hkeys).
    split; [eapply same_but_ui_trans; eassumption|].
    split; [intros Hp; now apply Hnd, dict_set_nodup|].
    split.
    + assert (length (dict_set patches name content) <= S (length patches)).
      { rewrite <- (length_map fst (dict_set patches name content)).
        rewrite dict_set_keys, <- (length_map fst patches).
        destruct (existsb _ (map fst patches));
          rewrite ?length_app; simpl; lia. }
      simpl. lia.
    + intros k Hk. destruct (Hkeys k Hk) as [Hin|Hc]; [|now right].
      rewrite dict_set_keys in Hin.
      destruct (existsb _ (map fst patches)); [now left|].
      apply in_app_or in Hin as [Hin|[<-|[]]]; [now left|]. right.
      exact (fold_patchname_chars _ Hn).
Qed.

(** X19.  The loop of [fold] that collects the patch files.  It changes
    nothing in the repository but the messages printed: every diff is
    computed before [fold] modifies anything.  The names it collects are
    pairwise different (a changeset with the name of an earlier one
    replaces its content), at most one per revision, and each without
    space and without line break. *)
Theorem fold_patches_dict :
  forall rootpath patchrevs r r' patches,
    fold_m (fold_patch_entry rootpath) patchrevs [] r = (r', inr patches) ->
    same_but_ui r r'
    /\ NoDup (map fst patches)
    /\ length patches <= length patchrevs
    /\ Forall (fun name => no_crlf name /\ Forall (fun b => b <> x20) name)
              (map fst patches).
Proof.
  intros rootpath patchrevs r r' patches H.
  apply fold_m_patch_entries in H as (Hs & Hnd & Hlen & Hkeys).
  split; [exact Hs|]. split; [apply Hnd; constructor|].
  split; [exact Hlen|]. apply Forall_forall. intros name Hin.
  destruct (Hkeys name Hin) as [[]|H]. exact H.
Qed.

End FoldPatches.

Lemma fold_patchrevs_are_patches_witness :
  let r := Toy.at_base in
  Forall
    (fun rev =>
       (exists line name,
          first_line (description r (Some rev)) = Some line
          /\ patch_line line name)
       /\ (forall rootpath patches r' e,
             fold_patch_entry rootpath patches rev r = (r', inl e) ->
             same_but_ui r r'
             /\ patch_diff r' (p1 r' (Some rev)) (Some rev) rootpath = inl e)
       /\ (@nil byte <> [] -> phase r (Some rev) <> Public))
    [2; 3].
Proof.
  apply (@fold_patchrevs_are_patches unit Toy.backend Toy.at_base [] true 0%Z
           (Some 1) [2; 3]).
  reflexivity.
Defined.

Lemma fold_patches_dict_witness :
  let r := Toy.at_base in
  let r' := fst (fold_m (fold_patch_entry "tp/foo") [2; 3] [] r) in
  let patches := [("a.diff", []); ("b-fix.diff", "Why." ++ [LF; LF])] in
  same_but_ui r r'
  /\ NoDup (map fst patches)
  /\ length patches <= length [2; 3]
  /\ Forall (fun name => no_crlf name /\ Forall (fun b => b <> x20) name)
            (map fst patches).
Proof.
  apply (@fold_patches_dict unit Toy.backend "tp/foo" [2; 3] Toy.at_base).
  reflexivity.
Defined.

(** ** From the message [pop] commits to the file [fold] writes *)

Lemma splitlines_nil_inv k s : Py.splitlines k s = [] -> s = [].
Proof.
  destruct s as [|c t]; [reflexivity|]. intros H. exfalso.
  now apply (@splitlines_nonempty k (c :: t)).
Qed.

(** Without carriage return, joining the lines again gives the text back,
    up to one line feed at the end. *)
Lemma join_splitlines_lf s :
  ~ In x0d s ->
  exists w, (w = [] \/ w = [x0a])
            /\ s = Py.join [x0a] (Py.splitlines false s) ++ w.
Proof.
  induction s as [|c t IH]; intros Hcr.
  - exists []. split; [now left | reflexivity].
  - assert (Hc : c <> x0d) by (intros ->; apply Hcr; now left).
    destruct IH as (w & Hw & Ht); [intros H; apply Hcr; now right|].
    rewrite splitlines_cons.
    apply byte_eqb_neq in Hc. rewrite Hc.
    destruct (Byte.eqb c x0a) eqn:Elf.
    + apply byte_eqb_eq in Elf. subst c.
      destruct (Py.splitlines false t) as [|l ls] eqn:E.
      * apply splitlines_nil_inv in E. subst t. exists [x0a].
        split; [now right | reflexivity].
      * exists w. split; [exact Hw|]. rewrite join_cons. cbn [app].
        now rewrite <- Ht.
    + destruct (Py.splitlines false t) as [|l ls] eqn:E.
      * apply splitlines_nil_inv in E. subst t. exists [].
        split; [now left | reflexivity].
      * exists w. split; [exact Hw|].
        rewrite Ht at 1. destruct ls; reflexivity.
Qed.

Lemma strip_join_splitlines s :
  ~ In x0d s -> Py.strip (Py.join [x0a] (Py.splitlines false s)) = Py.strip s.
Proof.
  intros H. destruct (@join_splitlines_lf s H) as (w & Hw & Hs).
  unfold Py.strip. f_equal. rewrite Hs at 2.
  symmetry. apply rstrip_app_space.
  destruct Hw as [->| ->]; repeat constructor.
Qed.

(** The description [fold] reads from the message of [pop]. *)
Lemma fold_description_of_pop_message name patchdesc :
  no_crlf name -> ~ In x0d patchdesc ->
  Py.strip (Py.join [x0a]
              (tl (Py.splitlines false (pop_patchmessage name patchdesc))))
  = Py.strip patchdesc.
Proof.
  intros Hn Hcr.
  assert (Hp : no_crlf ("DO NOT SUBMIT [PATCH] " ++ name)).
  { apply Forall_app. split; [|assumption].
    repeat (constructor; [reflexivity|]). constructor. }
  unfold pop_patchmessage.
  change ("DO " ++ "NOT" ++ " SUBMIT [PATCH] " ++ name)
    with ("DO NOT SUBMIT [PATCH] " ++ name).
  destruct patchdesc as [|d ds].
  - rewrite splitlines_single; [reflexivity|assumption|discriminate].
  - change (("DO NOT SUBMIT [PATCH] " ++ name) ++ [x0a; x0a] ++ d :: ds)
      with (("DO NOT SUBMIT [PATCH] " ++ name) ++ x0a :: (x0a :: d :: ds)).
    rewrite splitlines_app_lf by assumption. cbn [tl].
    rewrite <- (@strip_join_splitlines (d :: ds) Hcr).
    rewrite (splitlines_cons false x0a (d :: ds)).
    change (Byte.eqb x0a x0a) with true. cbv iota.
    destruct (Py.splitlines false (d :: ds)) as [|l ls] eqn:E.
    + apply splitlines_nil_inv in E. discriminate E.
    + rewrite join_cons. cbn [app]. now apply strip_cons_space.
Qed.

(** The description [_separatepatchdescription] returns has no carriage
    return: its lines are trimmed and joined by line feeds. *)
Lemma rstrip_lines_no_crlf s :
  Forall (fun l => no_crlf (Py.rstrip l)) (Py.splitlines true s).
Proof.
  induction s as [|c t IH IH2] using bytes_ind2; [constructor|].
  rewrite splitlines_cons.
  destruct (Byte.eqb c x0a) eqn:E1.
  { constructor; [constructor | exact IH]. }
  destruct (Byte.eqb c x0d) eqn:E2.
  { destruct t as [|c' t']; [repeat constructor|].
    destruct (Byte.eqb c' x0a); constructor; try constructor; eauto. }
  assert (Hc : not_crlf c = true).
  { apply not_crlf_iff. now rewrite <- !byte_eqb_neq. }
  destruct (Py.splitlines true t) as [|l ls].
  - repeat constructor. cbn [Py.rstrip].
    destruct (Py.isspace c); repeat constructor. exact Hc.
  - inversion IH as [|? ? Hl Hls]; subst. constructor; [|exact Hls].
    cbn [Py.rstrip]. destruct (Py.rstrip l).
    + destruct (Py.isspace c); repeat constructor. exact Hc.
    + constructor; assumption.
Qed.

Lemma separate_loop_desclines (P : bytes -> Prop) patchlines :
  forall i,
    Forall (fun l => P (Py.rstrip l)) patchlines ->
    Forall P (snd (separate_loop i patchlines)).
Proof.
  induction patchlines as [|l ls IH]; intros i H; [constructor|].
  cbn [separate_loop].
  destruct (Py.startswith_any diff_markers l); [constructor|].
  destruct (Py.startswith "Index: " l); [constructor|].
  inversion H; subst. specialize (IH (S i) ltac:(assumption)).
  destruct (separate_loop (S i) ls). constructor; assumption.
Qed.

Lemma join_lf_no_cr ls :
  Forall no_crlf ls -> Forall (fun b => b <> x0d) (Py.join [x0a] ls).
Proof.
  assert (Hone : forall l, no_crlf l -> Forall (fun b => b <> x0d) l).
  { intros l Hl. eapply Forall_impl; [|exact Hl]. intros b Hb.
    now apply not_crlf_iff in Hb. }
  induction 1 as [|l rest Hl Hrest IH]; [constructor|].
  destruct rest as [|q rest]; [now apply Hone|].
  rewrite join_cons. apply Forall_app. split; [now apply Hone|].
  apply Forall_app. split; [repeat constructor; discriminate | exact IH].
Qed.

Lemma separate_description_no_cr patchcontent :
  ~ In x0d (snd (_separatepatchdescription patchcontent)).
Proof.
  unfold _separatepatchdescription.
  pose proof (@separate_loop_desclines no_crlf
                (Py.splitlines true patchcontent ++ [[]]) 0) as H.
  destruct (separate_loop 0 (Py.splitlines true patchcontent ++ [[]]))
    as [i desclines]. cbn [snd] in *.
  assert (Hd : Forall no_crlf desclines).
  { apply H. apply Forall_app. split; [apply rstrip_lines_no_crlf|].
    repeat constructor. }
  pose proof (rstrip_forall (join_lf_no_cr Hd)) as Hr.
  rewrite Forall_forall in Hr. intros Hin. now apply (Hr _ Hin).
Qed.

Section PopThenFold.
Context {Store : Type} {backend : Backend Store}.
Implicit Type r : Repo Store.

(** Folding a changeset with the message of [pop]. *)
Lemma fold_entry_of_pop_message :
  forall rootpath patches rev r name patchdesc diff,
    no_crlf name ->
    ~ In CR patchdesc ->
    description r (Some rev) = pop_patchmessage name patchdesc ->
    (forall r', same_but_ui r r' ->
                patch_diff r' (p1 r' (Some rev)) (Some rev) rootpath = inr diff) ->
    exists r',
      fold_patch_entry rootpath patches rev r
      = (r', inr (dict_set patches
                    (hyphenate_runs (Byte.eqb SP) false (Py.strip name))
                    (if nonempty (Py.strip patchdesc)
                     then Py.strip patchdesc ++ [LF; LF]
                          ++ _hgdifftopatch diff rootpath
                     else _hgdifftopatch diff rootpath)))
      /\ same_but_ui r r'.
Proof.
  intros rootpath patches rev r name patchdesc diff Hn Hcr Hdesc Hdiff.
  unfold fold_patch_entry, bind, gets. rewrite Hdesc.
  rewrite (pop_patchmessage_first_line patchdesc Hn).
  assert (Hname : fold_patchname ("DO NOT SUBMIT [PATCH] " ++ name)
                  = Some (Py.strip name,
                          hyphenate_runs (Byte.eqb x20) false (Py.strip name))).
  { destruct (fold_patchname ("DO NOT SUBMIT [PATCH] " ++ name))
      as [[orig stored]|] eqn:E.
    - destruct (fold_patchname_spaces _ E) as [Hs _].
      unfold fold_patchname in E.
      rewrite (patchdesc_matches_pop_message Hn) in E.
      cbn [Re.group Nat.eqb app] in E. rewrite strip_sp_cons in E.
      injection E as <- <-. now rewrite Hs.
    - unfold fold_patchname in E.
      rewrite (patchdesc_matches_pop_message Hn) in E. discriminate E. }
  rewrite Hname.
  rewrite (@fold_description_of_pop_message name patchdesc Hn Hcr).
  match goal with
  | |- context [if ?b then ui_warn ?t else ret tt] =>
      assert (Hs : same_but_ui r (fst ((if b then ui_warn t else ret tt) r)))
        by (destruct b; repeat split);
      destruct ((if b then ui_warn t else ret tt) r) as [r1 [e1|[]]] eqn:Ew;
        [destruct b; discriminate Ew|]
  end.
  cbn [fst] in Hs. unfold query. rewrite (Hdiff r1 Hs).
  exists r1. split; [reflexivity | exact Hs].
Qed.

(** X20.  Folding a changeset that [pop] made.  [pop] commits the patch
    [name] of the series file with the description it found in the patch
    file; from that message [fold] stores, under the trimmed name with its
    runs of spaces hyphenated, the description without the whitespace
    around it, a blank line and the converted diff; or the converted diff
    alone when the description is blank. *)
Theorem fold_entry_of_popped_patch :
  forall rootpath patches rev r origseries name patchcontent diff,
    In name (series_patches origseries) ->
    let patchdesc := snd (_separatepatchdescription patchcontent) in
    description r (Some rev) = pop_patchmessage name patchdesc ->
    (forall r', same_but_ui r r' ->
                patch_diff r' (p1 r' (Some rev)) (Some rev) rootpath = inr diff) ->
    exists r',
      fold_patch_entry rootpath patches rev r
      = (r', inr (dict_set patches
                    (hyphenate_runs (Byte.eqb SP) false (Py.strip name))
                    (if nonempty (Py.strip patchdesc)
                     then Py.strip patchdesc ++ [LF; LF]
                          ++ _hgdifftopatch diff rootpath
                     else _hgdifftopatch diff rootpath)))
      /\ same_but_ui r r'.
Proof.
  intros rootpath patches rev r origseries name patchcontent diff Hin patchdesc.
  apply fold_entry_of_pop_message.
  - now apply series_patches_no_crlf in Hin.
  - apply separate_description_no_cr.
Qed.

End PopThenFold.

Lemma fold_entry_of_popped_patch_witness :
  let r := mkRepo [ mkCommit "#QUAHOG Import tp/foo." None None Draft "c0" false;
                    mkCommit ("DO NOT SUBMIT [PATCH] a.diff" ++ [LF; LF]
                              ++ "First patch.")
                             (Some 0) None Draft "c1" false ]
                  (Some 1) Toy.files [] tt in
  let patchdesc := snd (_separatepatchdescription Toy.a_diff) in
  exists r',
    fold_patch_entry "tp/foo" [] 1 r
    = (r', inr (dict_set []
                  (hyphenate_runs (Byte.eqb SP) false (Py.strip "a.diff"))
                  (if nonempty (Py.strip patchdesc)
                   then Py.strip patchdesc ++ [LF; LF]
                        ++ _hgdifftopatch [] "tp/foo"
                   else _hgdifftopatch [] "tp/foo")))
    /\ same_but_ui r r'.
Proof.
  apply (@fold_entry_of_popped_patch unit Toy.backend "tp/foo" [] 1 _
           Toy.series "a.diff" Toy.a_diff []).
  - vm_compute. now left.
  - vm_compute. reflexivity.
  - reflexivity.
Defined.

(** ** Failures and early returns of the commands *)

Section EarlyExits.
Context {Store : Type} {backend : Backend Store}.
Implicit Type r : Repo Store.

Lemma pop_try_no_patch rootpath seriespath patchestopop createnew fromctx
    origctx rebaserevs :
  pop_try rootpath seriespath [] patchestopop createnew fromctx origctx
          rebaserevs
  = (refresh_tracking ;;
     (if createnew then
        message <- quahog_message rootpath ;;
        newbase <- cmdutil_commit false message ;;
        assert_some newbase ;; ret tt
      else
        check (fun r => rewriteutil_precheck r
                          match fromctx with Some n => [n] | None => [] end
                          "amend") ;;
        cmdutil_amend fromctx ;; ret tt) ;;
     (match rebaserevs with
      | [] => ret tt
      | _ :: _ => raise UnboundLocalError
      end) ;;
     restore_checkout origctx).
Proof.
  unfold pop_try. cbn [rev]. rewrite combine_nil. reflexivity.
Qed.

(** X21.  [pop] on a series file without entry, when there are changesets
    to rebase (by default, the draft children of the base: the patches
    popped before are among them).  Nothing is popped, so [leaf] is never
    assigned: the [try] block cannot end normally, and when the steps
    before the rebase succeed (here with a base that is reused), the base
    has been amended and the block raises [UnboundLocalError]. *)
Theorem pop_try_nothing_popped :
  forall rootpath seriespath patchestopop fromctx origctx rebaserev rebaserevs r,
    (forall createnew,
     exists e,
       snd (pop_try rootpath seriespath [] patchestopop createnew fromctx
                    origctx (rebaserev :: rebaserevs) r) = inl e)
    /\ (forall r1 r2 node,
          refresh_tracking r = (r1, inr tt) ->
          rewriteutil_precheck r1
            match fromctx with Some n => [n] | None => [] end "amend" = None ->
          cmdutil_amend fromctx r1 = (r2, inr node) ->
          pop_try rootpath seriespath [] patchestopop false fromctx origctx
                  (rebaserev :: rebaserevs) r
          = (r2, inl UnboundLocalError)).
Proof.
  intros rootpath seriespath patchestopop fromctx origctx rebaserev rebaserevs r.
  split.
  - intros createnew. rewrite pop_try_no_patch. unfold bind at 1.
    destruct (refresh_tracking r) as [r1 [e|[]]]; [now exists e|].
    unfold bind at 1.
    match goal with
    | |- context [(if createnew then ?a else ?b) r1] =>
        destruct ((if createnew then a else b) r1) as [r2 [e|[]]];
          [now exists e|]
    end.
    now exists UnboundLocalError.
  - intros r1 r2 node Hr Hp Ha. rewrite pop_try_no_patch.
    unfold bind at 1. rewrite Hr. unfold bind at 1.
    unfold bind at 1. unfold check at 1. rewrite Hp.
    unfold bind at 1. rewrite Ha. reflexivity.
Qed.

(** X22.  A patch that [git apply] refuses while [pop] applies the
    patches again.  The command of the tool and what it printed are
    shown as warnings and the failure becomes an [Abort] that names the
    patch; nothing is committed for it.  Any other exception of the call
    goes on as it is. *)
Theorem pop_reapply_failure :
  forall rootpath patchtopop patchcontent patchdesc r r2 e,
    let r1 := fst (ui_status ("popping patch " ++ [DQUOTE] ++ patchtopop
                              ++ [DQUOTE] ++ [LF]) r) in
    subprocess_run (git_apply rootpath) patchcontent r1 = (r2, inl e) ->
    pop_reapply rootpath (patchtopop, patchcontent, patchdesc) r
    = match e with
      | CalledProcessError cmd stderr =>
          (mkRepo (changelog r2) (dot r2) (wfiles r2)
                  (ui_out r2
                   ++ [Warn ("command failed: " ++ py_repr_list cmd ++ [LF]);
                       Warn stderr])
                  (store r2),
           inl (Abort (patchtopop ++ ": failed to apply patch")))
      | _ => (r2, inl e)
      end.
Proof.
  intros rootpath patchtopop patchcontent patchdesc r r2 e r1 H.
  unfold pop_reapply. unfold bind at 1. unfold ui_status at 1.
  unfold bind at 1. unfold try_called_process_error.
  unfold r1, ui_status in H. cbn [fst] in H. rewrite H.
  destruct e; try reflexivity.
  unfold bind, ui_warn, raise. cbn [changelog dot wfiles ui_out store].
  now rewrite <- app_assoc.
Qed.

(** X23.  [_trackedroot] on a root with a canonical path [rootpath].  It
    aborts, having changed nothing but the messages printed, when
    [rootpath] is not a directory or has no [patches] directory in it;
    when it returns, it returns [rootpath], and both are directories. *)
Theorem trackedroot_checks_directories :
  forall root r rootpath,
    canonpath r (match root with [] => "." | _ => root end) = inr rootpath ->
    let r1 :=
      match root with
      | [] => fst (ui_status ("inferring --root as " ++ [DQUOTE] ++ rootpath
                              ++ [DQUOTE] ++ [LF]) r)
      | _ => r
      end in
    (wvfs_isdir r1 rootpath = false ->
     _trackedroot root r
     = (r1, inl (Abort (rootpath ++ ": directory not found"))))
    /\ (wvfs_isdir r1 rootpath = true ->
        wvfs_isdir r1 (Py.reljoin rootpath ["patches"]) = false ->
        _trackedroot root r
        = (r1, inl (Abort (rootpath
                           ++ ": does not contain patches/ subdirectory"))))
    /\ (forall r' path,
          _trackedroot root r = (r', inr path) ->
          path = rootpath
          /\ wvfs_isdir r1 rootpath = true
          /\ wvfs_isdir r1 (Py.reljoin rootpath ["patches"]) = true).
Proof.
  intros root r rootpath Hc r1.
  assert (Hrun :
            _trackedroot root r
            = if negb (wvfs_isdir r1 rootpath)
              then (r1, inl (Abort (rootpath ++ ": directory not found")))
              else if negb (wvfs_isdir r1 (Py.reljoin rootpath ["patches"]))
              then (r1, inl (Abort (rootpath
                              ++ ": does not contain patches/ subdirectory")))
              else (_ensurenarrowspec rootpath ;;
                    (if has_reporting_record_meta
                     then reporting_record_meta "quahog.root" rootpath
                     else ret tt) ;;
                    ret rootpath) r1).
  { unfold _trackedroot. unfold bind at 1. unfold query. rewrite Hc.
    unfold bind at 1.
    assert (Hst : (match root with
                   | [] => ui_status ("inferring --root as " ++ [DQUOTE]
                                      ++ rootpath ++ [DQUOTE] ++ [LF])
                   | _ :: _ => ret tt
                   end) r = (r1, inr tt)) by (unfold r1; now destruct root).
    rewrite Hst. unfold bind at 1. unfold gets at 1.
    destruct (wvfs_isdir r1 rootpath); cbn [negb]; [|reflexivity].
    unfold bind at 1. unfold gets at 1.
    destruct (wvfs_isdir r1 (Py.reljoin rootpath ["patches"])); reflexivity. }
  rewrite Hrun. clear Hrun.
  destruct (wvfs_isdir r1 rootpath) eqn:Ed; cbn [negb].
  - destruct (wvfs_isdir r1 (Py.reljoin rootpath ["patches"])) eqn:Ep;
      cbn [negb].
    + split; [discriminate|]. split; [discriminate|].
      intros r' path H.
      apply bind_inr in H as (ra & [] & _ & H).
      apply bind_inr in H as (rb & [] & _ & H).
      unfold ret in H. injection H as _ <-. repeat split.
    + split; [discriminate|]. split; [reflexivity|]. discriminate.
  - split; [reflexivity|]. split; [discriminate|]. discriminate.
Qed.

(** X24.  The options of [fold], once [_trackedroot] has returned.  A
    negative [--count] gives a warning and nothing else, whatever the
    other options; [--rev] together with [--all] or with a [--count] aborts
    before the repository is locked; and without [--rev], [--all] and
    [--count] the command is the one with [--count 1]. *)
Theorem fold_option_checks :
  forall opts r r1 rootpath,
    _trackedroot (fold_root opts) r = (r1, inr rootpath) ->
    ((fold_count opts < 0)%Z ->
     fold opts r = ui_warn ("--count must be positive" ++ [LF]) r1)
    /\ ((0 <= fold_count opts)%Z -> fold_rev opts <> [] ->
        fold_all opts = true ->
        fold opts r = (r1, inl (Abort "cannot provide both --rev and --all")))
    /\ ((0 < fold_count opts)%Z -> fold_rev opts <> [] ->
        fold_all opts = false ->
        fold opts r = (r1, inl (Abort "cannot provide both --rev and --count")))
    /\ (fold_count opts = 0%Z -> fold_rev opts = [] -> fold_all opts = false ->
        fold opts r
        = fold (mkFoldOpts (fold_root opts) (fold_to opts) 1 false []) r).
Proof.
  intros opts r r1 rootpath Ht. unfold fold, bind. cbn [fold_root fold_to
    fold_count fold_all fold_rev]. rewrite Ht.
  repeat split.
  - intros H. apply Z.ltb_lt in H. now rewrite H.
  - intros H Hrev Hall. apply Z.ltb_ge in H. rewrite H, Hall.
    destruct (fold_rev opts); [congruence|]. reflexivity.
  - intros H Hrev Hall.
    assert (H0 : (fold_count opts <? 0)%Z = false) by (apply Z.ltb_ge; lia).
    assert (H1 : (fold_count opts =? 0)%Z = false) by (apply Z.eqb_neq; lia).
    rewrite H0, Hall.
    destruct (fold_rev opts); [congruence|].
    cbn [nonempty orb negb andb]. now rewrite H1.
  - intros H Hrev Hall. rewrite H, Hrev, Hall. reflexivity.
Qed.

End EarlyExits.

Lemma pop_try_nothing_popped_witness :
  pop_try "tp/foo" "tp/foo/patches/series" [] 1 false (Some 1) (Some 1) [4]
          Toy.at_base
  = (Toy.at_base, inl UnboundLocalError).
Proof.
  refine (proj2 (@pop_try_nothing_popped unit Toy.backend "tp/foo"
                   "tp/foo/patches/series" 1 (Some 1) (Some 1) 4 []
                   Toy.at_base)
                Toy.at_base Toy.at_base "c1" _ _ _); reflexivity.
Defined.

Lemma pop_reapply_failure_witness :
  let r := Toy.at_base in
  let r2 := fst (ui_status ("popping patch " ++ [DQUOTE] ++ "b.diff"
                            ++ [DQUOTE] ++ [LF]) r) in
  pop_reapply "tp/foo" ("b.diff", "reject", []) r
  = (mkRepo (changelog r2) (dot r2) (wfiles r2)
            (ui_out r2
             ++ [Warn ("command failed: "
                       ++ py_repr_list (git_apply "tp/foo") ++ [LF]);
                 Warn "error: patch failed"])
            (store r2),
     inl (Abort ("b.diff" ++ ": failed to apply patch"))).
Proof.
  apply (@pop_reapply_failure unit Toy.backend "tp/foo" "b.diff" "reject" []
           Toy.at_base _
           (CalledProcessError (git_apply "tp/foo") "error: patch failed")).
  reflexivity.
Defined.

Lemma trackedroot_checks_directories_witness :
  let r := Toy.at_base in
  (wvfs_isdir r "tp/foo" = false ->
   _trackedroot "tp/foo" r
   = (r, inl (Abort ("tp/foo" ++ ": directory not found"))))
  /\ (wvfs_isdir r "tp/foo" = true ->
      wvfs_isdir r (Py.reljoin "tp/foo" ["patches"]) = false ->
      _trackedroot "tp/foo" r
      = (r, inl (Abort ("tp/foo"
                        ++ ": does not contain patches/ subdirectory"))))
  /\ (forall r' path,
        _trackedroot "tp/foo" r = (r', inr path) ->
        path = "tp/foo"
        /\ wvfs_isdir r "tp/foo" = true
        /\ wvfs_isdir r (Py.reljoin "tp/foo" ["patches"]) = true).
Proof.
  apply (@trackedroot_checks_directories unit Toy.backend "tp/foo" Toy.at_base
           "tp/foo").
  reflexivity.
Defined.

Lemma fold_option_checks_witness :
  let opts := mkFoldOpts "tp/foo" [] 0 false [] in
  let r := Toy.at_base in
  let r1 := fst (_trackedroot "tp/foo" r) in
  ((fold_count opts < 0)%Z ->
   fold opts r = ui_warn ("--count must be positive" ++ [LF]) r1)
  /\ ((0 <= fold_count opts)%Z -> fold_rev opts <> [] ->
      fold_all opts = true ->
      fold opts r = (r1, inl (Abort "cannot provide both --rev and --all")))
  /\ ((0 < fold_count opts)%Z -> fold_rev opts <> [] ->
      fold_all opts = false ->
      fold opts r = (r1, inl (Abort "cannot provide both --rev and --count")))
  /\ (fold_count opts = 0%Z -> fold_rev opts = [] -> fold_all opts = false ->
      fold opts r
      = fold (mkFoldOpts (fold_root opts) (fold_to opts) 1 false []) r).
Proof.
  apply (@fold_option_checks unit Toy.backend (mkFoldOpts "tp/foo" [] 0 false [])
           Toy.at_base _ "tp/foo").
  reflexivity.
Defined.

(** ** What [pop] knows before it changes the series file *)

Section PopPlans.
Context {Store : Type} {backend : Backend Store}.
Implicit Type r : Repo Store.

Ltac plan_facts :=
  intros;
  first
    [ assumption
    | discriminate
    | match goal with
      | H : ?b = true, Hnew : ?b = true -> _ |- _ => now apply Hnew
      | H : ?b = false, Hreuse : ?b = false -> _ |- _ => now apply Hreuse
      end
    | match goal with
      | H : ?b = true, Hrebase : pop_rebase _ = [],
        Er : pop_rebaserevs _ _ ?b = inr _ |- _ =>
          unfold pop_rebaserevs, pop_rebase_revset in Er;
          rewrite Hrebase, H in Er; cbn [revs] in Er; congruence
      end
    | reflexivity
    | lia
    | match goal with
      | H : _ \/ _ |- _ => destruct H; first [assumption | discriminate | lia]
      end ].

(** X25.  What lines 528-565 of [pop] leave when they do not raise.  The
    series file exists and was read.  The command returns early, after
    its warning, only for [--all] on a series without entry.  Otherwise
    the plan holds the entries of the file, the number of patches to pop
    (all of them for [--all], else [--count]; at least one, since [pop]
    gets here with a [--count] of one or more), and a base that is a
    Quahog changeset unless one is to be created; with a base to be
    created and no [--rebase], nothing is to be rebased. *)
Theorem pop_setup_plan :
  forall opts rootpath r r1 plan,
    pop_setup opts rootpath r = (r1, inr plan) ->
    exists origseries,
      Vfs.lookup (wfiles r1) (Py.reljoin rootpath ["patches"; "series"])
      = Some origseries
      /\ match plan with
         | None =>
             pop_all opts = true
             /\ series_patches origseries = []
             /\ exists out,
                  ui_out r1 = out ++ [Warn ("no patches to pop" ++ [LF])]
         | Some p =>
             plan_seriespath p = Py.reljoin rootpath ["patches"; "series"]
             /\ plan_origseries p = origseries
             /\ plan_patches p = series_patches origseries
             /\ plan_patchestopop p
                = (if pop_all opts then length (plan_patches p)
                   else Z.to_nat (pop_count opts))
             /\ (pop_all opts = true \/ (1 <= pop_count opts)%Z ->
                 1 <= plan_patchestopop p)
             /\ (plan_createnew p = false ->
                 _isquahogchange (description r (plan_fromctx p)) = true)
             /\ (plan_createnew p = true ->
                 pop_from opts = []
                 /\ (pop_rebase opts = [] -> plan_rebaserevs p = []))
         end.
Proof.
  intros opts rootpath r r1 plan H. unfold pop_setup in H.
  apply bind_inr in H as (ra & [] & Ha & H).
  apply bind_inr in H as (rb & [] & Hb & H).
  assert (ra = r) by (unfold check in Ha;
                      destruct (cmdutil_bailifchanged r); congruence).
  subst ra.
  assert (rb = r) by (unfold check in Hb;
                      destruct (cmdutil_checkunfinished r); congruence).
  subst rb.
  apply bind_inr in H as (rc & origctx & Hc & H).
  unfold gets in Hc. injection Hc as <- <-.
  apply bind_inr in H as (rd & [fromctx createnew] & Hbase & H).
  apply pop_base_inr in Hbase as (Hreuse & Hnew).
  apply bind_inr in H as (re & [] & _ & H).
  apply bind_inr in H as (rf & rebaserevs & Hrb & H).
  unfold query in Hrb.
  destruct (pop_rebaserevs re (pop_rebase opts) createnew) as [e|l] eqn:Er;
    [discriminate Hrb|].
  injection Hrb as <- <-.
  apply bind_inr in H as (rg & isfile & Hg & H).
  unfold gets in Hg. injection Hg as <- <-.
  destruct (negb (Vfs.isfile (wfiles re) _)); [discriminate H|].
  apply bind_inr in H as (rh & origseries & Hread & H).
  unfold wvfs_read in Hread.
  destruct (Vfs.lookup (wfiles re) _) as [c|] eqn:El; [|discriminate Hread].
  injection Hread as <- <-.
  exists c.
  destruct (pop_all opts) eqn:Eall; cbn [andb] in H.
  - destruct (Nat.ltb (length (series_patches c)) 1) eqn:Elt.
    + apply bind_inr in H as (ri & [] & Hw & H).
      unfold ui_warn in Hw. injection Hw as <-.
      unfold ret in H. injection H as <- <-.
      cbn [wfiles ui_out]. split; [exact El|]. split; [reflexivity|].
      apply Nat.ltb_lt in Elt. split.
      * destruct (series_patches c); [reflexivity | simpl in Elt; lia].
      * now eexists.
    + apply bind_inr in H as (ri & [] & Hst & H).
      unfold ui_status in Hst. injection Hst as <-.
      unfold ret in H. injection H as <- <-.
      cbn [wfiles plan_seriespath plan_origseries plan_patches
           plan_patchestopop plan_createnew plan_fromctx plan_rebaserevs].
      apply Nat.ltb_ge in Elt.
      split; [exact El|]. repeat split; plan_facts.
  - apply bind_inr in H as (ri & [] & Hst & H).
    unfold ui_status in Hst. injection Hst as <-.
    unfold ret in H. injection H as <- <-.
    cbn [wfiles plan_seriespath plan_origseries plan_patches
         plan_patchestopop plan_createnew plan_fromctx plan_rebaserevs].
    split; [exact El|]. repeat split; plan_facts.
Qed.

End PopPlans.

Lemma pop_setup_plan_witness :
  let opts := mkPopOpts "tp/foo" [] 1 true [] in
  let r := Toy.at_base in
  let r1 := fst (pop_setup opts "tp/foo" r) in
  let p := mkPopPlan "tp/foo/patches/series" Toy.series ["a.diff"; "b.diff"] 2
                     false (Some 1) (Some 1) [2; 4] in
  exists origseries,
    Vfs.lookup (wfiles r1) (Py.reljoin "tp/foo" ["patches"; "series"])
    = Some origseries
    /\ plan_seriespath p = Py.reljoin "tp/foo" ["patches"; "series"]
    /\ plan_origseries p = origseries
    /\ plan_patches p = series_patches origseries
    /\ plan_patchestopop p
       = (if pop_all opts then length (plan_patches p)
          else Z.to_nat (pop_count opts))
    /\ (pop_all opts = true \/ (1 <= pop_count opts)%Z ->
        1 <= plan_patchestopop p)
    /\ (plan_createnew p = false ->
        _isquahogchange (description r (plan_fromctx p)) = true)
    /\ (plan_createnew p = true ->
        pop_from opts = []
        /\ (pop_rebase opts = [] -> plan_rebaserevs p = [])).
Proof.
  apply (@pop_setup_plan unit Toy.backend (mkPopOpts "tp/foo" [] 1 true [])
           "tp/foo" Toy.at_base _
           (Some (mkPopPlan "tp/foo/patches/series" Toy.series
                    ["a.diff"; "b.diff"] 2 false (Some 1) (Some 1) [2; 4]))).
  reflexivity.
Defined.

(** ** A patch file written by [fold] and read by [pop] *)

Lemma hgdifftopatch_header_first base_rest root :
  no_crlf (Py.rstrip_chars "/" root) ->
  exists out,
    _hgdifftopatch ("--- " ++ Py.rstrip_chars "/" root ++ base_rest) root
    = "--- a" ++ out.
Proof.
  intros Hroot. set (base := Py.rstrip_chars "/" root).
  assert (Hm : no_crlf ("--- " ++ base)).
  { apply Forall_app. split; [|exact Hroot].
    repeat (constructor; [reflexivity|]). constructor. }
  destruct (@startswith_first_line ("--- " ++ base) Hm ltac:(discriminate)
              ("--- " ++ base ++ base_rest)) as (l & ls & Hl & Hs).
  { rewrite (app_assoc "--- " base base_rest). apply startswith_app. }
  unfold _hgdifftopatch. fold base. rewrite Hl. cbn [flat_map].
  unfold hgdiff_line at 1. rewrite Hs.
  destruct (Py.startswith "diff --git" l) eqn:E.
  { apply startswith_iff in Hs as [t ->].
    apply startswith_iff in E as [u E]. discriminate E. }
  rewrite concat_app. cbn [concat]. rewrite app_nil_r, <- app_assoc.
  eexists. reflexivity.
Qed.

(** X26.  Description and diff survive [fold] and [pop].  [fold] writes
    the description, a blank line and the converted diff, or the converted
    diff alone when there is no description; for a diff of Mercurial that
    starts with a [diff --git] line and the [--- ] line of a file under
    the root path (no line break in it), and a description without marker
    line, [pop] reads back the converted diff as it was written, and the
    description with its lines trimmed. *)
Theorem fold_content_read_by_pop :
  forall patchdesc gitline rest root,
    free_of_markers patchdesc ->
    no_crlf gitline ->
    no_crlf (Py.rstrip_chars "/" root) ->
    let diff := "diff --git" ++ gitline ++ [LF]
                ++ "--- " ++ Py.rstrip_chars "/" root ++ rest in
    let patchdiff := _hgdifftopatch diff root in
    _separatepatchdescription
      (if nonempty patchdesc then patchdesc ++ [LF; LF] ++ patchdiff
       else patchdiff)
    = (patchdiff, trimmed_lines patchdesc).
Proof.
  intros patchdesc gitline rest root Hfree Hgit Hroot diff patchdiff.
  assert (Hdiff : exists out, patchdiff = "--- a" ++ out).
  { unfold patchdiff, diff.
    change ("diff --git" ++ gitline ++ [x0a] ++ "--- "
            ++ Py.rstrip_chars "/" root ++ rest)
      with (("diff --git" ++ gitline)
            ++ x0a :: ("--- " ++ Py.rstrip_chars "/" root ++ rest)).
    unfold _hgdifftopatch at 1.
    rewrite splitlines_app_lf_any, flat_map_app, concat_app.
    rewrite splitlines_app_lf
      by (apply Forall_app; split; [|exact Hgit];
          repeat (constructor; [reflexivity|]); constructor).
    cbn [Py.splitlines flat_map]. unfold hgdiff_line at 1.
    rewrite startswith_app_r by (apply (startswith_app "diff --git")).
    cbn [app concat].
    apply (@hgdifftopatch_header_first rest root Hroot). }
  destruct Hdiff as [out Hout].
  destruct patchdesc as [|d ds]; cbn [nonempty].
  - apply (@separate_lines_at_marker patchdiff [] patchdiff);
      [reflexivity | constructor | now rewrite Hout].
  - destruct (separate_description_parts patchdiff Hfree)
      as (D & HD & HDfree & HDn).
    rewrite <- HDn.
    apply separate_lines_at_marker; [|exact HDfree|now rewrite Hout].
    apply (app_inv_tail [[]]). rewrite <- app_assoc. exact HD.
Qed.

Lemma fold_content_read_by_pop_witness :
  let diff := "diff --git" ++ " tp/foo/y.c tp/foo/y.c" ++ [LF]
              ++ "--- " ++ Py.rstrip_chars "/" "tp/foo" ++ "/y.c" ++ [LF]
              ++ "+++ tp/foo/y.c" ++ [LF] ++ "@@ -1 +1 @@" ++ [LF]
              ++ "-a" ++ [LF] ++ "+b" ++ [LF] in
  let patchdiff := _hgdifftopatch diff "tp/foo" in
  _separatepatchdescription
    (if nonempty "Why. " then "Why. " ++ [LF; LF] ++ patchdiff else patchdiff)
  = (patchdiff, trimmed_lines "Why. ").
Proof.
  apply (@fold_content_read_by_pop "Why. " " tp/foo/y.c tp/foo/y.c"
           ("/y.c" ++ [LF] ++ "+++ tp/foo/y.c" ++ [LF] ++ "@@ -1 +1 @@" ++ [LF]
            ++ "-a" ++ [LF] ++ "+b" ++ [LF]) "tp/foo").
  - apply free_of_markers_check. vm_compute. reflexivity.
  - repeat (constructor; [reflexivity|]). constructor.
  - repeat (constructor; [reflexivity|]). constructor.
Defined.

(** ** The patches [pop] takes off *)


Lemma vfs_lookup_write_other fs path content q :
  Py.bytes_eqb path q = false ->
  Vfs.lookup (Vfs.write fs path content) q = Vfs.lookup fs q.
Proof.
  intros Hq. induction fs as [|[p c] fs IH]; cbn [Vfs.write Vfs.lookup].
  - now rewrite Hq.
  - destruct (Py.bytes_eqb p path) eqn:E; cbn [Vfs.lookup].
    + apply bytes_eqb_eq in E. subst p. now rewrite Hq.
    + destruct (Py.bytes_eqb p q); [reflexivity | exact IH].
Qed.

Section PopLoop.
Context {Store : Type} {backend : Backend Store}.
Implicit Type r : Repo Store.




(** X28.  A series entry without patch file.  [pop] has already written
    the series file without the entry when it opens the patch file; when
    that file does not exist (and is not the series file itself), the turn
    raises [FileNotFoundError] and has changed nothing else. *)
Theorem pop_unapply_missing_patch :
  forall rootpath seriespath patches i patchtopop r,
    let patchpath := Py.reljoin rootpath ["patches"; patchtopop] in
    Py.bytes_eqb seriespath patchpath = false ->
    Vfs.lookup (wfiles r) patchpath = None ->
    pop_unapply rootpath seriespath patches i patchtopop r
    = (mkRepo (changelog r) (dot r)
              (Vfs.write (wfiles r) seriespath (series_without_last patches i))
              (ui_out r) (store r),
       inl (FileNotFoundError patchpath)).
Proof.
  intros rootpath seriespath patches i patchtopop r patchpath Hne Hnone.
  unfold pop_unapply. unfold bind at 1. unfold wvfs_write, set_wfiles.
  unfold bind at 1. unfold wvfs_read. cbn [wfiles]. fold patchpath.
  now rewrite (@vfs_lookup_write_other _ _ _ _ Hne), Hnone.
Qed.

End PopLoop.


Lemma pop_unapply_missing_patch_witness :
  let r := Toy.at_base in
  pop_unapply "tp/foo" "tp/foo/patches/series" ["a.diff"; "z.diff"] 0
              "z.diff" r
  = (mkRepo (changelog r) (dot r)
            (Vfs.write (wfiles r) "tp/foo/patches/series"
                       (series_without_last ["a.diff"; "z.diff"] 0))
            (ui_out r) (store r),
     inl (FileNotFoundError (Py.reljoin "tp/foo" ["patches"; "z.diff"]))).
Proof.
  apply (@pop_unapply_missing_patch unit Toy.backend "tp/foo"
           "tp/foo/patches/series" ["a.diff"; "z.diff"] 0 "z.diff" Toy.at_base);
    reflexivity.
Defined.

(** ** Linear revisions for [--rev] *)

Section Linear.
Context {Store : Type} {backend : Backend Store}.
Implicit Type r : Repo Store.

Lemma ctx_eqb_eq (a b : ctx) : ctx_eqb a b = true <-> a = b.
Proof.
  destruct a as [x|], b as [y|]; cbn [ctx_eqb]; try (split; congruence).
  rewrite Nat.eqb_eq. split; congruence.
Qed.

Lemma is_parent_iff r (l c : ctx) :
  existsb (ctx_eqb l) (parents r c) = true <-> In l (parents r c).
Proof.
  rewrite existsb_exists. split.
  - intros (p & Hp & E). apply ctx_eqb_eq in E. now subst.
  - intros H. exists l. split; [exact H | now apply ctx_eqb_eq].
Qed.

Lemma islinear_loop_chain r :
  forall rest a,
    islinear_loop r (Some (Some a)) rest = true <-> parent_chain r (a :: rest).
Proof.
  induction rest as [|b rest IH]; intros a; cbn [islinear_loop].
  - split; [constructor | reflexivity].
  - destruct (existsb (ctx_eqb (Some a)) (parents r (Some b))) eqn:E;
      cbn [negb].
    + rewrite IH. apply is_parent_iff in E. split.
      * intros H. now constructor.
      * intros H. now inversion H.
    + split; [discriminate|]. intros H. inversion H as [| |? ? ? Hin _]; subst.
      apply is_parent_iff in Hin. congruence.
Qed.

(** X29.  [_islinear] holds exactly when, in the revisions of the revset
    taken in the reverse of their topological order, every revision has
    the one before it among its parents; so it does for a revset with no
    revision or with one. *)
Theorem islinear_iff :
  forall r revspec,
    _islinear r revspec = inr true
    <-> exists l,
          revs r (RsSortTopo (RsUser revspec)) = inr l
          /\ parent_chain r (rev l).
Proof.
  intros r revspec. unfold _islinear.
  destruct (revs r (RsSortTopo (RsUser revspec))) as [e|l].
  - split; [discriminate|]. intros (l & H & _). discriminate H.
  - assert (Hloop : islinear_loop r None (rev l) = true
                    <-> parent_chain r (rev l)).
    { destruct (rev l) as [|a rest]; cbn [islinear_loop].
      - split; [constructor | reflexivity].
      - apply islinear_loop_chain. }
    split.
    + intros [= H]. exists l. split; [reflexivity | now apply Hloop].
    + intros (l' & [= <-] & H). f_equal. now apply Hloop.
Qed.

End Linear.
